(** * Staff scheduler: the schedule generator of [src/app.js]

    A shallow embedding of [getDaysInPeriod], [getDateForDay],
    [parseLocalDate], [formatDateStr], [getCoverageDefault], [seededRandom]
    and [runScheduler]; of the handlers that edit the roster and the time
    off, [addEmployee], [addUnavailabilityEntry], [updateUnavailEmployee],
    [updateUnavailStartSection] and [updateUnavailEndSection]; of
    [exportCSV]; and of the counting in [renderSchedule] and
    [renderCoverageFooter]; with the properties of the generation run and
    of what is done with its inputs and results.

    Conventions of the embedding.
    - JavaScript integers are [Z].  The fractional numbers (the scores of the
      fairness sort, the pseudo-random draws, the thresholds 0.3, 0.15 and
      0.8) are exact rationals [Q]: rounding of doubles is not represented.
      [Math.sin] is a parameter of the development; every theorem holds for
      all its values, and the worked runs use a stand-in that agrees with it
      at 0.
    - A [Date] is the number of its local calendar day counted from
      1970-01-01, with the day arithmetic of ECMAScript (MakeDay,
      YearFromTime, MonthFromTime, DateFromTime, WeekDay).  The time of day,
      the time zone and the limit of the time range are not represented: in
      date-range mode [getDateForDay] adds whole days, where the program
      adds multiples of 24 hours to a local midnight, which is another date
      after a change of daylight saving time.
    - [AppState.startDate] is held as the three numbers that [parseLocalDate]
      reads from the string; a missing or malformed start date is outside the
      model, as is a negative [duration] (on which [new Array] throws).
    - The objects [schedule], [shiftCounts], [consecutiveDays] and
      [employeePatternOffsets], keyed by the employee id, are finite maps.
      The id [`${gIndex}-${eIndex}`] is the pair [(gIndex, eIndex)].
    - [Array.prototype.sort] orders "using an implementation-defined
      sequence of calls" to the comparator.  For C4, which is about the order
      that the sort leaves and about its draws, an engine is any such
      sequence ([SortPlan]), and the sort of V8 on an array of fewer than 64
      elements is one of them ([v8Sort]).  In the run ([runScheduler]) the
      sort is fixed to a straight insertion sort ([Array_sort]), which is
      not the sort of an engine: on equal counts its order and the seed it
      leaves differ from those of a browser.  The properties of the run use
      of it only that it rearranges its input and, for the working shifts,
      whose comparator has no effect, that it is stable, as the language
      requires of every engine.
    - The seed is an integer, as [generateSchedule] sets it
      ([regenerateSchedule] adds a fractional jitter to it).
    - [alert] and [saveToStorage] have no part in the result and are left
      out.  Of [renderSchedule] and [renderCoverageFooter] the numbers and
      the classes that they compute are represented, the markup is not; of
      [exportCSV] the text is represented, its download is not.
    - A handler that reads a field of a group, an employee or an entry that
      does not exist throws a [TypeError]; the result [Throws] holds the
      state that it leaves behind.  Indices are natural numbers.  The
      rendering that follows a change is left out.

    The properties.
    - C1: absence markers survive the run.
    - C2: the run is a function of its inputs and the seed.
    - C3: who is a candidate for a shift.
    - C4: the fairness sort.
    - C5: the shortfall warnings.
    - C6: the rotation pattern.
    - C7: the consecutive-day audit.
    - C8: time-off entries with a missing date.
    - C9: the number of days of a month.
    - C10: the fairness counters.

    Further properties.
    - X1 to X3: the columns of month mode, the order of formatted dates, and
      reading a formatted date back.
    - X4, X5: the pre-fill of the time off.
    - X6: the order of the working shifts.
    - X7 to X9: the shape of the grid, what the run writes, the rotation.
    - X10 to X12: staffing, weekends under 8x5, no day shift after a night.
    - X13, X14: the limit on consecutive days.
    - X15, X16: the backup pass, the order of the warnings.
    - X17: the coverage footer after a run.
    - X18 to X21: adding an employee, editing and moving time-off entries.
    - X22 to X24: the CSV export and the counts of a row. *)

From Stdlib Require Import ZArith QArith Qround String Ascii List Lia Lqa Sorting.Sorted Permutation.
From Stdlib Require Import DecimalString DecimalPos DecimalZ DecimalN.
From stdpp Require Import base option list gmap strings sorting.

Import ListNotations.
Local Open Scope Z_scope.

(* ====================================================================== *)
(** ** JavaScript values used by the scheduler *)
(* ====================================================================== *)

Module JS.

(** [!s] for a string that may be missing: [undefined], [null] and the
    empty string are all falsy. *)
Definition truthy (s : option string) : bool :=
  match s with
  | None => false
  | Some s => negb (String.eqb s "")
  end.

(** [a >= b] and [a <= b] on strings compare code units
    lexicographically. *)
Definition str_le (a b : string) : bool := String.leb a b.

(** Template-literal rendering of an integer. *)
Definition str_of_Z (z : Z) : string := NilZero.string_of_int (Z.to_int z).

(** [String(n).padStart(2, '0')]. *)
Definition padStart2 (s : string) : string :=
  match String.length s with
  | O => "00"
  | S O => String "0" s
  | _ => s
  end.

(** Strict comparison of rationals as a boolean. *)
Definition Qltb (a b : Q) : bool :=
  match Qcompare a b with Lt => true | _ => false end.

End JS.

(* ====================================================================== *)
(** ** The [Date] object, at the granularity of days *)
(* ====================================================================== *)

Module JSDate.

(** Day number of 1 January of year [y] (ECMAScript DayFromYear). *)
Definition DayFromYear (y : Z) : Z :=
  365 * (y - 1970) + (y - 1969) / 4 - (y - 1901) / 100 + (y - 1601) / 400.

Definition DaysInYear (y : Z) : Z :=
  if negb (y mod 4 =? 0) then 365
  else if negb (y mod 100 =? 0) then 366
  else if negb (y mod 400 =? 0) then 365
  else 366.

Definition InLeapYear (y : Z) : bool := DaysInYear y =? 366.

(** YearFromTime: the largest [y] with [DayFromYear y <= day].  The year
    lies within one of the estimate taken from the mean year length. *)
Definition YearFromDay (day : Z) : Z :=
  let y0 := 1970 + (day * 400) / 146097 in
  if DayFromYear (y0 + 1) <=? day then y0 + 1
  else if DayFromYear y0 <=? day then y0
  else y0 - 1.

(** Day within the year on which month [m] (0-based) starts. *)
Definition MonthStart (leap : bool) (m : Z) : Z :=
  let l := if leap then 1 else 0 in
  match m with
  | 0 => 0
  | 1 => 31
  | 2 => 59 + l
  | 3 => 90 + l
  | 4 => 120 + l
  | 5 => 151 + l
  | 6 => 181 + l
  | 7 => 212 + l
  | 8 => 243 + l
  | 9 => 273 + l
  | 10 => 304 + l
  | 11 => 334 + l
  | _ => 365 + l
  end.

Definition DayWithinYear (day : Z) : Z := day - DayFromYear (YearFromDay day).

(** MonthFromTime. *)
Definition MonthFromDay (day : Z) : Z :=
  let leap := InLeapYear (YearFromDay day) in
  let dwy := DayWithinYear day in
  if dwy <? MonthStart leap 1 then 0
  else if dwy <? MonthStart leap 2 then 1
  else if dwy <? MonthStart leap 3 then 2
  else if dwy <? MonthStart leap 4 then 3
  else if dwy <? MonthStart leap 5 then 4
  else if dwy <? MonthStart leap 6 then 5
  else if dwy <? MonthStart leap 7 then 6
  else if dwy <? MonthStart leap 8 then 7
  else if dwy <? MonthStart leap 9 then 8
  else if dwy <? MonthStart leap 10 then 9
  else if dwy <? MonthStart leap 11 then 10
  else 11.

(** DateFromTime: the day of the month, from 1. *)
Definition DateFromDay (day : Z) : Z :=
  DayWithinYear day - MonthStart (InLeapYear (YearFromDay day)) (MonthFromDay day) + 1.

(** MakeDay(year, month, date): months outside 0..11 carry into the year,
    the date is an offset from the first of the month. *)
Definition MakeDay (year month date : Z) : Z :=
  let ym := year + month / 12 in
  let mn := month mod 12 in
  DayFromYear ym + MonthStart (InLeapYear ym) mn + date - 1.

(** [new Date(year, month, date)]: a year from 0 to 99 stands for
    1900 + year. *)
Definition make (year month date : Z) : Z :=
  let yr := if (0 <=? year) && (year <=? 99) then 1900 + year else year in
  MakeDay yr month date.

Definition getFullYear (t : Z) : Z := YearFromDay t.
Definition getMonth (t : Z) : Z := MonthFromDay t.
Definition getDate (t : Z) : Z := DateFromDay t.

(** [getDay]: 0 is Sunday; 1970-01-01 was a Thursday. *)
Definition getDay (t : Z) : Z := (t + 4) mod 7.

End JSDate.

(* ====================================================================== *)
(** ** Data model: [AppState] and what the scheduler reads from it *)
(* ====================================================================== *)

Inductive ShiftType := working | backup | admin.

(** A shift of the catalogue [AppState.shifts]; [coverage] is [None] while
    the property is [undefined].  The display fields (times, description,
    colour) are not read by the scheduler. *)
Record Shift := {
  code : string;
  type : ShiftType;
  coverage : option Z
}.

(** The two values of the [type] select of a time-off entry. *)
Inductive AbsenceKind := LEAVE | TAD.

Definition absenceCode (k : AbsenceKind) : string :=
  match k with LEAVE => "LEAVE" | TAD => "TAD" end.

(** A time-off entry [{ type, startDate, endDate }]; a date is [None] or
    the empty string until the user picks one. *)
Record Unavailability := {
  u_type : AbsenceKind;
  u_startDate : option string;
  u_endDate : option string
}.

Record Employee := {
  name : string;
  unavailability : list Unavailability
}.

Record Group := {
  g_name : string;
  employees : list Employee
}.

Record Constraints := {
  minRestHours : Z;
  maxHoursWeek : Z;
  maxConsecutiveDays : Z;
  targetShiftsPerPerson : Z
}.

Inductive CoveragePreset := preset_24_7 | preset_8x5 | preset_12x7 | preset_custom.

Inductive CalendarStyle := monthly | daterange.

(** Employee id [`${gIndex}-${eIndex}`]. *)
Abbreviation Id := (nat * nat)%type.

(** A grid cell: [null], or a shift code or absence marker. *)
Abbreviation Cell := (option string).

Abbreviation Schedule := (gmap Id (list Cell)).

Record Counts := { total : Z; night : Z }.

(** The two messages pushed on [AppState.warnings], with the values that
    fill their templates. *)
Inductive Warning :=
| Understaffed (day : Z) (shiftCode : string) (assigned requiredCount : Z)
| TooManyConsecutive (empName : string) (maxConsec maxAllowed : Z).

Definition warningText (w : Warning) : string :=
  match w with
  | Understaffed day c a r =>
      "Day " +:+ JS.str_of_Z day +:+ ": " +:+ c +:+ " shift understaffed ("
        +:+ JS.str_of_Z a +:+ "/" +:+ JS.str_of_Z r +:+ ")"
  | TooManyConsecutive n k m =>
      n +:+ ": " +:+ JS.str_of_Z k +:+ " consecutive days (max "
        +:+ JS.str_of_Z m +:+ ")"
  end.

(** The application state.  [startDate] is held as the triple
    (year, month, day) that [parseLocalDate] reads from the string;
    [rotationPattern] is the [pattern] of the catalogue entry that
    [getSelectedRotationPattern] finds, [None] when that is [null] or no
    entry is found. *)
Record AppState := {
  calendarStyle : CalendarStyle;
  month : Z;
  year : Z;
  startDate : Z * Z * Z;
  duration : Z;
  coveragePreset : CoveragePreset;
  rotationPattern : option (list Z);
  shifts : list Shift;
  groups : list Group;
  constraints : Constraints;
  schedule : option Schedule;
  shiftCounts : option (gmap Id Counts);
  warnings : list Warning;
  randomSeed : Z
}.

(** An element of [allEmployees]: the employee spread together with its
    position in the roster. *)
Record Member := {
  m_emp : Employee;
  groupIndex : nat;
  groupName : string;
  empIndex : nat;
  id : Id
}.

(* ====================================================================== *)
(** ** Calendar resolver *)
(* ====================================================================== *)

Definition getDaysInPeriod (st : AppState) : Z :=
  match calendarStyle st with
  | monthly => JSDate.getDate (JSDate.make (year st) (month st + 1) 0)
  | daterange => duration st
  end.

Definition getDateForDay (st : AppState) (dayIndex : Z) : Z :=
  match calendarStyle st with
  | monthly => JSDate.make (year st) (month st) (dayIndex + 1)
  | daterange =>
      let '(y, m, d) := startDate st in
      JSDate.make y (m - 1) d + dayIndex
  end.

Definition formatDateStr (date : Z) : string :=
  JS.str_of_Z (JSDate.getFullYear date) +:+ "-"
    +:+ JS.padStart2 (JS.str_of_Z (JSDate.getMonth date + 1)) +:+ "-"
    +:+ JS.padStart2 (JS.str_of_Z (JSDate.getDate date)).

Definition getCoverageDefault (preset : CoveragePreset) (shiftCode : string) : Z :=
  match preset with
  | preset_24_7 => 1
  | preset_8x5 => if String.eqb shiftCode "D" then 1 else 0
  | preset_12x7 =>
      if String.eqb shiftCode "D" || String.eqb shiftCode "N" then 1 else 0
  | preset_custom => 1
  end.

(* ====================================================================== *)
(** ** [Array.prototype.sort] with a comparator that has an effect *)
(* ====================================================================== *)

Section ArraySort.
Context {A S : Type}.
Variable compareFn : A -> A -> S -> Q * S.

(** Insert [x] in the sorted prefix, held last element first: walk down
    from the last element while [compareFn y x > 0]. *)
Fixpoint insertSorted (x : A) (rprefix : list A) (s : S) : list A * S :=
  match rprefix with
  | [] => ([x], s)
  | y :: rest =>
      let '(c, s1) := compareFn y x s in
      if JS.Qltb 0 c then
        let '(r, s2) := insertSorted x rest s1 in (y :: r, s2)
      else (x :: y :: rest, s1)
  end.

Definition Array_sort (l : list A) (s : S) : list A * S :=
  let '(r, s') := foldl (fun acc x => insertSorted x (fst acc) (snd acc)) ([], s) l in
  (rev r, s').
End ArraySort.

(* ====================================================================== *)
(** ** [Array.prototype.sort] on any engine *)
(* ====================================================================== *)

(** The sort of the language: the engine orders the list "using an
    implementation-defined sequence of calls" to the comparator.  A plan is
    such a sequence for the lists of one length: it calls the comparator on
    the elements at two places of the list it was given and goes on
    according to the number returned, until it gives the order, as the list
    of the old places. *)
Inductive SortPlan : Type :=
| Finish (order : list nat)
| Ask (i j : nat) (next : Q -> SortPlan).

Section SortWith.
Context {A State : Type}.
Variable compareFn : A -> A -> State -> Q * State.

(** The list and the state that a plan leaves.  A plan for the lists of
    this length asks for places of the list only. *)
Fixpoint runPlan (l : list A) (plan : SortPlan) (s : State) : list A * State :=
  match plan with
  | Finish order => (omap (fun i => l !! i) order, s)
  | Ask i j next =>
      match l !! i, l !! j with
      | Some a, Some b =>
          let '(c, s') := compareFn a b s in runPlan l (next c) s'
      | _, _ => (l, s)
      end
  end.

(** The number of calls of the comparator in that run. *)
Fixpoint planCalls (l : list A) (plan : SortPlan) (s : State) : nat :=
  match plan with
  | Finish order => 0
  | Ask i j next =>
      match l !! i, l !! j with
      | Some a, Some b =>
          let '(c, s') := compareFn a b s in S (planCalls l (next c) s')
      | _, _ => 0%nat
      end
  end.

(** [l.sort(compareFn)] on an engine that has a plan for every length. *)
Definition sortWith (engine : nat -> SortPlan) (l : list A) (s : State) : list A * State :=
  runPlan l (engine (length l)) s.

Definition callsWith (engine : nat -> SortPlan) (l : list A) (s : State) : nat :=
  planCalls l (engine (length l)) s.
End SortWith.

(** *** The sort of V8 on a short array *)

(** Binary search of the place of [pivot] in the sorted run [pre]:
    [order = Compare(pivot, workArray[mid])], then [right = mid] when
    [order < 0] and [left = mid + 1] otherwise. *)
Fixpoint v8Search (fuel : nat) (pre : list nat) (pivot left right : nat)
    (k : nat -> SortPlan) : SortPlan :=
  match fuel with
  | O => k left
  | S fuel' =>
      if (left <? right)%nat then
        let mid := (left + (right - left) / 2)%nat in
        Ask pivot (nth mid pre 0%nat) (fun order =>
          if JS.Qltb order 0 then v8Search fuel' pre pivot left mid k
          else v8Search fuel' pre pivot (S mid) right k)
      else k left
  end.

(** [BinaryInsertionSort]: every element after the run is put at its place
    in the run. *)
Fixpoint v8BinaryInsertion (pre rest : list nat) {struct rest} : SortPlan :=
  match rest with
  | [] => Finish pre
  | pivot :: rest' =>
      v8Search (length pre) pre pivot 0 (length pre) (fun left =>
        v8BinaryInsertion (take left pre ++ pivot :: drop left pre) rest')
  end.

(** [CountAndMakeRun]: the run at the start of the array, held last element
    first, grows while [Compare(current, previous)] keeps the direction of
    the first two elements, strictly descending or not. *)
Fixpoint v8CountRun (isDescending : bool) (run rest : list nat)
    (k : list nat -> list nat -> SortPlan) : SortPlan :=
  match rest with
  | [] => k run []
  | current :: rest' =>
      Ask current (hd 0%nat run) (fun order =>
        if (if isDescending then negb (JS.Qltb order 0) else JS.Qltb order 0)
        then k run rest
        else v8CountRun isDescending (current :: run) rest' k)
  end.

(** The sort of V8 for an array of fewer than 64 elements: no call on
    fewer than two elements; else the run at the start, reversed when it
    descends, extended to the whole array by binary insertion.  (From 64
    elements on V8 merges several such runs, and this plan is not V8's.) *)
Definition v8Sort (n : nat) : SortPlan :=
  match n with
  | 0%nat | 1%nat => Finish (seq 0 n)
  | _ =>
      Ask 1 0 (fun order =>
        let isDescending := JS.Qltb order 0 in
        v8CountRun isDescending [1; 0]%nat (seq 2 (n - 2)) (fun run rest =>
          v8BinaryInsertion (if isDescending then run else rev run) rest))
  end.

(* ====================================================================== *)
(** ** The cells of the grid and the counters *)
(* ====================================================================== *)

(** [schedule[empId][d]].  The run reads the rows of the employees of the
    roster at days below [numDays] only; elsewhere, where JavaScript would
    throw or read [undefined], the model reads an empty cell. *)
Definition getCell (sch : Schedule) (empId : Id) (d : nat) : Cell :=
  match sch !! empId with
  | Some row => default None (row !! d)
  | None => None
  end.

(** [schedule[empId][d] = v].  Past the end of the row JavaScript extends
    the array and the model leaves it as it is; the run writes at days below
    [numDays], the length of every row, only (lemmas [rowsOk_stateAt],
    [rowsOk_dayStart]). *)
Definition setCell (sch : Schedule) (empId : Id) (d : nat) (v : Cell) : Schedule :=
  alter (fun row => <[d := v]> row) empId sch.

(** [shiftCounts[empId]] and [consecutiveDays[empId]]: the run fills both
    maps for every employee before it reads them. *)
Definition getCounts (cnt : gmap Id Counts) (empId : Id) : Counts :=
  default {| total := 0; night := 0 |} (cnt !! empId).

Definition getConsecutive (cons : gmap Id Z) (empId : Id) : Z :=
  default 0 (cons !! empId).

(** [cell && !['LEAVE', 'TAD'].includes(cell)] *)
Definition countsAsWorked (c : Cell) : bool :=
  match c with
  | None => false
  | Some s => negb (String.eqb s "") && negb (String.eqb s "LEAVE" || String.eqb s "TAD")
  end.

(** The local variables of [runScheduler] that the loops update, and
    [AppState.warnings]. *)
Record Run := {
  r_schedule : Schedule;
  r_shiftCounts : gmap Id Counts;
  r_consecutiveDays : gmap Id Z;
  r_seed : Z;
  r_warnings : list Warning
}.

(* ====================================================================== *)
(** ** [runScheduler] *)
(* ====================================================================== *)

(** Flatten employees with group info. *)
Definition allEmployees (st : AppState) : list Member :=
  concat (imap (fun gIndex group =>
    imap (fun eIndex emp =>
      {| m_emp := emp; groupIndex := gIndex; groupName := g_name group;
         empIndex := eIndex; id := (gIndex, eIndex) |}) (employees group))
    (groups st)).

Definition numDays (st : AppState) : nat := Z.to_nat (getDaysInPeriod st).

Definition days (st : AppState) : list nat := seq 0 (numDays st).

(** Initialize schedule: every cell [null]. *)
Definition initSchedule (st : AppState) : Schedule :=
  foldl (fun sch emp => <[id emp := replicate (numDays st) None]> sch) ∅ (allEmployees st).

(** One time-off entry of one employee. *)
Definition prefillEntry (st : AppState) (empId : Id) (sch : Schedule) (unavail : Unavailability) : Schedule :=
  if negb (JS.truthy (u_startDate unavail)) then sch
  else
    let startStr := default ""%string (u_startDate unavail) in
    let endStr :=
      if JS.truthy (u_endDate unavail) then default ""%string (u_endDate unavail)
      else startStr in
    foldl (fun sch d =>
      let dateStr := formatDateStr (getDateForDay st (Z.of_nat d)) in
      if JS.str_le startStr dateStr && JS.str_le dateStr endStr
      then setCell sch empId d (Some (absenceCode (u_type unavail)))
      else sch) sch (days st).

(** Pre-fill unavailability. *)
Definition prefillUnavailability (st : AppState) (sch : Schedule) : Schedule :=
  foldl (fun sch emp =>
    foldl (prefillEntry st (id emp)) sch (unavailability (m_emp emp)))
    sch (allEmployees st).

(** Each employee's offset in the rotation pattern. *)
Definition employeePatternOffsets (st : AppState) : gmap Id Z :=
  match rotationPattern st with
  | Some pattern =>
      let cycleLength := Z.of_nat (length pattern) in
      let all := allEmployees st in
      foldl (fun offs ie =>
        <[id (snd ie) := (Z.of_nat (fst ie) * cycleLength) / Z.of_nat (length all)]> offs)
        ∅ (imap pair all)
  | None => ∅
  end.

(** Is the employee on-cycle on day [dayIndex]?  With an empty pattern the
    position [% 0] is NaN and the flag read there [undefined]: nobody is
    on-cycle. *)
Definition shouldWorkOnDay (st : AppState) (empId : Id) (dayIndex : nat) : bool :=
  match rotationPattern st with
  | None => true
  | Some pattern =>
      let offset := default 0 (employeePatternOffsets st !! empId) in
      let cycleLength := Z.of_nat (length pattern) in
      if cycleLength =? 0 then false
      else
        let positionInCycle := (Z.of_nat dayIndex + offset) mod cycleLength in
        match pattern !! Z.to_nat positionInCycle with
        | Some flag => flag =? 1
        | None => false
        end
  end.

(** [shiftPriority[code] || 10] *)
Definition shiftPriority (c : string) : Z :=
  if String.eqb c "N" then 1
  else if String.eqb c "E" then 2
  else if String.eqb c "D" then 3
  else 10.

(** [s.type === 'working'] *)
Definition isWorking (s : Shift) : bool :=
  match type s with working => true | _ => false end.

(** Working shifts sorted by priority (N > E > D > others). *)
Definition workingShifts (st : AppState) : list Shift :=
  fst (Array_sort
    (fun a b (_ : unit) => (inject_Z (shiftPriority (code a) - shiftPriority (code b)), tt))
    (List.filter isWorking (shifts st))
    tt).

Definition isWeekend (st : AppState) (d : nat) : bool :=
  let date := getDateForDay st (Z.of_nat d) in
  (JSDate.getDay date =? 0) || (JSDate.getDay date =? 6).

(** The callback of [allEmployees.filter]: may [emp] take [shift] on day
    [d]? *)
Definition isAvailable (st : AppState) (run : Run) (d : nat) (shift : Shift) (emp : Member) : bool :=
  (* Already assigned this day *)
  if negb (bool_decide (getCell (r_schedule run) (id emp) d = None)) then false
  (* Check rotation pattern *)
  else if negb (shouldWorkOnDay st (id emp) d) then false
  (* Check rest constraint with previous day *)
  else if
    (0 <? d)%nat && JS.truthy (getCell (r_schedule run) (id emp) (d - 1)) &&
    match List.find (fun s => bool_decide (Some (code s) = getCell (r_schedule run) (id emp) (d - 1)))
                    (shifts st) with
    | Some prevShift =>
        isWorking prevShift && String.eqb (code prevShift) "N" && String.eqb (code shift) "D"
    | None => false
    end
  then false
  (* Check consecutive days *)
  else if maxConsecutiveDays (constraints st) <=? getConsecutive (r_consecutiveDays run) (id emp)
  then false
  else true.

Definition requiredCount (st : AppState) (d : nat) (shift : Shift) : Z :=
  let coverage :=
    match coverage shift with
    | Some c => c
    | None => getCoverageDefault (coveragePreset st) (code shift)
    end in
  match coveragePreset st with
  | preset_8x5 => if isWeekend st d then 0 else coverage
  | _ => coverage
  end.

(** [schedule[emp.id][d] = shift.code; total++; if N then night++]. *)
Definition assignShift (d : nat) (shift : Shift) (run : Run) (emp : Member) : Run :=
  let c := getCounts (r_shiftCounts run) (id emp) in
  {| r_schedule := setCell (r_schedule run) (id emp) d (Some (code shift));
     r_shiftCounts :=
       <[id emp := {| total := total c + 1;
                      night := if String.eqb (code shift) "N" then night c + 1 else night c |}]>
         (r_shiftCounts run);
     r_consecutiveDays := r_consecutiveDays run;
     r_seed := r_seed run;
     r_warnings := r_warnings run |}.

(** [for (i = 0; i < available.length && assigned < requiredCount; i++)] *)
Fixpoint assignLoop (d : nat) (shift : Shift) (required : Z)
    (available : list Member) (assigned : Z) (run : Run) : Run * Z :=
  match available with
  | [] => (run, assigned)
  | emp :: rest =>
      if assigned <? required
      then assignLoop d shift required rest (assigned + 1) (assignShift d shift run emp)
      else (run, assigned)
  end.

Definition pushWarning (w : Warning) (run : Run) : Run :=
  {| r_schedule := r_schedule run; r_shiftCounts := r_shiftCounts run;
     r_consecutiveDays := r_consecutiveDays run; r_seed := r_seed run;
     r_warnings := r_warnings run ++ [w] |}.

Definition withSeed (s : Z) (run : Run) : Run :=
  {| r_schedule := r_schedule run; r_shiftCounts := r_shiftCounts run;
     r_consecutiveDays := r_consecutiveDays run; r_seed := s;
     r_warnings := r_warnings run |}.

(** Update consecutive days after the shifts of day [d]. *)
Definition updateConsecutive (st : AppState) (d : nat) (run : Run) : Run :=
  {| r_schedule := r_schedule run; r_shiftCounts := r_shiftCounts run;
     r_consecutiveDays :=
       foldl (fun cons emp =>
         if countsAsWorked (getCell (r_schedule run) (id emp) d)
         then <[id emp := getConsecutive cons (id emp) + 1]> cons
         else <[id emp := 0]> cons) (r_consecutiveDays run) (allEmployees st);
     r_seed := r_seed run;
     r_warnings := r_warnings run |}.

Section Scheduler.

(** [Math.sin] on the values of the seed. *)
Variable Math_sin : Z -> Q.

(** Simple seeded random: the fractional part of [sin(seed) * 10000]. *)
Definition seededRandom (seed : Z) : Q :=
  let x := (Math_sin seed * inject_Z 10000)%Q in
  (x - inject_Z (Qfloor x))%Q.

(** The comparator of [available.sort]: two draws, one for each side. *)
Definition fairnessCompare (counts : gmap Id Counts) (shift : Shift)
    (a b : Member) (seed : Z) : Q * Z :=
  let scoreA := inject_Z (total (getCounts counts (id a))) in
  let scoreB := inject_Z (total (getCounts counts (id b))) in
  let scoreA :=
    if String.eqb (code shift) "N"
    then (scoreA + inject_Z (night (getCounts counts (id a)) * 2))%Q else scoreA in
  let scoreB :=
    if String.eqb (code shift) "N"
    then (scoreB + inject_Z (night (getCounts counts (id b)) * 2))%Q else scoreB in
  let scoreA := (scoreA + seededRandom seed * (1 # 2))%Q in
  let scoreB := (scoreB + seededRandom (seed + 1) * (1 # 2))%Q in
  ((scoreA - scoreB)%Q, seed + 2).

(** The body of [workingShifts.forEach] on day [d]. *)
Definition scheduleShift (st : AppState) (d : nat) (run : Run) (shift : Shift) : Run :=
  let required := requiredCount st d shift in
  let available := List.filter (isAvailable st run d shift) (allEmployees st) in
  let '(sorted, seed') :=
    Array_sort (fairnessCompare (r_shiftCounts run) shift) available (r_seed run) in
  let '(run', assigned) := assignLoop d shift required sorted 0 (withSeed seed' run) in
  if assigned <? required
  then pushWarning (Understaffed (Z.of_nat d + 1) (code shift) assigned required) run'
  else run'.

(** Schedule one day. *)
Definition scheduleDay (st : AppState) (run : Run) (d : nat) : Run :=
  updateConsecutive st d (foldl (scheduleShift st d) run (workingShifts st)).

Definition workingPass (st : AppState) (run : Run) : Run :=
  foldl (scheduleDay st) run (days st).

(** Backup shifts for those with low counts. *)
Definition backupStep (st : AppState) (backupShift : Shift) (d : nat) (run : Run) (emp : Member) : Run :=
  if bool_decide (getCell (r_schedule run) (id emp) d = None)
     && shouldWorkOnDay st (id emp) d
     && JS.Qltb (inject_Z (total (getCounts (r_shiftCounts run) (id emp))))
                (inject_Z (targetShiftsPerPerson (constraints st)) * (8 # 10))%Q
  then
    if JS.Qltb (seededRandom (r_seed run)) (3 # 10)
    then
      let c := getCounts (r_shiftCounts run) (id emp) in
      {| r_schedule := setCell (r_schedule run) (id emp) d (Some (code backupShift));
         r_shiftCounts :=
           <[id emp := {| total := total c + 1; night := night c |}]> (r_shiftCounts run);
         r_consecutiveDays := r_consecutiveDays run;
         r_seed := r_seed run + 1;
         r_warnings := r_warnings run |}
    else withSeed (r_seed run + 1) run
  else run.

Definition backupPass (st : AppState) (run : Run) : Run :=
  match List.find (fun s => match type s with backup => true | _ => false end) (shifts st) with
  | Some backupShift =>
      foldl (fun run d => foldl (backupStep st backupShift d) run (allEmployees st))
            run (days st)
  | None => run
  end.

(** Admin shifts. *)
Definition adminStep (st : AppState) (adminShift : Shift) (d : nat) (run : Run) (emp : Member) : Run :=
  if bool_decide (getCell (r_schedule run) (id emp) d = None)
     && shouldWorkOnDay st (id emp) d
  then
    if JS.Qltb (seededRandom (r_seed run)) (15 # 100)
    then
      {| r_schedule := setCell (r_schedule run) (id emp) d (Some (code adminShift));
         r_shiftCounts := r_shiftCounts run;
         r_consecutiveDays := r_consecutiveDays run;
         r_seed := r_seed run + 1;
         r_warnings := r_warnings run |}
    else withSeed (r_seed run + 1) run
  else run.

Definition adminPass (st : AppState) (run : Run) : Run :=
  match List.find (fun s => match type s with admin => true | _ => false end) (shifts st) with
  | Some adminShift =>
      foldl (fun run d => foldl (adminStep st adminShift d) run (allEmployees st))
            run (days st)
  | None => run
  end.

(** The scan of one row: [(consecutive, maxConsec)] after each day. *)
Definition scanRow (row : list Cell) : Z * Z :=
  foldl (fun acc c =>
    if countsAsWorked c
    then (fst acc + 1, Z.max (snd acc) (fst acc + 1))
    else (0, snd acc)) (0, 0) row.

Definition rowOf (st : AppState) (sch : Schedule) (empId : Id) : list Cell :=
  map (getCell sch empId) (days st).

(** Check for constraint violations. *)
Definition auditEmployee (st : AppState) (run : Run) (emp : Member) : Run :=
  let maxConsec := snd (scanRow (rowOf st (r_schedule run) (id emp))) in
  if maxConsecutiveDays (constraints st) <? maxConsec
  then pushWarning (TooManyConsecutive (name (m_emp emp)) maxConsec
                      (maxConsecutiveDays (constraints st))) run
  else run.

Definition auditPass (st : AppState) (run : Run) : Run :=
  foldl (auditEmployee st) run (allEmployees st).

(** The state of the locals when the day loop starts. *)
Definition initialRun (st : AppState) : Run :=
  {| r_schedule := prefillUnavailability st (initSchedule st);
     r_shiftCounts :=
       foldl (fun m emp => <[id emp := {| total := 0; night := 0 |}]> m) ∅ (allEmployees st);
     r_consecutiveDays := foldl (fun m emp => <[id emp := 0]> m) ∅ (allEmployees st);
     r_seed := randomSeed st;
     r_warnings := [] |}.

Definition finalRun (st : AppState) : Run :=
  auditPass st (adminPass st (backupPass st (workingPass st (initialRun st)))).

Definition runScheduler (st : AppState) : AppState :=
  match allEmployees st with
  | [] =>
      (* alert(...); return; only the warnings were reset *)
      {| calendarStyle := calendarStyle st; month := month st; year := year st;
         startDate := startDate st; duration := duration st;
         coveragePreset := coveragePreset st; rotationPattern := rotationPattern st;
         shifts := shifts st; groups := groups st; constraints := constraints st;
         schedule := schedule st; shiftCounts := shiftCounts st;
         warnings := []; randomSeed := randomSeed st |}
  | _ :: _ =>
      let run := finalRun st in
      {| calendarStyle := calendarStyle st; month := month st; year := year st;
         startDate := startDate st; duration := duration st;
         coveragePreset := coveragePreset st; rotationPattern := rotationPattern st;
         shifts := shifts st; groups := groups st; constraints := constraints st;
         schedule := Some (r_schedule run); shiftCounts := Some (r_shiftCounts run);
         warnings := r_warnings run; randomSeed := randomSeed st |}
  end.

End Scheduler.

(** The body of [workingShifts.forEach] on day [d], on an engine. *)
Definition scheduleShiftWith (engine : nat -> SortPlan) (Math_sin : Z -> Q) (st : AppState)
    (d : nat) (run : Run) (shift : Shift) : Run :=
  let required := requiredCount st d shift in
  let available := List.filter (isAvailable st run d shift) (allEmployees st) in
  let '(sorted, seed') :=
    sortWith (fairnessCompare Math_sin (r_shiftCounts run) shift) engine available (r_seed run) in
  let '(run', assigned) := assignLoop d shift required sorted 0 (withSeed seed' run) in
  if assigned <? required
  then pushWarning (Understaffed (Z.of_nat d + 1) (code shift) assigned required) run'
  else run'.

(* ====================================================================== *)
(** * The vocabulary of the properties *)
(* ====================================================================== *)

(** ** The words of the specification *)

#[global] Instance ShiftType_eq_dec : EqDecision ShiftType.
Proof. solve_decision. Defined.

#[global] Instance CoveragePreset_eq_dec : EqDecision CoveragePreset.
Proof. solve_decision. Defined.

(** The Gregorian leap-year rule. *)
Definition isLeapYear (y : Z) : bool :=
  (y mod 4 =? 0) && (negb (y mod 100 =? 0) || (y mod 400 =? 0)).

(** The number of calendar days of month [monthIndex] (0 is January) of
    year [y]: 29 for February in leap years and 28 otherwise. *)
Definition daysInMonth (y monthIndex : Z) : Z :=
  match monthIndex with
  | 1 => if isLeapYear y then 29 else 28
  | 3 | 5 | 8 | 10 => 30
  | _ => 31
  end.

(** The cell holds the code of a shift of category [t] of the catalogue. *)
Definition holdsCategory (catalogue : list Shift) (t : ShiftType) (c : Cell) : bool :=
  match c with
  | Some s => existsb (fun sh => bool_decide (type sh = t) && String.eqb (code sh) s) catalogue
  | None => false
  end.

(** A run of [row]: consecutive days whose cells all satisfy [P]. *)
Definition isRunOf (P : Cell -> bool) (row seg : list Cell) : Prop :=
  (exists before after, row = before ++ seg ++ after) /\ Forall (fun c => P c = true) seg.

(** [n] is the length of the longest run of [row]. *)
Definition longestRun (P : Cell -> bool) (row : list Cell) (n : Z) : Prop :=
  (exists seg, isRunOf P row seg /\ Z.of_nat (length seg) = n) /\
  (forall seg, isRunOf P row seg -> Z.of_nat (length seg) <= n).

(** A run that ends with the last day of [row]. *)
Definition isTrailingRunOf (P : Cell -> bool) (row seg : list Cell) : Prop :=
  (exists before, row = before ++ seg) /\ Forall (fun c => P c = true) seg.

Definition trailingRun (P : Cell -> bool) (row : list Cell) (n : Z) : Prop :=
  (exists seg, isTrailingRunOf P row seg /\ Z.of_nat (length seg) = n) /\
  (forall seg, isTrailingRunOf P row seg -> Z.of_nat (length seg) <= n).

(** The cells of the days before day [d]. *)
Definition rowBefore (sch : Schedule) (empId : Id) (d : nat) : list Cell :=
  map (getCell sch empId) (seq 0 d).

(** The rest rule as C3 words it: the cell of day [d - 1] holds the
    working shift coded N and the shift is the one coded D. *)
Definition restBlocked (st : AppState) (grid : Schedule) (empId : Id) (d : nat)
    (shift : Shift) : Prop :=
  (0 < d)%nat /\
  getCell grid empId (d - 1) = Some "N"%string /\
  holdsCategory (shifts st) working (Some "N"%string) = true /\
  code shift = "D"%string.

(** The number of days of a row whose cell satisfies [P]. *)
Definition countCells (P : Cell -> bool) (row : list Cell) : Z :=
  Z.of_nat (length (List.filter P row)).

(** The cell holds a working-category or backup-category shift code. *)
Definition countsTowardTotal (st : AppState) (c : Cell) : bool :=
  holdsCategory (shifts st) working c || holdsCategory (shifts st) backup c.

(** The cell holds the working shift code N. *)
Definition countsTowardNight (st : AppState) (c : Cell) : bool :=
  bool_decide (c = Some "N"%string) && holdsCategory (shifts st) working c.

Definition codesUnique (st : AppState) : Prop := NoDup (code <$> shifts st).

Definition codesNotReserved (st : AppState) : Prop :=
  Forall (fun s => code s <> "LEAVE"%string /\ code s <> "TAD"%string) (shifts st).

(** The invariants of the catalogue: codes are unique, not empty, and none
    is a reserved absence code. *)
Definition catalogueOk (st : AppState) : Prop :=
  NoDup (code <$> shifts st) /\
  Forall (fun s => code s <> ""%string /\ code s <> "LEAVE"%string /\ code s <> "TAD"%string)
         (shifts st).

(** The two states hold the same inputs of the scheduler: period, shift
    catalogue, coverage preset, rotation pattern, groups, constraints and
    seed.  The results of an earlier run that they hold may differ. *)
Definition sameInputs (st1 st2 : AppState) : Prop :=
  calendarStyle st1 = calendarStyle st2 /\
  month st1 = month st2 /\
  year st1 = year st2 /\
  startDate st1 = startDate st2 /\
  duration st1 = duration st2 /\
  coveragePreset st1 = coveragePreset st2 /\
  rotationPattern st1 = rotationPattern st2 /\
  shifts st1 = shifts st2 /\
  groups st1 = groups st2 /\
  constraints st1 = constraints st2 /\
  randomSeed st1 = randomSeed st2.

(** The integer part of the fairness score. *)
Definition baseScore (counts : gmap Id Counts) (shift : Shift) (emp : Member) : Z :=
  total (getCounts counts (id emp)) +
  (if String.eqb (code shift) "N" then night (getCounts counts (id emp)) * 2 else 0).

(** The scoring as C4 words it: every candidate gets one score, computed
    once from two successive draws, and the candidates are sorted by it. *)
Fixpoint scoreOnce (Math_sin : Z -> Q) (counts : gmap Id Counts) (shift : Shift)
    (candidates : list Member) (seed : Z) : list (Member * Q) * Z :=
  match candidates with
  | [] => ([], seed)
  | emp :: rest =>
      let score :=
        (inject_Z (baseScore counts shift emp)
         + seededRandom Math_sin seed * (1 # 2)
         + seededRandom Math_sin (seed + 1) * (1 # 2))%Q in
      let '(scored, seed') := scoreOnce Math_sin counts shift rest (seed + 2) in
      ((emp, score) :: scored, seed')
  end.

Definition sortByScoreOnce (Math_sin : Z -> Q) (counts : gmap Id Counts) (shift : Shift)
    (candidates : list Member) (seed : Z) : list Member * Z :=
  let '(scored, seed') := scoreOnce Math_sin counts shift candidates seed in
  (map fst (fst (Array_sort (fun a b (_ : unit) => ((snd a - snd b)%Q, tt)) scored tt)), seed').


(** ** The states inside a run *)

(** The candidates of a shift, in the order in which the sort leaves them,
    and the seed after the sort. *)
Definition sortedCandidates (Math_sin : Z -> Q) (st : AppState)
    (d : nat) (run : Run) (shift : Shift) : list Member * Z :=
  Array_sort (fairnessCompare Math_sin (r_shiftCounts run) shift)
    (List.filter (isAvailable st run d shift) (allEmployees st)) (r_seed run).

(** The employees who receive the shift. *)
Definition chosen (Math_sin : Z -> Q) (st : AppState)
    (d : nat) (run : Run) (shift : Shift) : list Member :=
  take (Z.to_nat (requiredCount st d shift)) (fst (sortedCandidates Math_sin st d run shift)).

(** The candidates of a shift as the sort of an engine leaves them, the
    seed after the sort, and the calls of the comparator. *)
Definition sortedCandidatesWith (engine : nat -> SortPlan) (Math_sin : Z -> Q) (st : AppState)
    (d : nat) (run : Run) (shift : Shift) : list Member * Z :=
  sortWith (fairnessCompare Math_sin (r_shiftCounts run) shift) engine
    (List.filter (isAvailable st run d shift) (allEmployees st)) (r_seed run).

Definition comparisonsWith (engine : nat -> SortPlan) (Math_sin : Z -> Q) (st : AppState)
    (d : nat) (run : Run) (shift : Shift) : nat :=
  callsWith (fairnessCompare Math_sin (r_shiftCounts run) shift) engine
    (List.filter (isAvailable st run d shift) (allEmployees st)) (r_seed run).

(** A plan for the lists of [n] elements orders by [key]: it asks for
    places below [n] and, when every call on two places with different keys
    is answered by the keys (a negative number when the first has the
    smaller key, a positive one when it has the larger key; on equal keys any
    number, which may change from call to call), the order that it gives
    holds every place once, in ascending order of the keys. *)
Fixpoint planSorts (n : nat) (key : nat -> Z) (plan : SortPlan) : Prop :=
  match plan with
  | Finish order =>
      order ≡ₚ seq 0 n /\ StronglySorted (fun i j => key i <= key j) order
  | Ask i j next =>
      (i < n)%nat /\ (j < n)%nat /\
      forall c : Q,
        (key i < key j -> (c < 0)%Q) ->
        (key j < key i -> (0 < c)%Q) ->
        planSorts n key (next c)
  end.

(** An engine sorts: no call on fewer than two elements, and a plan that
    orders by any key for every length. *)
Definition engineSorts (engine : nat -> SortPlan) : Prop :=
  (forall n, (n < 2)%nat -> exists order, engine n = Finish order) /\
  (forall n key, planSorts n key (engine n)).

(** The run of [CountAndMakeRun], held last element first, is in order:
    ascending as it is held when the array descends, descending when it does
    not. *)
Definition runSorted (key : nat -> Z) (isDescending : bool) (run : list nat) : Prop :=
  if isDescending then StronglySorted (fun i j => key i <= key j) run
  else StronglySorted (fun i j => key j <= key i) run.

(** The warning of a shift that received [assigned] employees. *)
Definition shortfall (st : AppState) (d : nat) (shift : Shift) (assigned : Z) : list Warning :=
  if assigned <? requiredCount st d shift
  then [Understaffed (Z.of_nat d + 1) (code shift) assigned (requiredCount st d shift)]
  else [].

(** The state when day [d] starts. *)
Definition dayStart (Math_sin : Z -> Q) (st : AppState) (d : nat) : Run :=
  foldl (scheduleDay Math_sin st) (initialRun st) (seq 0 d).

(** The state on day [d] when the first [k] working shifts are done. *)
Definition stateAt (Math_sin : Z -> Q) (st : AppState) (d k : nat) : Run :=
  foldl (scheduleShift Math_sin st d) (dayStart Math_sin st d) (take k (workingShifts st)).

(** The employees whose cell of day [d] was empty in [before] and holds the
    code of [shift] in [after]. *)
Definition newlyAssigned (st : AppState) (d : nat) (shift : Shift)
    (before after : Schedule) : list Member :=
  List.filter (fun emp =>
    bool_decide (getCell before (id emp) d = None) &&
    bool_decide (getCell after (id emp) d = Some (code shift))) (allEmployees st).

Definition scanWith (P : Cell -> bool) (row : list Cell) : Z * Z :=
  foldl (fun acc c =>
    if P c then (fst acc + 1, Z.max (snd acc) (fst acc + 1)) else (0, snd acc)) (0, 0) row.

(** What the audit pushes for one employee. *)
Definition auditWarning (st : AppState) (sch : Schedule) (emp : Member) : list Warning :=
  let maxConsec := snd (scanRow (rowOf st sch (id emp))) in
  if maxConsecutiveDays (constraints st) <? maxConsec
  then [TooManyConsecutive (name (m_emp emp)) maxConsec (maxConsecutiveDays (constraints st))]
  else [].


(** ** Invariants of the run *)

(** Cells that hold a value keep it. *)
Definition keepsCells (s1 s2 : Schedule) : Prop :=
  forall i d c, getCell s1 i d = Some c -> getCell s2 i d = Some c.

Definition runKeeps (r1 r2 : Run) : Prop :=
  keepsCells (r_schedule r1) (r_schedule r2).

(** Every employee has a row with a cell for each day of the period. *)
Definition rowsOk (st : AppState) (sch : Schedule) : Prop :=
  forall emp, emp ∈ allEmployees st ->
    exists row, sch !! id emp = Some row /\ length row = numDays st.

Definition warningsGrow (r1 r2 : Run) : Prop := r_warnings r1 `prefix_of` r_warnings r2.

Definition isShortfall (w : Warning) : Prop :=
  match w with Understaffed _ _ _ _ => True | TooManyConsecutive _ _ _ => False end.

(** What a cell can hold while the day loop runs. *)
Definition workingPassCell (st : AppState) (c : Cell) : Prop :=
  c = None \/ (exists k, c = Some (absenceCode k)) \/
  holdsCategory (shifts st) working c = true.

(** The counter of every employee is the length of the run of worked days
    that ends with day [d - 1]. *)
Definition counterTracksRun (st : AppState) (d : nat) (run : Run) : Prop :=
  forall emp, emp ∈ allEmployees st ->
    getConsecutive (r_consecutiveDays run) (id emp) =
      fst (scanWith countsAsWorked (rowBefore (r_schedule run) (id emp) d)).

(** The counters of every employee agree with the row of the employee. *)
Definition countersMatch (st : AppState) (sch : Schedule) (counts : gmap Id Counts) : Prop :=
  forall emp, emp ∈ allEmployees st ->
    total (getCounts counts (id emp)) = countCells (countsTowardTotal st) (rowOf st sch (id emp)) /\
    night (getCounts counts (id emp)) = countCells (countsTowardNight st) (rowOf st sch (id emp)).

Definition gridAndCounters (st : AppState) (run : Run) : Prop :=
  rowsOk st (r_schedule run) /\ countersMatch st (r_schedule run) (r_shiftCounts run).


(** ** Worked inputs *)

(** A stand-in for [Math.sin] in the worked runs.  It agrees with
    [Math.sin] at 0.  The worked runs draw no number, or draw at seed 0
    only, or are shown not to depend on the sine (lemmas [..._any_sin]). *)
Definition sinZero (x : Z) : Q := 0%Q.

Definition dayShift : Shift := {| code := "D"; type := working; coverage := Some 1 |}.
Definition adminShift : Shift := {| code := "A"; type := admin; coverage := None |}.

Definition exampleState (numberOfDays maxConsec : Z) (catalogue : list Shift)
    (team : list Employee) : AppState :=
  {| calendarStyle := daterange; month := 4; year := 2025;
     startDate := (2025, 5, 1); duration := numberOfDays;
     coveragePreset := preset_24_7; rotationPattern := None;
     shifts := catalogue;
     groups := [{| g_name := "Team"; employees := team |}];
     constraints := {| minRestHours := 8; maxHoursWeek := 60;
                       maxConsecutiveDays := maxConsec; targetShiftsPerPerson := 10 |};
     schedule := None; shiftCounts := None; warnings := []; randomSeed := 0 |}.

Definition free (n : string) : Employee := {| name := n; unavailability := [] |}.

Definition onLeave : Employee :=
  {| name := "Avery";
     unavailability := [{| u_type := LEAVE; u_startDate := Some "2025-05-01"%string;
                           u_endDate := Some "2025-05-02"%string |}] |}.

(** The element of [allEmployees] for employee [e] of group [g] of the
    worked inputs. *)
Definition memberOf (g e : nat) (emp : Employee) : Member :=
  {| m_emp := emp; groupIndex := g; groupName := "Team"; empIndex := e; id := (g, e) |}.

(** Scenario A of the specification: one employee, three days. *)
Definition scenarioA : AppState := exampleState 3 6 [dayShift] [free "Avery"].

(** Scenario B of the specification: two employees, one on leave for both
    days. *)
Definition scenarioB : AppState := exampleState 2 6 [dayShift] [onLeave; free "Blake"].

(** Scenario B again, in a state that still holds the results of an earlier
    run. *)
Definition scenarioBAgain : AppState :=
  {| calendarStyle := calendarStyle scenarioB; month := month scenarioB;
     year := year scenarioB; startDate := startDate scenarioB;
     duration := duration scenarioB; coveragePreset := coveragePreset scenarioB;
     rotationPattern := rotationPattern scenarioB; shifts := shifts scenarioB;
     groups := groups scenarioB; constraints := constraints scenarioB;
     schedule := Some ∅; shiftCounts := Some ∅;
     warnings := [Understaffed 1 "D" 0 1]; randomSeed := randomSeed scenarioB |}.

(** Scenario C of the specification: the pattern 4 on, 4 off with two
    employees. *)
Definition scenarioC : AppState :=
  {| calendarStyle := daterange; month := 4; year := 2025;
     startDate := (2025, 5, 1); duration := 8;
     coveragePreset := preset_24_7;
     rotationPattern := Some [1; 1; 1; 1; 0; 0; 0; 0];
     shifts := [dayShift];
     groups := [{| g_name := "Team"; employees := [free "Avery"; free "Blake"] |}];
     constraints := {| minRestHours := 8; maxHoursWeek := 60;
                       maxConsecutiveDays := 6; targetShiftsPerPerson := 10 |};
     schedule := None; shiftCounts := None; warnings := []; randomSeed := 0 |}.

(** Scenario D of the specification: one employee, at most two days in a
    row, four days. *)
Definition scenarioD : AppState := exampleState 4 2 [dayShift] [free "Avery"].

(** Two free employees. *)
Definition twoFree : AppState := exampleState 3 6 [dayShift] [free "Avery"; free "Blake"].

(** One employee, one working and one admin shift, at most one day in a
    row, two days, seed 0. *)
Definition adminFillState : AppState :=
  exampleState 2 1 [dayShift; adminShift] [free "Avery"].

(** An entry as [addUnavailability] and [updateUnavailStart] leave it: a
    start date and an empty end date. *)
Definition openEnded : Unavailability :=
  {| u_type := LEAVE; u_startDate := Some "2025-05-01"%string; u_endDate := Some ""%string |}.

(** An entry as [addUnavailability] creates it: both dates empty. *)
Definition blankEntry : Unavailability :=
  {| u_type := LEAVE; u_startDate := Some ""%string; u_endDate := Some ""%string |}.

Definition openEndedState : AppState :=
  exampleState 2 6 [dayShift]
    [{| name := "Avery"; unavailability := [openEnded] |}; free "Blake"].

(** Month mode, February of the year 0. *)
Definition februaryOfYear0 : AppState :=
  {| calendarStyle := monthly; month := 1; year := 0;
     startDate := (2025, 5, 1); duration := 14;
     coveragePreset := preset_24_7; rotationPattern := None;
     shifts := [dayShift]; groups := [{| g_name := "Team"; employees := [free "Blake"] |}];
     constraints := {| minRestHours := 8; maxHoursWeek := 60;
                       maxConsecutiveDays := 6; targetShiftsPerPerson := 10 |};
     schedule := None; shiftCounts := None; warnings := []; randomSeed := 0 |}.

(* ====================================================================== *)
(** * Further parts of the program *)
(* ====================================================================== *)

(* ====================================================================== *)
(** ** Date strings *)
(* ====================================================================== *)

Module JSText.

(** [s.split(sep)] for a separator of one character. *)
Fixpoint split (sep : ascii) (s : string) : list string :=
  match s with
  | EmptyString => [EmptyString]
  | String c rest =>
      if Ascii.eqb c sep then EmptyString :: split sep rest
      else
        match split sep rest with
        | part :: parts => String c part :: parts
        | [] => [String c EmptyString]
        end
  end.

(** [Number(s)] for a string of decimal digits, the empty string included
    (which is 0).  On every other string the model has [None]: on most of
    them JavaScript has NaN; the strings with a sign, a decimal point, an
    exponent, a radix prefix or white space around the digits, which
    JavaScript reads as numbers, are not represented. *)
Definition Number (s : string) : option Z :=
  Z.of_uint <$> NilEmpty.uint_of_string s.

End JSText.

(** [parseLocalDate]: [None] is [null], on the empty string, and the
    invalid date on a string with fewer than three parts or with a part that
    [JSText.Number] does not read. *)
Definition parseLocalDate (dateStr : string) : option Z :=
  if negb (JS.truthy (Some dateStr)) then None
  else
    match JSText.Number <$> JSText.split "-" dateStr with
    | Some year :: Some month :: Some day :: _ => Some (JSDate.make year (month - 1) day)
    | _ => None
    end.

(* ====================================================================== *)
(** ** Editing the roster and the time off *)
(* ====================================================================== *)

(** What a handler leaves behind: it returns, or it throws a [TypeError]
    on a group, employee or entry that does not exist, after the changes it
    made before; [NotRepresented] is the one state that the data model cannot
    hold, a time-off list with an [undefined] element. *)
Inductive Outcome :=
| Returns (st : AppState)
| Throws (st : AppState)
| NotRepresented.

(** The state with [AppState.groups] replaced. *)
Definition withGroups (st : AppState) (gs : list Group) : AppState :=
  {| calendarStyle := calendarStyle st; month := month st; year := year st;
     startDate := startDate st; duration := duration st;
     coveragePreset := coveragePreset st; rotationPattern := rotationPattern st;
     shifts := shifts st; groups := gs; constraints := constraints st;
     schedule := schedule st; shiftCounts := shiftCounts st;
     warnings := warnings st; randomSeed := randomSeed st |}.

(** [AppState.groups[gIndex].employees[eIndex] = emp] *)
Definition setEmployee (st : AppState) (gIndex eIndex : nat) (emp : Employee) : AppState :=
  withGroups st
    (alter (fun g => {| g_name := g_name g; employees := <[eIndex := emp]> (employees g) |})
           gIndex (groups st)).

(** [AppState.groups[gIndex].employees[eIndex]] *)
Definition getEmployee (st : AppState) (gIndex eIndex : nat) : option Employee :=
  groups st !! gIndex ≫= fun g => employees g !! eIndex.

(** The employee with [emp.unavailability] replaced. *)
Definition withUnavailability (emp : Employee) (entries : list Unavailability) : Employee :=
  {| name := name emp; unavailability := entries |}.

Definition MAX_EMPLOYEES : Z := 20.

(** [AppState.groups.reduce((sum, g) => sum + g.employees.length, 0)] *)
Definition getTotalEmployeeCount (st : AppState) : Z :=
  foldl (fun sum g => sum + Z.of_nat (length (employees g))) 0 (groups st).

(** [addEmployee(gIndex)]: at the limit the handler alerts and returns; on a
    group that does not exist [AppState.groups[gIndex].employees] throws. *)
Definition addEmployee (st : AppState) (gIndex : nat) : Outcome :=
  if MAX_EMPLOYEES <=? getTotalEmployeeCount st then Returns st
  else
    match groups st !! gIndex with
    | None => Throws st
    | Some g =>
        Returns (withGroups st
          (<[gIndex := {| g_name := g_name g;
                          employees := employees g ++
                            [{| name := "Employee " +:+
                                        JS.str_of_Z (Z.of_nat (length (employees g)) + 1);
                                unavailability := [] |}] |}]> (groups st)))
    end.

(** [addUnavailabilityEntry()]: without an employee the handler alerts and
    returns; else the first employee of the first group that has one receives
    an entry of type LEAVE on the first day of the month of the state. *)
Definition addUnavailabilityEntry (st : AppState) : AppState :=
  match list_find (fun g => employees g <> []) (groups st) with
  | None => st
  | Some (gIndex, g) =>
      match employees g !! 0%nat with
      | None => st
      | Some emp =>
          let startDate :=
            (JS.str_of_Z (year st) +:+ "-" +:+ JS.padStart2 (JS.str_of_Z (month st + 1)) +:+ "-01")%string in
          setEmployee st gIndex 0
            (withUnavailability emp
               (unavailability emp ++
                  [{| u_type := LEAVE; u_startDate := Some startDate; u_endDate := Some startDate |}]))
      end
  end.

(** [updateUnavailEmployee(oldGIndex, oldEIndex, uIndex, newValue)], with
    [newValue] read as the two indices [newGIndex] and [newEIndex]: the entry
    is spliced out of the list of the old employee and pushed onto the list
    of the new one, which is looked up after the removal. *)
Definition updateUnavailEmployee (st : AppState) (oldGIndex oldEIndex uIndex newGIndex newEIndex : nat)
    : Outcome :=
  match getEmployee st oldGIndex oldEIndex with
  | None => Throws st
  | Some oldEmp =>
      match unavailability oldEmp !! uIndex with
      | None => NotRepresented
      | Some entry =>
          let st1 := setEmployee st oldGIndex oldEIndex
                       (withUnavailability oldEmp (delete uIndex (unavailability oldEmp))) in
          match getEmployee st1 newGIndex newEIndex with
          | None => Throws st1
          | Some newEmp =>
              Returns (setEmployee st1 newGIndex newEIndex
                         (withUnavailability newEmp (unavailability newEmp ++ [entry])))
          end
      end
  end.

(** The change of the entry [unavailability[uIndex]] of an employee in
    place; reading a field of a group, employee or entry that does not exist
    throws. *)
Definition updateEntry (st : AppState) (gIndex eIndex uIndex : nat)
    (f : Unavailability -> Unavailability) : Outcome :=
  match getEmployee st gIndex eIndex with
  | None => Throws st
  | Some emp =>
      match unavailability emp !! uIndex with
      | None => Throws st
      | Some unavail =>
          Returns (setEmployee st gIndex eIndex
                     (withUnavailability emp (<[uIndex := f unavail]> (unavailability emp))))
      end
  end.

(** If end date is empty or before start, set it to start. *)
Definition updateUnavailStartSection (st : AppState) (gIndex eIndex uIndex : nat) (value : string)
    : Outcome :=
  updateEntry st gIndex eIndex uIndex (fun unavail =>
    {| u_type := u_type unavail;
       u_startDate := Some value;
       u_endDate :=
         if negb (JS.truthy (u_endDate unavail)) || String.ltb (default ""%string (u_endDate unavail)) value
         then Some value else u_endDate unavail |}).

(** If start date is empty or after end, set it to end. *)
Definition updateUnavailEndSection (st : AppState) (gIndex eIndex uIndex : nat) (value : string)
    : Outcome :=
  updateEntry st gIndex eIndex uIndex (fun unavail =>
    {| u_type := u_type unavail;
       u_startDate :=
         if negb (JS.truthy (u_startDate unavail)) || String.ltb value (default ""%string (u_startDate unavail))
         then Some value else u_startDate unavail;
       u_endDate := Some value |}).

(* ====================================================================== *)
(** ** The counts of a row and the CSV export *)
(* ====================================================================== *)

(** The line feed that ends a row. *)
Definition LF : string := String "010"%char EmptyString.

(** [DAY_NAMES[day]], for a day of the week from 0 to 6. *)
Definition DAY_NAMES (day : Z) : string :=
  match day with
  | 0 => "SU" | 1 => "M" | 2 => "T" | 3 => "W" | 4 => "TH" | 5 => "F" | _ => "S"
  end.

(** [l.forEach(x => csv += f(x))] *)
Definition appendEach {A} (f : A -> string) (l : list A) : string :=
  foldr (fun x rest => f x +:+ rest) EmptyString l.

(** [AppState.shifts.find(s => s.type === 'backup')] *)
Definition findBackupShift (st : AppState) : option Shift :=
  List.find (fun s => match type s with backup => true | _ => false end) (shifts st).

(** [counts = {}], then a zero for the code of every working shift and of
    the backup shift.  The object is a finite map from codes; a shift coded
    [__proto__], which JavaScript does not store as a key, is not
    represented. *)
Definition initCounts (st : AppState) : gmap string Z :=
  let counts := foldl (fun counts s => <[code s := 0]> counts) ∅ (List.filter isWorking (shifts st)) in
  match findBackupShift st with
  | Some b => <[code b := 0]> counts
  | None => counts
  end.

(** [empSchedule[d] || ''] *)
Definition cellText (cell : Cell) : string :=
  if JS.truthy cell then default EmptyString cell else EmptyString.

(** The counting of one cell in [exportCSV]. *)
Definition csvCountCell (st : AppState) (acc : gmap string Z * Z) (cell : Cell) : gmap string Z * Z :=
  let cellCode := cellText cell in
  let counts :=
    match fst acc !! cellCode with
    | Some n => <[cellCode := n + 1]> (fst acc)
    | None => fst acc
    end in
  let total :=
    match List.find (fun s => String.eqb (code s) cellCode) (shifts st) with
    | Some shift => if isWorking shift then snd acc + 1 else snd acc
    | None => snd acc
    end in
  (counts, total).

(** The counts and the total of a row in [exportCSV]. *)
Definition csvCounts (st : AppState) (row : list Cell) : gmap string Z * Z :=
  foldl (csvCountCell st) (initCounts st, 0) row.

(** [counts[c] || 0] *)
Definition csvCount (counts : gmap string Z) (c : string) : Z := default 0 (counts !! c).

(** Header row 1: the day numbers, the codes of the working shifts, the
    total and the code of the backup shift. *)
Definition csvHeader (st : AppState) : string :=
  "STAFF," +:+
  appendEach (fun d =>
    let date := getDateForDay st (Z.of_nat d) in
    let dayNum := match calendarStyle st with
                  | monthly => Z.of_nat d + 1
                  | daterange => JSDate.getDate date
                  end in
    JS.str_of_Z dayNum +:+ ",") (days st) +:+
  appendEach (fun s => code s +:+ ",") (List.filter isWorking (shifts st)) +:+
  "Total" +:+
  match findBackupShift st with Some b => "," +:+ code b | None => EmptyString end +:+
  LF.

(** Header row 2: the day names. *)
Definition csvDayNames (st : AppState) : string :=
  "," +:+
  appendEach (fun d => DAY_NAMES (JSDate.getDay (getDateForDay st (Z.of_nat d))) +:+ ",") (days st) +:+
  LF.

(** The row of one employee. *)
Definition csvEmployeeRow (st : AppState) (sch : Schedule) (gIndex eIndex : nat) (emp : Employee)
    : string :=
  let row := map (getCell sch (gIndex, eIndex)) (days st) in
  let '(counts, total) := csvCounts st row in
  name emp +:+ "," +:+
  appendEach (fun cell => cellText cell +:+ ",") row +:+
  appendEach (fun s => JS.str_of_Z (csvCount counts (code s)) +:+ ",")
             (List.filter isWorking (shifts st)) +:+
  JS.str_of_Z total +:+
  match findBackupShift st with
  | Some b => "," +:+ JS.str_of_Z (csvCount counts (code b))
  | None => EmptyString
  end +:+
  LF.

(** The text that [exportCSV] builds; [None] when there is no schedule and
    the function returns at once.  The download of the text, under a file
    name made from the department name, is not represented. *)
Definition exportCSV (st : AppState) : option string :=
  match schedule st with
  | None => None
  | Some sch =>
      Some (csvHeader st +:+ csvDayNames st +:+
            appendEach (fun '(gIndex, group) =>
              g_name group +:+ LF +:+
              appendEach (fun '(eIndex, emp) => csvEmployeeRow st sch gIndex eIndex emp)
                         (imap pair (employees group)))
              (imap pair (groups st)))
  end.

(** The counting of one cell in [renderSchedule]; the markup that the
    function builds around the counts is not represented. *)
Definition renderCountCell (st : AppState) (acc : gmap string Z * Z) (cell : Cell) : gmap string Z * Z :=
  if JS.truthy cell then
    let shiftCode := default EmptyString cell in
    if String.eqb shiftCode "LEAVE" then acc
    else if String.eqb shiftCode "TAD" then acc
    else
      let counts :=
        match fst acc !! shiftCode with
        | Some n => <[shiftCode := n + 1]> (fst acc)
        | None => fst acc
        end in
      let total :=
        match List.find (fun s => String.eqb (code s) shiftCode) (shifts st) with
        | Some shift => if isWorking shift then snd acc + 1 else snd acc
        | None => snd acc
        end in
      (counts, total)
  else acc.

(** The per-shift counts and the total that [renderSchedule] prints at
    the end of the row of an employee. *)
Definition renderCounts (st : AppState) (row : list Cell) : gmap string Z * Z :=
  foldl (renderCountCell st) (initCounts st, 0) row.

(* ====================================================================== *)
(** ** The coverage footer *)
(* ====================================================================== *)

(** The numbers and the class of the cell of day [d] in the row of [shift]
    of [renderCoverageFooter]; the markup around them is not represented. *)

(** [required]: the coverage of the shift, and 0 for a working shift on a
    weekend day of the 8x5 preset. *)
Definition footerRequired (st : AppState) (d : nat) (shift : Shift) : Z :=
  let coverage :=
    match coverage shift with
    | Some c => c
    | None => getCoverageDefault (coveragePreset st) (code shift)
    end in
  if bool_decide (coveragePreset st = preset_8x5) && isWeekend st d && isWorking shift
  then 0 else coverage.

(** [assigned]: the rows of the stored grid that hold the code at day [d]. *)
Definition footerAssigned (sch : Schedule) (d : nat) (shift : Shift) : Z :=
  Z.of_nat (length (List.filter (fun entry => bool_decide (default None (snd entry !! d) = Some (code shift)))
                                (map_to_list sch))).

(** [cellClass] *)
Definition footerCellClass (st : AppState) (sch : Schedule) (d : nat) (shift : Shift) : string :=
  let required := footerRequired st d shift in
  let assigned := footerAssigned sch d shift in
  let cellClass := "coverage-required"%string in
  if 0 <? required then
    if assigned <? required then cellClass +:+ " coverage-under"
    else if required <? assigned then cellClass +:+ " coverage-over"
    else cellClass +:+ " coverage-met"
  else cellClass.

(* ====================================================================== *)
(** * Further vocabulary of the properties *)
(* ====================================================================== *)

(** *** Dates *)

(** The year that [new Date(year, ...)] takes for [year]: a year from 0 to
    99 counts from 1900. *)
Definition yearOfDate (year : Z) : Z :=
  if (0 <=? year) && (year <=? 99) then 1900 + year else year.

(** The decimal digit [k] as a character. *)
Definition digitChar (k : Z) : ascii := ascii_of_nat (48 + Z.to_nat k).

(** The two digits of a number below 100. *)
Definition digits2 (n : Z) : string :=
  String (digitChar (n / 10)) (String (digitChar (n mod 10)) "").

(** The four digits of a number below 10000. *)
Definition digits4 (n : Z) : string :=
  String (digitChar (n / 1000)) (String (digitChar (n / 100 mod 10)) (digits2 (n mod 100))).

(** The date as the number YYYYMMDD. *)
Definition dateNumber (t : Z) : Z :=
  JSDate.getFullYear t * 10000 + (JSDate.getMonth t + 1) * 100 + JSDate.getDate t.

(** *** Time off *)

(** The test of the pre-fill: does the window of the entry hold day [d]? *)
Definition coversDay (st : AppState) (unavail : Unavailability) (d : nat) : bool :=
  JS.truthy (u_startDate unavail) &&
  (let startStr := default ""%string (u_startDate unavail) in
   let endStr :=
     if JS.truthy (u_endDate unavail) then default ""%string (u_endDate unavail)
     else startStr in
   let dateStr := formatDateStr (getDateForDay st (Z.of_nat d)) in
   JS.str_le startStr dateStr && JS.str_le dateStr endStr).

(** The last entry of the list whose window holds day [d]. *)
Definition lastCovering (st : AppState) (entries : list Unavailability) (d : nat) : option Unavailability :=
  last (List.filter (fun unavail => coversDay st unavail d) entries).

(** The window of an entry is in order: both dates are present and the
    start is not after the end. *)
Definition orderedWindow (unavail : Unavailability) : Prop :=
  exists s e, u_startDate unavail = Some s /\ u_endDate unavail = Some e /\ JS.str_le s e = true.

(** [AppState.groups[gIndex].employees[eIndex].unavailability[uIndex]] *)
Definition entryAt (st : AppState) (gIndex eIndex uIndex : nat) : option Unavailability :=
  getEmployee st gIndex eIndex ≫= fun emp => unavailability emp !! uIndex.

(** All time-off entries, in the order of the roster. *)
Definition allEntries (st : AppState) : list Unavailability :=
  concat ((fun emp => unavailability (m_emp emp)) <$> allEmployees st).

(** The roster seen by the scheduler: who is where, under which name. *)
Definition rosterNames (st : AppState) : list (Id * string * string) :=
  (fun m => (id m, groupName m, name (m_emp m))) <$> allEmployees st.

(** *** The grid after the run *)

(** A code other than N, E and D. *)
Definition otherCode (c : string) : bool :=
  negb (String.eqb c "N" || String.eqb c "E" || String.eqb c "D").

(** The cells that differ between [s1] and [s2] were empty in [s1] and hold
    a code accepted by [ok] in [s2]. *)
Definition writesOnly (ok : Id -> nat -> string -> Prop) (s1 s2 : Schedule) : Prop :=
  forall i d,
    getCell s2 i d = getCell s1 i d \/
    (getCell s1 i d = None /\ exists c, getCell s2 i d = Some c /\ ok i d c).

(** On-cycle, and the code of a shift of category [t] of the catalogue. *)
Definition assignable (st : AppState) (t : ShiftType) (i : Id) (d : nat) (c : string) : Prop :=
  shouldWorkOnDay st i d = true /\ exists s, s ∈ shifts st /\ type s = t /\ code s = c.

(** [writesOnly] between the grids of two states of the run. *)
Definition runWrites (ok : Id -> nat -> string -> Prop) (r1 r2 : Run) : Prop :=
  writesOnly ok (r_schedule r1) (r_schedule r2).

(** The employees of the roster whose cell of day [d] holds code [c]. *)
Definition holders (st : AppState) (grid : Schedule) (d : nat) (c : string) : list Member :=
  List.filter (fun emp => bool_decide (getCell grid (id emp) d = Some c)) (allEmployees st).

(** The rows of [s2] are those of [s1], with the same lengths. *)
Definition sameShape (s1 s2 : Schedule) : Prop :=
  forall i, length <$> (s2 !! i) = length <$> (s1 !! i).

(** [sameShape] between the grids of two states of the run. *)
Definition runShape (r1 r2 : Run) : Prop := sameShape (r_schedule r1) (r_schedule r2).

(** The total up to which the backup pass tops up: the least integer that
    [total < targetShifts * 0.8] does not hold for. *)
Definition backupCeiling (st : AppState) : Z :=
  Qceiling (inject_Z (targetShiftsPerPerson (constraints st)) * (8 # 10)).

(** The day that a shortfall warning names. *)
Definition warningDay (w : Warning) : Z :=
  match w with Understaffed day _ _ _ => day | TooManyConsecutive _ _ _ => 0 end.

(** After the backup pass an employee holds at most the ceiling, or the row
    is the one that the working pass left. *)
Definition toppedUpOrUntouched (st : AppState) (wp run : Run) : Prop :=
  forall emp, emp ∈ allEmployees st ->
    total (getCounts (r_shiftCounts run) (id emp)) <= backupCeiling st \/
    (forall d, getCell (r_schedule run) (id emp) d = getCell (r_schedule wp) (id emp) d).

(** *** The export *)

(** The number of occurrences of a character. *)
Fixpoint countChar (c : ascii) (s : string) : nat :=
  match s with
  | EmptyString => 0
  | String a rest => (if Ascii.eqb a c then 1 else 0) + countChar c rest
  end.

(** The sum of the columns of the working shifts. *)
Definition sumWorkingColumns (st : AppState) (counts : gmap string Z) : Z :=
  foldr (fun s sum => csvCount counts (code s) + sum) 0 (List.filter isWorking (shifts st)).

(** The codes that [initCounts] holds a counter for. *)
Definition countedCodes (st : AppState) : list string :=
  (code <$> List.filter isWorking (shifts st)) ++
  match findBackupShift st with Some b => [code b] | None => [] end.

(** The keys of the counts are those of [initCounts]. *)
Definition keysKept (st : AppState) (acc : gmap string Z * Z) : Prop :=
  forall c, is_Some (fst acc !! c) <-> c ∈ countedCodes st.

(** A character that is no digit and no minus sign. *)
Definition notNumeric (c : ascii) : Prop :=
  Forall (fun a => Ascii.eqb a c = false)
    ["-"; "0"; "1"; "2"; "3"; "4"; "5"; "6"; "7"; "8"; "9"]%char.

(** A text without a comma and without a line feed. *)
Definition plainText (s : string) : Prop :=
  countChar "," s = 0%nat /\ countChar "010" s = 0%nat.

(** The number of fields of the rows of the table. *)
Definition csvFields (st : AppState) : nat :=
  numDays st + length (List.filter isWorking (shifts st)) + 2 +
  match findBackupShift st with Some _ => 1 | None => 0 end.

(* ====================================================================== *)
(** * Further worked inputs *)
(* ====================================================================== *)

(** A night shift that requires one employee. *)
Definition nightShift : Shift := {| code := "N"; type := working; coverage := Some 1 |}.

(** Two employees, a day shift and a night shift, two days. *)
Definition nightThenDay : AppState :=
  exampleState 2 6 [dayShift; nightShift] [free "Avery"; free "Blake"].

(** A backup shift. *)
Definition backupShift : Shift := {| code := "B"; type := backup; coverage := None |}.

(** One employee, four days, a working shift on which nobody is required
    and a backup shift. *)
Definition backupFillState : AppState :=
  {| calendarStyle := daterange; month := 4; year := 2025;
     startDate := (2025, 5, 1); duration := 4;
     coveragePreset := preset_24_7; rotationPattern := None;
     shifts := [{| code := "D"; type := working; coverage := Some 0 |}; backupShift];
     groups := [{| g_name := "Team"; employees := [free "Avery"] |}];
     constraints := {| minRestHours := 8; maxHoursWeek := 60;
                       maxConsecutiveDays := 6; targetShiftsPerPerson := 3 |};
     schedule := None; shiftCounts := None; warnings := []; randomSeed := 0 |}.

(** A roster at the limit of 20 employees. *)
Definition fullRoster : AppState :=
  exampleState 3 6 [dayShift] (replicate 20 (free "Avery")).

(** Month mode, May 2025; the first group of the roster is empty. *)
Definition mayRoster : AppState :=
  {| calendarStyle := monthly; month := 4; year := 2025;
     startDate := (2025, 5, 1); duration := 14;
     coveragePreset := preset_24_7; rotationPattern := None;
     shifts := [dayShift];
     groups := [{| g_name := "Empty"; employees := [] |};
                {| g_name := "Team"; employees := [free "Avery"; free "Blake"] |}];
     constraints := {| minRestHours := 8; maxHoursWeek := 60;
                       maxConsecutiveDays := 6; targetShiftsPerPerson := 10 |};
     schedule := None; shiftCounts := None; warnings := []; randomSeed := 0 |}.

(** Leave over both days, and training on the second. *)
Definition leaveThenTraining : AppState :=
  exampleState 2 6 [dayShift]
    [{| name := "Avery";
        unavailability :=
          [{| u_type := LEAVE; u_startDate := Some "2025-05-01"%string;
              u_endDate := Some "2025-05-02"%string |};
           {| u_type := TAD; u_startDate := Some "2025-05-02"%string;
              u_endDate := Some "2025-05-02"%string |}] |}].

(** A Friday, a Saturday and a Sunday under the 8x5 preset. *)
Definition weekendState : AppState :=
  {| calendarStyle := daterange; month := 4; year := 2025;
     startDate := (2025, 5, 2); duration := 3;
     coveragePreset := preset_8x5; rotationPattern := None;
     shifts := [dayShift];
     groups := [{| g_name := "Team"; employees := [free "Avery"] |}];
     constraints := {| minRestHours := 8; maxHoursWeek := 60;
                       maxConsecutiveDays := 6; targetShiftsPerPerson := 10 |};
     schedule := None; shiftCounts := None; warnings := []; randomSeed := 0 |}.

(* ====================================================================== *)
(** * Properties *)
(* ====================================================================== *)

(** ** Sanity checks of the calendar *)

Example make_2025_05_01 :
  JSDate.getFullYear (JSDate.make 2025 4 1) = 2025 /\
  JSDate.getMonth (JSDate.make 2025 4 1) = 4 /\
  JSDate.getDate (JSDate.make 2025 4 1) = 1 /\
  JSDate.getDay (JSDate.make 2025 4 1) = 4.
Proof. vm_compute. auto. Qed.

Example formatDateStr_2025_05_01 :
  formatDateStr (JSDate.make 2025 4 1) = "2025-05-01"%string.
Proof. vm_compute. reflexivity. Qed.

Example warningText_understaffed :
  warningText (Understaffed 3 "D" 0 1) = "Day 3: D shift understaffed (0/1)"%string /\
  warningText (TooManyConsecutive "Avery" 7 6) = "Avery: 7 consecutive days (max 6)"%string.
Proof. vm_compute. auto. Qed.

(** ** The end-to-end scenarios of the specification *)

(** Scenario A: the employee works all three days, no warning.  With one
    employee the sort never compares, so the run is the same for every
    sine. *)
Example scenarioA_run (Math_sin : Z -> Q) :
  (schedule (runScheduler Math_sin scenarioA) ≫= fun grid => grid !! (0%nat, 0%nat))
    = Some [Some "D"%string; Some "D"%string; Some "D"%string] /\
  (shiftCounts (runScheduler Math_sin scenarioA) ≫= fun counts => counts !! (0%nat, 0%nat))
    = Some {| total := 3; night := 0 |} /\
  warnings (runScheduler Math_sin scenarioA) = [].
Proof. vm_compute. auto. Qed.

(** Scenario B: the employee on leave keeps both markers, the other one
    works both days, no warning. *)
Example scenarioB_run (Math_sin : Z -> Q) :
  (schedule (runScheduler Math_sin scenarioB) ≫= fun grid => grid !! (0%nat, 0%nat))
    = Some [Some "LEAVE"%string; Some "LEAVE"%string] /\
  (schedule (runScheduler Math_sin scenarioB) ≫= fun grid => grid !! (0%nat, 1%nat))
    = Some [Some "D"%string; Some "D"%string] /\
  warnings (runScheduler Math_sin scenarioB) = [].
Proof. vm_compute. auto. Qed.

(** Scenario C: offsets 0 and 4, complementary halves of the cycle. *)
Example scenarioC_cycle :
  map (shouldWorkOnDay scenarioC (0%nat, 0%nat)) (seq 0 8)
    = [true; true; true; true; false; false; false; false] /\
  map (shouldWorkOnDay scenarioC (0%nat, 1%nat)) (seq 0 8)
    = [false; false; false; false; true; true; true; true].
Proof. vm_compute. auto. Qed.

(** Scenario D: two days worked, the third refused by the cap and reported,
    the fourth worked. *)
Example scenarioD_run (Math_sin : Z -> Q) :
  (schedule (runScheduler Math_sin scenarioD) ≫= fun grid => grid !! (0%nat, 0%nat))
    = Some [Some "D"%string; Some "D"%string; None; Some "D"%string] /\
  warnings (runScheduler Math_sin scenarioD) = [Understaffed 3 "D" 0 1].
Proof. vm_compute. auto. Qed.

(** ** Folds *)

Lemma foldl_invariant {A B} (P : A -> Prop) (f : A -> B -> A) (l : list B) (a : A) :
  P a -> (forall a x, x ∈ l -> P a -> P (f a x)) -> P (foldl f a l).
Proof.
  revert a. induction l as [|x l IH]; intros a Ha Hstep; simpl; [done|].
  apply IH.
  - apply Hstep; [left | done].
  - intros a' y Hy. apply Hstep. by right.
Qed.

Lemma foldl_related {A B} (R : A -> A -> Prop) `{!Reflexive R} `{!Transitive R}
    (f : A -> B -> A) (l : list B) (a : A) :
  (forall a x, x ∈ l -> R a (f a x)) -> R a (foldl f a l).
Proof.
  intros Hstep.
  apply (foldl_invariant (R a)); [reflexivity|].
  intros a' x Hx Ha'. etransitivity; [exact Ha' | by apply Hstep].
Qed.

(** ** Cells *)

Lemma getCell_setCell_ne (sch : Schedule) i d v i' d' :
  (i, d) ≠ (i', d') -> getCell (setCell sch i d v) i' d' = getCell sch i' d'.
Proof.
  intros Hne. unfold getCell, setCell.
  destruct (decide (i = i')) as [->|Hi].
  - rewrite lookup_alter_eq. destruct (sch !! i') as [row|]; simpl; [|done].
    rewrite list_lookup_insert_ne; [done | congruence].
  - by rewrite lookup_alter_ne.
Qed.

Lemma getCell_setCell_eq (sch : Schedule) i d v row :
  sch !! i = Some row -> (d < length row)%nat ->
  getCell (setCell sch i d v) i d = v.
Proof.
  intros Hrow Hd. unfold getCell, setCell.
  rewrite lookup_alter_eq, Hrow. simpl.
  by rewrite list_lookup_insert_eq.
Qed.

#[local] Instance keepsCells_refl : Reflexive keepsCells.
Proof. by intros s i d c. Qed.

#[local] Instance keepsCells_trans : Transitive keepsCells.
Proof. intros s1 s2 s3 H12 H23 i d c H. by apply H23, H12. Qed.

Lemma keepsCells_setCell (s0 s : Schedule) i d v :
  getCell s0 i d = None -> keepsCells s0 s -> keepsCells s0 (setCell s i d v).
Proof.
  intros Hnull Hk i' d' c Hc.
  rewrite getCell_setCell_ne; [by apply Hk|].
  intros [= -> ->]. congruence.
Qed.

(** ** The sort returns its input, rearranged *)

Section ArraySortFacts.
Context {A S : Type}.
Variable compareFn : A -> A -> S -> Q * S.

Lemma insertSorted_perm x r s :
  fst (insertSorted compareFn x r s) ≡ₚ x :: r.
Proof.
  revert s. induction r as [|y r IH]; intros s; simpl; [done|].
  destruct (compareFn y x s) as [c s1].
  destruct (JS.Qltb 0 c); [|done].
  specialize (IH s1). destruct (insertSorted compareFn x r s1) as [r' s2].
  simpl in *. rewrite IH. apply perm_swap.
Qed.

Lemma Array_sort_perm l s :
  fst (Array_sort compareFn l s) ≡ₚ l.
Proof.
  unfold Array_sort.
  assert (Hgen : forall acc,
    fst (foldl (fun acc x => insertSorted compareFn x (fst acc) (snd acc)) acc l)
      ≡ₚ rev l ++ fst acc).
  { induction l as [|x l IH]; intros acc; simpl; [done|].
    rewrite IH, insertSorted_perm.
    by rewrite <- app_assoc. }
  specialize (Hgen ([], s)).
  destruct (foldl _ _ l) as [r s']. simpl in *.
  rewrite app_nil_r in Hgen.
  by rewrite <- Permutation_rev, Hgen, <- Permutation_rev.
Qed.

(** No comparison, and so no effect, on an array of fewer than two
    elements. *)
Lemma Array_sort_short l s :
  (length l <= 1)%nat -> Array_sort compareFn l s = (l, s).
Proof.
  destruct l as [|x [|y l]]; simpl; intros Hl; try done. lia.
Qed.
End ArraySortFacts.

(** ** Assigned cells are never written again *)

#[local] Instance runKeeps_refl : Reflexive runKeeps.
Proof. intros r. unfold runKeeps. reflexivity. Qed.

#[local] Instance runKeeps_trans : Transitive runKeeps.
Proof. intros r1 r2 r3. unfold runKeeps. apply keepsCells_trans. Qed.

Lemma isAvailable_null st run d shift emp :
  isAvailable st run d shift emp = true ->
  getCell (r_schedule run) (id emp) d = None.
Proof.
  unfold isAvailable. case_bool_decide; [done | simpl; done].
Qed.

Lemma assignLoop_keeps (s0 : Schedule) d shift required l assigned run :
  (forall emp, emp ∈ l -> getCell s0 (id emp) d = None) ->
  keepsCells s0 (r_schedule run) ->
  keepsCells s0 (r_schedule (fst (assignLoop d shift required l assigned run))).
Proof.
  revert assigned run. induction l as [|emp l IH]; intros assigned run Hnull Hk; simpl; [done|].
  destruct (assigned <? required); [|done].
  apply IH.
  - intros e He. apply Hnull. by right.
  - simpl. apply keepsCells_setCell; [|done]. apply Hnull. by left.
Qed.

Section Keeps.
Variable Math_sin : Z -> Q.
Variable st : AppState.

Lemma scheduleShift_keeps d run shift :
  keepsCells (r_schedule run) (r_schedule (scheduleShift Math_sin st d run shift)).
Proof.
  unfold scheduleShift.
  set (available := List.filter _ _).
  pose proof (Array_sort_perm (fairnessCompare Math_sin (r_shiftCounts run) shift)
                available (r_seed run)) as Hperm.
  destruct (Array_sort _ available _) as [sorted seed']. simpl in Hperm.
  pose proof (assignLoop_keeps (r_schedule run) d shift (requiredCount st d shift)
                sorted 0 (withSeed seed' run)) as Hk.
  destruct (assignLoop _ _ _ sorted 0 _) as [run' assigned]. simpl in Hk.
  assert (keepsCells (r_schedule run) (r_schedule run')) as Hkeep.
  { apply Hk; [|done].
    intros emp He. rewrite Hperm in He.
    apply list_elem_of_In, filter_In in He as [_ He].
    by apply isAvailable_null in He. }
  by destruct (assigned <? _).
Qed.

Lemma scheduleDay_keeps run d :
  keepsCells (r_schedule run) (r_schedule (scheduleDay Math_sin st run d)).
Proof.
  unfold scheduleDay. simpl.
  apply (foldl_related runKeeps).
  intros r shift _. apply scheduleShift_keeps.
Qed.

Lemma workingPass_keeps run :
  keepsCells (r_schedule run) (r_schedule (workingPass Math_sin st run)).
Proof.
  apply (foldl_related runKeeps).
  intros r d _. apply scheduleDay_keeps.
Qed.

Lemma backupStep_keeps b d run emp :
  keepsCells (r_schedule run) (r_schedule (backupStep Math_sin st b d run emp)).
Proof.
  unfold backupStep.
  case_bool_decide as Hnull; simpl; [|done].
  destruct (shouldWorkOnDay _ _ _ && _); simpl; [|done].
  destruct (JS.Qltb _ _); simpl; [|done].
  by apply keepsCells_setCell.
Qed.

Lemma backupPass_keeps run :
  keepsCells (r_schedule run) (r_schedule (backupPass Math_sin st run)).
Proof.
  unfold backupPass. destruct (List.find _ _) as [b|]; [|done].
  apply (foldl_related runKeeps).
  intros r d _.
  apply (foldl_related runKeeps).
  intros r' emp _. apply backupStep_keeps.
Qed.

Lemma adminStep_keeps a d run emp :
  keepsCells (r_schedule run) (r_schedule (adminStep Math_sin st a d run emp)).
Proof.
  unfold adminStep.
  case_bool_decide as Hnull; simpl; [|done].
  destruct (shouldWorkOnDay _ _ _); simpl; [|done].
  destruct (JS.Qltb _ _); simpl; [|done].
  by apply keepsCells_setCell.
Qed.

Lemma adminPass_keeps run :
  keepsCells (r_schedule run) (r_schedule (adminPass Math_sin st run)).
Proof.
  unfold adminPass. destruct (List.find _ _) as [a|]; [|done].
  apply (foldl_related runKeeps).
  intros r d _.
  apply (foldl_related runKeeps).
  intros r' emp _. apply adminStep_keeps.
Qed.

Lemma auditPass_schedule run :
  r_schedule (auditPass st run) = r_schedule run.
Proof.
  unfold auditPass.
  apply (foldl_invariant (fun r => r_schedule r = r_schedule run)); [done|].
  intros r emp _ Hr. unfold auditEmployee. by destruct (_ <? _).
Qed.

Lemma finalRun_keeps :
  keepsCells (r_schedule (initialRun st)) (r_schedule (finalRun Math_sin st)).
Proof.
  unfold finalRun. rewrite auditPass_schedule.
  etransitivity; [apply workingPass_keeps|].
  etransitivity; [apply backupPass_keeps|].
  apply adminPass_keeps.
Qed.
End Keeps.

(** ** C1: absence markers survive the run *)

(** C1. For every employee and day, a cell that the pre-fill of the
    unavailability windows set to an absence marker (LEAVE or TAD) holds the
    same marker in the schedule that the run stores, after the working,
    backup and admin passes. *)
Theorem absence_marker_never_overwritten (Math_sin : Z -> Q) (st : AppState)
    (emp : Member) (d : nat) (k : AbsenceKind) :
  emp ∈ allEmployees st ->
  getCell (prefillUnavailability st (initSchedule st)) (id emp) d = Some (absenceCode k) ->
  exists grid,
    schedule (runScheduler Math_sin st) = Some grid /\
    getCell grid (id emp) d = Some (absenceCode k).
Proof.
  intros Hemp Hpre.
  exists (r_schedule (finalRun Math_sin st)). split.
  - unfold runScheduler. destruct (allEmployees st); [by apply elem_of_nil in Hemp | done].
  - by apply (finalRun_keeps Math_sin st).
Qed.

Lemma absence_marker_never_overwritten_witness :
  exists grid,
    schedule (runScheduler sinZero scenarioB) = Some grid /\
    getCell grid (0%nat, 0%nat) 1 = Some "LEAVE"%string.
Proof.
  apply (absence_marker_never_overwritten sinZero scenarioB
           (memberOf 0 0 onLeave) 1 LEAVE).
  - apply list_elem_of_In. vm_compute. auto.
  - vm_compute. reflexivity.
Defined.

(** ** C9: the number of days of a month *)

Ltac Zify.zify_post_hook ::= Z.to_euclidean_division_equations.

(** The three divisibility tests of the leap-year rule. *)
Ltac leap_cases y :=
  destruct (Z.eqb_spec (y mod 4) 0), (Z.eqb_spec (y mod 100) 0),
    (Z.eqb_spec (y mod 400) 0); simpl.

(** One case for each month index from 0 to 11. *)
Ltac month_cases m :=
  let H := fresh "Hmonth" in
  assert (m = 0 \/ m = 1 \/ m = 2 \/ m = 3 \/ m = 4 \/ m = 5 \/ m = 6 \/ m = 7 \/
          m = 8 \/ m = 9 \/ m = 10 \/ m = 11) as H by lia;
  repeat (destruct H as [-> | H]); try subst m.

Section Calendar.
Import JSDate.

Lemma DayFromYear_succ y : DayFromYear (y + 1) = DayFromYear y + DaysInYear y.
Proof.
  unfold DayFromYear, DaysInYear.
  repeat (case Z.eqb_spec; intros; simpl); lia.
Qed.

Lemma DayFromYear_lt y1 y2 : y1 < y2 -> DayFromYear y1 + 365 <= DayFromYear y2.
Proof. unfold DayFromYear. lia. Qed.

Lemma YearFromDay_spec n :
  DayFromYear (YearFromDay n) <= n < DayFromYear (YearFromDay n + 1).
Proof.
  unfold YearFromDay.
  repeat (case Z.leb_spec; intros); unfold DayFromYear in *; lia.
Qed.

Lemma YearFromDay_unique y n :
  DayFromYear y <= n < DayFromYear (y + 1) -> YearFromDay n = y.
Proof.
  intros Hy. pose proof (YearFromDay_spec n) as Hs.
  destruct (Z.lt_trichotomy (YearFromDay n) y) as [Hlt | [Heq | Hgt]]; [|done|].
  - pose proof (DayFromYear_lt (YearFromDay n) y Hlt).
    assert (DayFromYear (YearFromDay n + 1) <= DayFromYear y).
    { destruct (Z.eq_dec (YearFromDay n + 1) y) as [->|]; [lia|].
      pose proof (DayFromYear_lt (YearFromDay n + 1) y). lia. }
    lia.
  - assert (DayFromYear (y + 1) <= DayFromYear (YearFromDay n)).
    { destruct (Z.eq_dec (y + 1) (YearFromDay n)) as [->|]; [lia|].
      pose proof (DayFromYear_lt (y + 1) (YearFromDay n)). lia. }
    lia.
Qed.

Lemma InLeapYear_isLeapYear y : InLeapYear y = isLeapYear y.
Proof.
  unfold InLeapYear, DaysInYear, isLeapYear.
  leap_cases y; try reflexivity; lia.
Qed.

Lemma DaysInYear_cases y : DaysInYear y = if InLeapYear y then 366 else 365.
Proof.
  unfold InLeapYear, DaysInYear.
  leap_cases y; reflexivity.
Qed.

(** The last day of month [m] of year [y], found as day 0 of the next month. *)
Lemma lastDayOfMonth y m :
  0 <= m <= 11 ->
  getDate (MakeDay y (m + 1) 0) = daysInMonth y m.
Proof.
  intros Hm.
  pose proof (DayFromYear_succ y) as Hsucc.
  rewrite DaysInYear_cases in Hsucc.
  assert (Hday : MakeDay y (m + 1) 0 = DayFromYear y + MonthStart (InLeapYear y) (m + 1) - 1).
  { unfold MakeDay.
    destruct (Z.eq_dec m 11) as [->|Hne].
    - replace ((11 + 1) / 12) with 1 by reflexivity.
      replace ((11 + 1) mod 12) with 0 by reflexivity.
      rewrite Hsucc. change (11 + 1) with 12. unfold MonthStart. destruct (InLeapYear y), (InLeapYear (y + 1)); lia.
    - replace ((m + 1) / 12) with 0 by lia.
      replace ((m + 1) mod 12) with (m + 1) by lia.
      replace (y + 0) with y by lia. lia. }
  assert (Hyear : YearFromDay (MakeDay y (m + 1) 0) = y).
  { apply YearFromDay_unique. rewrite Hday, Hsucc.
    destruct (InLeapYear y); month_cases m; simpl; lia. }
  unfold getDate, DateFromDay, MonthFromDay, DayWithinYear.
  rewrite Hyear, Hday.
  unfold daysInMonth. rewrite <- InLeapYear_isLeapYear.
  destruct (InLeapYear y); month_cases m; simpl;
    repeat (case Z.ltb_spec; intros; simpl); lia.
Qed.

Lemma daysInMonth_two_digit_year y m :
  1 <= y <= 99 -> daysInMonth (1900 + y) m = daysInMonth y m.
Proof.
  intros Hy. unfold daysInMonth, isLeapYear.
  leap_cases (1900 + y); leap_cases y; try reflexivity; lia.
Qed.

(** In month mode the resolver is right for every year but 0. *)
Lemma getDaysInPeriod_monthly (st : AppState) :
  calendarStyle st = monthly ->
  year st <> 0 ->
  0 <= month st <= 11 ->
  getDaysInPeriod st = daysInMonth (year st) (month st).
Proof.
  intros Hstyle Hyear Hmonth. unfold getDaysInPeriod, make. rewrite Hstyle.
  destruct (Z.leb_spec 0 (year st)); destruct (Z.leb_spec (year st) 99); simpl;
    rewrite lastDayOfMonth by done; try reflexivity.
  apply daysInMonth_two_digit_year. lia.
Qed.

End Calendar.

(** C9. In month mode [numDays] is the number of days of the month, leap
    years included.  The resolver misses this for the year 0:
    [new Date(0, 2, 0)] is the last day of February 1900, the 28th, while
    February of the year 0, a leap year also in the calendar of [Date]
    itself, has 29 days. *)
Theorem getDaysInPeriod_february_of_year_0 :
  getDaysInPeriod februaryOfYear0 = 28 /\
  daysInMonth (year februaryOfYear0) (month februaryOfYear0) = 29 /\
  JSDate.getDate (JSDate.MakeDay 0 2 0) = 29.
Proof. vm_compute. auto. Qed.

(** ** The roster: every employee has an id of its own *)

Lemma elem_of_concat {A} (x : A) (ls : list (list A)) :
  x ∈ concat ls <-> exists l, x ∈ l /\ l ∈ ls.
Proof.
  rewrite list_elem_of_In, in_concat. split.
  - intros (l & Hl & Hx). exists l. by rewrite !list_elem_of_In.
  - intros (l & Hx & Hl). exists l. by rewrite <- !list_elem_of_In.
Qed.

Lemma allEmployees_lookup st i emp :
  allEmployees st !! i = Some emp ->
  id emp = (groupIndex emp, empIndex emp) /\
  exists group, groups st !! groupIndex emp = Some group /\
    employees group !! empIndex emp = Some (m_emp emp).
Proof.
  unfold allEmployees. intros H.
  apply list_elem_of_lookup_2 in H.
  apply elem_of_concat in H as (row & Hemp & Hrow).
  apply elem_of_lookup_imap in Hrow as (g & group & -> & Hg).
  apply elem_of_lookup_imap in Hemp as (e & x & -> & He). simpl.
  split; [done|]. exists group. done.
Qed.

Lemma NoDup_ids_from (f : nat -> nat) (gs : list Group) :
  Inj (=) (=) f ->
  NoDup (id <$> concat (imap (fun gIndex group =>
    imap (fun eIndex emp =>
      {| m_emp := emp; groupIndex := f gIndex; groupName := g_name group;
         empIndex := eIndex; id := (f gIndex, eIndex) |}) (employees group)) gs)).
Proof.
  revert f. induction gs as [|group gs IH]; intros f Hf; simpl; [constructor|].
  rewrite fmap_app. apply NoDup_app. split; [|split].
  - rewrite fmap_imap. 
    apply NoDup_alt. intros i j x Hi Hj.
    rewrite list_lookup_imap in Hi, Hj.
    destruct (employees group !! i); destruct (employees group !! j); simplify_eq/=. done.
  - intros x Hx Hx'.
    rewrite fmap_imap in Hx. apply elem_of_lookup_imap in Hx as (e & emp & -> & _).
    apply list_elem_of_fmap in Hx' as (m & Hm & Hin).
    apply elem_of_concat in Hin as (row & Hemp & Hrow).
    apply elem_of_lookup_imap in Hrow as (g & group' & -> & Hg).
    apply elem_of_lookup_imap in Hemp as (e' & x & -> & He). simpl in Hm.
    injection Hm as Hfg _. apply Hf in Hfg. done.
  - apply (IH (f ∘ S)). intros a b Hab. apply Hf in Hab. lia.
Qed.

Lemma NoDup_ids st : NoDup (id <$> allEmployees st).
Proof. apply (NoDup_ids_from (fun g => g)). by intros a b. Qed.

(** ** Maps filled by a loop over the roster *)

Section FoldInsert.
Context {X V : Type}.
Variables (key : X -> Id) (val : X -> V).

Lemma lookup_foldl_insert_notin (l : list X) (m0 : gmap Id V) k :
  k ∉ key <$> l ->
  foldl (fun m x => <[key x := val x]> m) m0 l !! k = m0 !! k.
Proof.
  revert m0. induction l as [|x l IH]; intros m0 Hk; simpl; [done|].
  rewrite fmap_cons in Hk. apply not_elem_of_cons in Hk as [Hne Hk].
  rewrite IH by done. by rewrite lookup_insert_ne.
Qed.

Lemma lookup_foldl_insert (l : list X) (m0 : gmap Id V) x :
  NoDup (key <$> l) -> x ∈ l ->
  foldl (fun m x => <[key x := val x]> m) m0 l !! key x = Some (val x).
Proof.
  revert m0. induction l as [|y l IH]; intros m0 Hnd Hx; simpl.
  - by apply elem_of_nil in Hx.
  - rewrite fmap_cons in Hnd. apply NoDup_cons in Hnd as [Hy Hnd].
    apply elem_of_cons in Hx as [->|Hx].
    + rewrite lookup_foldl_insert_notin by done. by rewrite lookup_insert_eq.
    + by apply IH.
Qed.
End FoldInsert.

(** ** C6: rotation offsets *)

Lemma employeePatternOffsets_lookup st pattern i emp :
  rotationPattern st = Some pattern ->
  allEmployees st !! i = Some emp ->
  employeePatternOffsets st !! id emp =
    Some (Z.of_nat i * Z.of_nat (length pattern) / Z.of_nat (length (allEmployees st))).
Proof.
  intros Hpat Hi. unfold employeePatternOffsets. rewrite Hpat.
  apply (lookup_foldl_insert (fun ie : nat * Member => id (snd ie))
           (fun ie => Z.of_nat (fst ie) * Z.of_nat (length pattern)
                        / Z.of_nat (length (allEmployees st)))
           (imap pair (allEmployees st)) ∅ (i, emp)).
  - rewrite fmap_imap. simpl.
    replace (imap (fun n => (fun ie : nat * Member => id ie.2) ∘ pair n) (allEmployees st))
      with (id <$> allEmployees st); [apply NoDup_ids|].
    symmetry. apply imap_const.
  - by apply (elem_of_lookup_imap_2 pair).
Qed.

(** C6. With a rotation pattern of cycle length L selected and E employees,
    the i-th employee of the flattened roster has phase offset
    floor(i * L / E) and is on-cycle on day d exactly when
    pattern[(d + offset) mod L] is 1; with no pattern selected the employee
    is on-cycle on every day. *)
Theorem rotation_offsets_and_cycle (st : AppState) (i : nat) (emp : Member) :
  allEmployees st !! i = Some emp ->
  match rotationPattern st with
  | Some pattern =>
      let L := Z.of_nat (length pattern) in
      let E := Z.of_nat (length (allEmployees st)) in
      let offset := Z.of_nat i * L / E in
      employeePatternOffsets st !! id emp = Some offset /\
      forall d, shouldWorkOnDay st (id emp) d = true <->
                pattern !! Z.to_nat ((Z.of_nat d + offset) mod L) = Some 1
  | None => forall d, shouldWorkOnDay st (id emp) d = true
  end.
Proof.
  intros Hi. destruct (rotationPattern st) as [pattern|] eqn:Hpat.
  - intros L E offset.
    pose proof (employeePatternOffsets_lookup st pattern i emp Hpat Hi) as Hoff.
    split; [done|]. intros d.
    unfold shouldWorkOnDay. rewrite Hpat, Hoff. simpl. fold L E offset.
    destruct (Z.eqb_spec L 0) as [HL|HL].
    + split; [done|]. destruct pattern; [done | simpl in *; lia].
    + destruct (pattern !! _) as [flag|]; [|done].
      destruct (Z.eqb_spec flag 1); split; intros; simplify_eq; done.
  - intros d. unfold shouldWorkOnDay. by rewrite Hpat.
Qed.

Lemma rotation_offsets_and_cycle_witness :
  employeePatternOffsets scenarioC !! (0%nat, 1%nat) = Some 4 /\
  forall d, shouldWorkOnDay scenarioC (0%nat, 1%nat) d = true <->
            [1; 1; 1; 1; 0; 0; 0; 0] !! Z.to_nat ((Z.of_nat d + 4) mod 8) = Some 1.
Proof.
  apply (rotation_offsets_and_cycle scenarioC 1 (memberOf 0 1 (free "Blake"))).
  vm_compute. reflexivity.
Defined.

(** ** C8: time-off entries with a missing date *)

(** C8, as stated, fails for an entry that has a start date and no end
    date: the entry is not skipped, the day of its start date is set to its
    marker, and the finished schedule holds it. *)
Lemma entry_without_endDate_is_applied :
  JS.truthy (u_endDate openEnded) = false /\
  getCell (initSchedule openEndedState) (0%nat, 0%nat) 0 = None /\
  getCell (prefillEntry openEndedState (0%nat, 0%nat) (initSchedule openEndedState) openEnded)
          (0%nat, 0%nat) 0 = Some "LEAVE"%string /\
  (forall Math_sin, exists grid,
     schedule (runScheduler Math_sin openEndedState) = Some grid /\
     getCell grid (0%nat, 0%nat) 0 = Some "LEAVE"%string).
Proof.
  split; [by vm_compute|]. split; [by vm_compute|]. split; [by vm_compute|].
  intros Math_sin. exists (r_schedule (finalRun Math_sin openEndedState)).
  split; [done|]. apply (finalRun_keeps Math_sin openEndedState). by vm_compute.
Qed.

(** An entry with a start date and no end date stands for the single day of
    its start date. *)
Lemma prefillEntry_without_endDate st empId sch unavail :
  JS.truthy (u_endDate unavail) = false ->
  prefillEntry st empId sch unavail =
  prefillEntry st empId sch
    {| u_type := u_type unavail; u_startDate := u_startDate unavail;
       u_endDate := u_startDate unavail |}.
Proof.
  intros Hend. unfold prefillEntry. simpl. rewrite Hend.
  destruct (JS.truthy (u_startDate unavail)); reflexivity.
Qed.

(** C8, amended. An entry with a missing start date is skipped: it sets no
    cell, and the entries of the employee are processed as if it were not in
    the list.  An entry with a start date and a missing end date is not
    skipped: it is applied as the entry of the single day of its start
    date. *)
Theorem entry_with_a_missing_date (st : AppState) (empId : Id) (sch : Schedule)
    (unavail : Unavailability) (before after : list Unavailability) :
  (JS.truthy (u_startDate unavail) = false ->
   prefillEntry st empId sch unavail = sch /\
   foldl (prefillEntry st empId) sch (before ++ unavail :: after) =
     foldl (prefillEntry st empId) sch (before ++ after)) /\
  (JS.truthy (u_endDate unavail) = false ->
   prefillEntry st empId sch unavail =
   prefillEntry st empId sch
     {| u_type := u_type unavail; u_startDate := u_startDate unavail;
        u_endDate := u_startDate unavail |}).
Proof.
  split.
  - intros Hstart.
    assert (Hskip : forall s, prefillEntry st empId s unavail = s).
    { intros s. unfold prefillEntry. by rewrite Hstart. }
    split; [apply Hskip|].
    rewrite !foldl_app. simpl. by rewrite Hskip.
  - apply prefillEntry_without_endDate.
Qed.

Lemma entry_with_a_missing_date_witness :
  (prefillEntry scenarioB (0%nat, 1%nat) (initSchedule scenarioB) blankEntry
     = initSchedule scenarioB /\
   foldl (prefillEntry scenarioB (0%nat, 1%nat)) (initSchedule scenarioB)
         ([openEnded] ++ blankEntry :: [openEnded]) =
     foldl (prefillEntry scenarioB (0%nat, 1%nat)) (initSchedule scenarioB)
           ([openEnded] ++ [openEnded])) /\
  prefillEntry scenarioB (0%nat, 1%nat) (initSchedule scenarioB) openEnded =
    prefillEntry scenarioB (0%nat, 1%nat) (initSchedule scenarioB)
      {| u_type := LEAVE; u_startDate := Some "2025-05-01"%string;
         u_endDate := Some "2025-05-01"%string |}.
Proof.
  split.
  - apply (entry_with_a_missing_date scenarioB (0%nat, 1%nat)
             (initSchedule scenarioB) blankEntry [openEnded] [openEnded]).
    vm_compute. reflexivity.
  - apply (entry_with_a_missing_date scenarioB (0%nat, 1%nat)
             (initSchedule scenarioB) openEnded [] []).
    vm_compute. reflexivity.
Defined.

(** ** Runs of a row *)

Section Runs.
Variable P : Cell -> bool.

Lemma longestRun_unique row n m : longestRun P row n -> longestRun P row m -> n = m.
Proof.
  intros [(s1 & Hs1 & <-) Hmax1] [(s2 & Hs2 & <-) Hmax2].
  apply Hmax1 in Hs2. apply Hmax2 in Hs1. lia.
Qed.

Lemma isRunOf_snoc_inv row c seg :
  isRunOf P (row ++ [c]) seg ->
  isRunOf P row seg \/ isTrailingRunOf P (row ++ [c]) seg.
Proof.
  intros [(before & after & Heq) Hall].
  destruct after as [|a after _] using rev_ind.
  - right. split; [|done]. exists before. by rewrite app_nil_r in Heq.
  - left. split; [|done]. exists before, after.
    rewrite !app_assoc in Heq. apply app_inj_tail in Heq as [Heq _].
    by rewrite <- app_assoc in Heq.
Qed.

Lemma isTrailingRunOf_snoc_inv row c seg :
  isTrailingRunOf P (row ++ [c]) seg ->
  seg = [] \/ exists seg', seg = seg' ++ [c] /\ P c = true /\ isTrailingRunOf P row seg'.
Proof.
  intros [(before & Heq) Hall].
  destruct seg as [|a seg _] using rev_ind; [by left|right].
  rewrite app_assoc in Heq. apply app_inj_tail in Heq as [-> ->].
  apply Forall_app in Hall as [Hall Ha]. rewrite Forall_singleton in Ha.
  exists seg. split; [done|]. split; [done|]. split; [by exists before | done].
Qed.

Lemma isRunOf_weaken row c seg : isRunOf P row seg -> isRunOf P (row ++ [c]) seg.
Proof.
  intros [(before & after & ->) Hall]. split; [|done].
  exists before, (after ++ [c]). by rewrite <- !app_assoc.
Qed.

Lemma isTrailingRunOf_isRunOf row seg : isTrailingRunOf P row seg -> isRunOf P row seg.
Proof.
  intros [(before & ->) Hall]. split; [|done]. exists before, []. by rewrite app_nil_r.
Qed.

Lemma scanWith_snoc row c :
  scanWith P (row ++ [c]) =
    let acc := scanWith P row in
    if P c then (fst acc + 1, Z.max (snd acc) (fst acc + 1)) else (0, snd acc).
Proof. unfold scanWith. by rewrite foldl_app. Qed.

Lemma scanWith_spec row :
  trailingRun P row (fst (scanWith P row)) /\ longestRun P row (snd (scanWith P row)).
Proof.
  induction row as [|c row IH] using rev_ind.
  - split; (split; [exists []; split; [|done]|]).
    + split; [by exists [] | constructor].
    + intros seg [(before & Heq) _]. symmetry in Heq.
      apply app_eq_nil in Heq as [_ ->]. done.
    + split; [by exists [], [] | constructor].
    + intros seg [(before & after & Heq) _]. symmetry in Heq.
      apply app_eq_nil in Heq as [_ Heq]. apply app_eq_nil in Heq as [-> _]. done.
  - rewrite scanWith_snoc. simpl.
    destruct IH as [[(tseg & Htseg & Htlen) Htmax] [(lseg & Hlseg & Hllen) Hlmax]].
    destruct (P c) eqn:HPc; simpl.
    + assert (Htrail : trailingRun P (row ++ [c]) (fst (scanWith P row) + 1)).
      { split.
        - exists (tseg ++ [c]). split.
          + destruct Htseg as [(before & ->) Hall]. split.
            * exists before. by rewrite app_assoc.
            * apply Forall_app. split; [done|]. by rewrite Forall_singleton.
          + rewrite length_app. simpl. lia.
        - intros seg Hseg. apply isTrailingRunOf_snoc_inv in Hseg as [->|(seg' & -> & _ & Hseg')].
          + simpl. lia.
          + apply Htmax in Hseg'. rewrite length_app. simpl. lia. }
      split; [done|]. split.
      * destruct (Z.max_spec (snd (scanWith P row)) (fst (scanWith P row) + 1)) as [[_ ->]|[_ ->]].
        -- destruct Htrail as [(seg & Hseg & Hlen) _]. exists seg.
           split; [by apply isTrailingRunOf_isRunOf | done].
        -- exists lseg. split; [by apply isRunOf_weaken | done].
      * intros seg Hseg. apply isRunOf_snoc_inv in Hseg as [Hseg|Hseg].
        -- apply Hlmax in Hseg. lia.
        -- apply Htrail in Hseg. lia.
    + assert (Htrail : trailingRun P (row ++ [c]) 0).
      { split.
        - exists []. split; [|done]. split; [|constructor].
          exists (row ++ [c]). by rewrite app_nil_r.
        - intros seg Hseg. apply isTrailingRunOf_snoc_inv in Hseg as [->|(seg' & -> & HP & _)].
          + done.
          + congruence. }
      split; [done|]. split.
      * exists lseg. split; [by apply isRunOf_weaken | done].
      * intros seg Hseg. apply isRunOf_snoc_inv in Hseg as [Hseg|Hseg].
        -- by apply Hlmax.
        -- apply Htrail in Hseg. destruct Hlseg as [_ _]. 
           assert (0 <= snd (scanWith P row)); [|lia].
           rewrite <- Hllen. lia.
Qed.
End Runs.

Lemma scanRow_scanWith row : scanRow row = scanWith countsAsWorked row.
Proof. reflexivity. Qed.

Lemma auditPass_warnings st run :
  r_warnings (auditPass st run) =
    r_warnings run ++ flat_map (auditWarning st (r_schedule run)) (allEmployees st).
Proof.
  unfold auditPass. generalize (allEmployees st) as l.
  intros l. revert run. induction l as [|emp l IH]; intros run; simpl.
  - by rewrite app_nil_r.
  - rewrite IH. unfold auditEmployee, auditWarning at 2.
    destruct (_ <? _); simpl; [|done].
    by rewrite <- app_assoc.
Qed.

(** ** The assignment loop takes a prefix of the sorted candidates *)

Lemma assignLoop_take d shift required l assigned run :
  assignLoop d shift required l assigned run =
    (foldl (assignShift d shift) run (take (Z.to_nat (required - assigned)) l),
     assigned + Z.of_nat (length (take (Z.to_nat (required - assigned)) l))).
Proof.
  revert assigned run. induction l as [|emp l IH]; intros assigned run; simpl.
  - rewrite take_nil. simpl. f_equal. lia.
  - destruct (Z.ltb_spec assigned required) as [Hlt|Hge].
    + rewrite IH.
      replace (Z.to_nat (required - assigned)) with (S (Z.to_nat (required - (assigned + 1)))) by lia.
      simpl. f_equal. lia.
    + replace (Z.to_nat (required - assigned)) with 0%nat by lia. simpl. f_equal. lia.
Qed.

Lemma sublist_List_filter {A} (f : A -> bool) (l : list A) :
  List.filter f l `sublist_of` l.
Proof.
  induction l as [|x l IH]; simpl; [constructor|].
  destruct (f x); by constructor.
Qed.

Section Step.
Variable Math_sin : Z -> Q.
Variable st : AppState.

Lemma scheduleShift_unfold d run shift :
  scheduleShift Math_sin st d run shift =
    let run1 := foldl (assignShift d shift)
                  (withSeed (snd (sortedCandidates Math_sin st d run shift)) run) (chosen Math_sin st d run shift) in
    let assigned := Z.of_nat (length (chosen Math_sin st d run shift)) in
    if assigned <? requiredCount st d shift
    then pushWarning (Understaffed (Z.of_nat d + 1) (code shift) assigned
                        (requiredCount st d shift)) run1
    else run1.
Proof.
  unfold scheduleShift, chosen, sortedCandidates.
  destruct (Array_sort _ _ _) as [sorted seed']. simpl.
  rewrite assignLoop_take. rewrite Z.sub_0_r, Z.add_0_l. reflexivity.
Qed.

Lemma foldl_assignShift_fields d shift l run :
  let run' := foldl (assignShift d shift) run l in
  r_warnings run' = r_warnings run /\ r_seed run' = r_seed run /\
  r_consecutiveDays run' = r_consecutiveDays run /\
  r_schedule run' =
    foldl (fun sch emp => setCell sch (id emp) d (Some (code shift))) (r_schedule run) l.
Proof.
  revert run. induction l as [|emp l IH]; intros run; simpl; [done|].
  destruct (IH (assignShift d shift run emp)) as (Hw & Hs & Hc & Hsch). simpl in *.
  by rewrite Hw, Hs, Hc, Hsch.
Qed.

Lemma scheduleShift_warnings d run shift :
  r_warnings (scheduleShift Math_sin st d run shift) =
    r_warnings run ++ shortfall st d shift (Z.of_nat (length (chosen Math_sin st d run shift))).
Proof.
  rewrite scheduleShift_unfold. simpl. unfold shortfall.
  destruct (foldl_assignShift_fields d shift (chosen Math_sin st d run shift)
              (withSeed (snd (sortedCandidates Math_sin st d run shift)) run)) as (Hw & _).
  destruct (_ <? _); simpl; rewrite Hw; simpl; [done | by rewrite app_nil_r].
Qed.

Lemma scheduleShift_schedule d run shift :
  r_schedule (scheduleShift Math_sin st d run shift) =
    foldl (fun sch emp => setCell sch (id emp) d (Some (code shift)))
          (r_schedule run) (chosen Math_sin st d run shift).
Proof.
  rewrite scheduleShift_unfold. simpl.
  destruct (foldl_assignShift_fields d shift (chosen Math_sin st d run shift)
              (withSeed (snd (sortedCandidates Math_sin st d run shift)) run)) as (_ & _ & _ & Hs).
  destruct (_ <? _); simpl; by rewrite Hs.
Qed.

Lemma scheduleShift_consecutiveDays d run shift :
  r_consecutiveDays (scheduleShift Math_sin st d run shift) = r_consecutiveDays run.
Proof.
  rewrite scheduleShift_unfold. simpl.
  destruct (foldl_assignShift_fields d shift (chosen Math_sin st d run shift)
              (withSeed (snd (sortedCandidates Math_sin st d run shift)) run)) as (_ & _ & Hc & _).
  destruct (_ <? _); simpl; by rewrite Hc.
Qed.

Lemma chosen_available d run shift emp :
  emp ∈ chosen Math_sin st d run shift ->
  emp ∈ allEmployees st /\ isAvailable st run d shift emp = true.
Proof.
  unfold chosen, sortedCandidates. intros Hemp.
  apply elem_of_take in Hemp as (i & Hemp & _).
  apply list_elem_of_lookup_2 in Hemp. rewrite Array_sort_perm in Hemp.
  apply list_elem_of_In, filter_In in Hemp as [Hin Hav].
  by rewrite <- list_elem_of_In in Hin.
Qed.

Lemma chosen_NoDup d run shift : NoDup (id <$> chosen Math_sin st d run shift).
Proof.
  unfold chosen, sortedCandidates.
  eapply sublist_NoDup; [|apply (fmap_sublist id), sublist_take].
  rewrite Array_sort_perm.
  eapply sublist_NoDup; [|apply (fmap_sublist id), sublist_List_filter].
  apply (NoDup_ids st).
Qed.
End Step.

(** ** Rows of the grid *)

Lemma NoDup_fmap_eq {A B} (f : A -> B) (l : list A) x y :
  NoDup (f <$> l) -> x ∈ l -> y ∈ l -> f x = f y -> x = y.
Proof.
  induction l as [|a l IH]; intros Hnd Hx Hy Hf; [by apply elem_of_nil in Hx|].
  rewrite fmap_cons in Hnd. apply NoDup_cons in Hnd as [Ha Hnd].
  apply elem_of_cons in Hx as [->|Hx]; apply elem_of_cons in Hy as [->|Hy]; try done.
  - exfalso. apply Ha. rewrite Hf. by apply list_elem_of_fmap_2.
  - exfalso. apply Ha. rewrite <- Hf. by apply list_elem_of_fmap_2.
  - by apply IH.
Qed.

Lemma setCell_lookup (sch : Schedule) i d v j row :
  sch !! j = Some row ->
  exists row', setCell sch i d v !! j = Some row' /\ length row' = length row.
Proof.
  intros Hrow. unfold setCell. destruct (decide (i = j)) as [->|Hne].
  - rewrite lookup_alter_eq, Hrow. simpl. eexists. split; [done|]. apply length_insert.
  - rewrite lookup_alter_ne by done. by exists row.
Qed.

Lemma rowsOk_setCell st sch i d v : rowsOk st sch -> rowsOk st (setCell sch i d v).
Proof.
  intros Hok emp Hemp. destruct (Hok emp Hemp) as (row & Hrow & Hlen).
  destruct (setCell_lookup sch i d v (id emp) row Hrow) as (row' & Hrow' & Hlen').
  exists row'. split; [done | congruence].
Qed.

Lemma rowsOk_foldl_setCell st sch (l : list Member) d v :
  rowsOk st sch ->
  rowsOk st (foldl (fun sch emp => setCell sch (id emp) d v) sch l).
Proof.
  intros Hok. apply (foldl_invariant (rowsOk st)); [done|].
  intros s emp _ Hs. by apply rowsOk_setCell.
Qed.

Lemma getCell_setCell_eq_ok st sch emp d v :
  rowsOk st sch -> emp ∈ allEmployees st -> (d < numDays st)%nat ->
  getCell (setCell sch (id emp) d v) (id emp) d = v.
Proof.
  intros Hok Hemp Hd. destruct (Hok emp Hemp) as (row & Hrow & Hlen).
  apply (getCell_setCell_eq sch (id emp) d v row Hrow). lia.
Qed.

Lemma getCell_foldl_setCell st sch (l : list Member) d v i d' :
  rowsOk st sch -> (forall emp, emp ∈ l -> emp ∈ allEmployees st) -> (d < numDays st)%nat ->
  getCell (foldl (fun sch emp => setCell sch (id emp) d v) sch l) i d' =
    if decide (d' = d /\ i ∈ id <$> l) then v else getCell sch i d'.
Proof.
  intros Hok Hl Hd. induction l as [|emp l IH] using rev_ind.
  - simpl. rewrite decide_False; [done|]. intros [_ Hin]. by apply elem_of_nil in Hin.
  - rewrite foldl_app. simpl.
    assert (Hl' : forall e, e ∈ l -> e ∈ allEmployees st).
    { intros e He. apply Hl. apply elem_of_app. by left. }
    specialize (IH Hl').
    assert (Hemp : emp ∈ allEmployees st).
    { apply Hl. apply elem_of_app. right. by apply list_elem_of_singleton. }
    destruct (decide ((id emp, d) = (i, d'))) as [Heq|Hne].
    + injection Heq as <- <-.
      rewrite (getCell_setCell_eq_ok st); [| by apply rowsOk_foldl_setCell | done | done].
      rewrite decide_True; [done|]. split; [done|].
      rewrite fmap_app. apply elem_of_app. right. simpl. by apply list_elem_of_singleton.
    + rewrite getCell_setCell_ne by done. rewrite IH.
      apply decide_ext. rewrite fmap_app, elem_of_app. simpl.
      rewrite list_elem_of_singleton.
      split; [intros [-> Hin]; split; [done | by left]|].
      intros [-> [Hin|Hin]]; [done|]. congruence.
Qed.

(** ** The states that the day loop goes through *)

Lemma rowsOk_initSchedule st : rowsOk st (initSchedule st).
Proof.
  intros emp Hemp. exists (replicate (numDays st) None). split; [|apply length_replicate].
  unfold initSchedule.
  apply (lookup_foldl_insert id (fun _ => replicate (numDays st) None)
           (allEmployees st) ∅ emp); [apply NoDup_ids | done].
Qed.

Lemma rowsOk_prefillEntry st sch i unavail :
  rowsOk st sch -> rowsOk st (prefillEntry st i sch unavail).
Proof.
  intros Hok. unfold prefillEntry. destruct (negb _); [done|].
  apply (foldl_invariant (rowsOk st)); [done|].
  intros s d _ Hs. destruct (_ && _); [by apply rowsOk_setCell | done].
Qed.

Lemma rowsOk_prefill st : rowsOk st (prefillUnavailability st (initSchedule st)).
Proof.
  unfold prefillUnavailability.
  apply (foldl_invariant (rowsOk st)); [apply rowsOk_initSchedule|].
  intros s emp _ Hs.
  apply (foldl_invariant (rowsOk st)); [done|].
  intros s' u _ Hs'. by apply rowsOk_prefillEntry.
Qed.

Section Reach.
Variable Math_sin : Z -> Q.
Variable st : AppState.

Lemma dayStart_S d :
  dayStart Math_sin st (S d) = updateConsecutive st d (stateAt Math_sin st d (length (workingShifts st))).
Proof.
  unfold dayStart, stateAt. rewrite seq_S, foldl_app. simpl.
  unfold scheduleDay at 1. by rewrite firstn_all.
Qed.

Lemma stateAt_S d k shift :
  workingShifts st !! k = Some shift ->
  stateAt Math_sin st d (S k) = scheduleShift Math_sin st d (stateAt Math_sin st d k) shift.
Proof.
  intros Hk. unfold stateAt. erewrite take_S_r by done. by rewrite foldl_app.
Qed.

Lemma workingPass_dayStart :
  workingPass Math_sin st (initialRun st) = dayStart Math_sin st (numDays st).
Proof. reflexivity. Qed.

(** Induction over the day loop. *)
Lemma dayLoop_invariant (P : nat -> Run -> Prop) :
  P 0%nat (initialRun st) ->
  (forall d run shift, (d < numDays st)%nat -> shift ∈ workingShifts st ->
     P d run -> P d (scheduleShift Math_sin st d run shift)) ->
  (forall d run, (d < numDays st)%nat -> P d run -> P (S d) (updateConsecutive st d run)) ->
  (forall d, (d <= numDays st)%nat -> P d (dayStart Math_sin st d)) /\
  (forall d k, (d < numDays st)%nat -> P d (stateAt Math_sin st d k)).
Proof.
  intros Hinit Hshift Hday.
  assert (Hstate : forall d, (d < numDays st)%nat -> P d (dayStart Math_sin st d) -> forall k, P d (stateAt Math_sin st d k)).
  { intros d Hd Hstart k. unfold stateAt.
    apply (foldl_invariant (P d)); [done|].
    intros run shift Hin Hrun. apply Hshift; [done| |done].
    apply elem_of_take in Hin as (i & Hi & _). by eapply list_elem_of_lookup_2. }
  assert (Hstart : forall d, (d <= numDays st)%nat -> P d (dayStart Math_sin st d)).
  { induction d as [|d IH]; intros Hd; [done|].
    rewrite dayStart_S. apply Hday; [lia|]. apply Hstate; [lia|]. apply IH. lia. }
  split; [done|]. intros d k Hd. apply Hstate; [done|]. apply Hstart. lia.
Qed.

Lemma updateConsecutive_schedule d run :
  r_schedule (updateConsecutive st d run) = r_schedule run.
Proof. reflexivity. Qed.

Lemma rowsOk_scheduleShift d run shift :
  rowsOk st (r_schedule run) ->
  rowsOk st (r_schedule (scheduleShift Math_sin st d run shift)).
Proof.
  intros Hok. rewrite scheduleShift_schedule. by apply rowsOk_foldl_setCell.
Qed.

Lemma rowsOk_stateAt d k : (d < numDays st)%nat -> rowsOk st (r_schedule (stateAt Math_sin st d k)).
Proof.
  revert d k.
  apply (dayLoop_invariant (fun _ run => rowsOk st (r_schedule run))).
  - apply rowsOk_prefill.
  - intros d run shift _ _. apply rowsOk_scheduleShift.
  - done.
Qed.

Lemma rowsOk_dayStart d : (d <= numDays st)%nat -> rowsOk st (r_schedule (dayStart Math_sin st d)).
Proof.
  revert d.
  apply (dayLoop_invariant (fun _ run => rowsOk st (r_schedule run))).
  - apply rowsOk_prefill.
  - intros d run shift _ _. apply rowsOk_scheduleShift.
  - done.
Qed.

Lemma newlyAssigned_chosen d run shift :
  rowsOk st (r_schedule run) -> (d < numDays st)%nat ->
  newlyAssigned st d shift (r_schedule run)
    (r_schedule (scheduleShift Math_sin st d run shift)) ≡ₚ chosen Math_sin st d run shift.
Proof.
  intros Hok Hd.
  pose proof (NoDup_ids st) as Hids.
  apply NoDup_Permutation.
  - eapply sublist_NoDup; [|apply sublist_List_filter]. by apply (NoDup_fmap_1 id).
  - apply (NoDup_fmap_1 id), chosen_NoDup.
  - intros emp. unfold newlyAssigned.
    rewrite list_elem_of_In, filter_In, <- list_elem_of_In, andb_true_iff, !bool_decide_eq_true.
    rewrite scheduleShift_schedule.
    rewrite (getCell_foldl_setCell st); [|done| |done].
    2:{ intros e He. by apply chosen_available in He as [He _]. }
    split.
    + intros (Hall & Hnull & Hcode). case_decide as Hdec; [|congruence].
      destruct Hdec as [_ Hin]. apply list_elem_of_fmap in Hin as (emp' & Hid & Hemp').
      assert (emp = emp') as ->; [|done].
      apply (NoDup_fmap_eq id (allEmployees st)); try done.
      by apply chosen_available in Hemp' as [? _].
    + intros Hemp. pose proof (chosen_available _ _ _ _ _ _ Hemp) as [Hall Hav].
      split; [done|]. split; [by apply isAvailable_null in Hav|].
      rewrite decide_True; [done|]. split; [done|]. by apply list_elem_of_fmap_2.
Qed.
End Reach.

(** ** C5: shortfall warnings *)

#[local] Instance warningsGrow_refl : Reflexive warningsGrow.
Proof. intros r. unfold warningsGrow. reflexivity. Qed.

#[local] Instance warningsGrow_trans : Transitive warningsGrow.
Proof. intros r1 r2 r3. unfold warningsGrow. apply transitivity. Qed.

Section Warnings.
Variable Math_sin : Z -> Q.
Variable st : AppState.

Lemma scheduleShift_grows d run shift :
  warningsGrow run (scheduleShift Math_sin st d run shift).
Proof. unfold warningsGrow. rewrite scheduleShift_warnings. by apply prefix_app_r. Qed.

Lemma scheduleDay_grows run d : warningsGrow run (scheduleDay Math_sin st run d).
Proof.
  unfold scheduleDay. transitivity (foldl (scheduleShift Math_sin st d) run (workingShifts st)).
  - apply (foldl_related warningsGrow). intros r s _. apply scheduleShift_grows.
  - unfold warningsGrow. reflexivity.
Qed.

Lemma backupPass_warnings run : r_warnings (backupPass Math_sin st run) = r_warnings run.
Proof.
  unfold backupPass. destruct (List.find _ _) as [b|]; [|done].
  apply (foldl_invariant (fun r => r_warnings r = r_warnings run)); [done|].
  intros r d _ Hr.
  apply (foldl_invariant (fun r => r_warnings r = r_warnings run)); [done|].
  intros r' emp _ Hr'. unfold backupStep.
  destruct (_ && _); [|done]. by destruct (JS.Qltb _ _).
Qed.

Lemma adminPass_warnings run : r_warnings (adminPass Math_sin st run) = r_warnings run.
Proof.
  unfold adminPass. destruct (List.find _ _) as [a|]; [|done].
  apply (foldl_invariant (fun r => r_warnings r = r_warnings run)); [done|].
  intros r d _ Hr.
  apply (foldl_invariant (fun r => r_warnings r = r_warnings run)); [done|].
  intros r' emp _ Hr'. unfold adminStep.
  destruct (_ && _); [|done]. by destruct (JS.Qltb _ _).
Qed.

(** The warnings of the whole run: those of the day loop, then those of
    the audit. *)
Lemma finalRun_warnings :
  r_warnings (finalRun Math_sin st) =
    r_warnings (workingPass Math_sin st (initialRun st)) ++
    flat_map (auditWarning st (r_schedule (finalRun Math_sin st))) (allEmployees st).
Proof.
  unfold finalRun at 1. rewrite auditPass_warnings, adminPass_warnings, backupPass_warnings.
  f_equal. unfold finalRun. by rewrite auditPass_schedule.
Qed.

Lemma stateAt_grows_to_end d k :
  (d < numDays st)%nat ->
  warningsGrow (stateAt Math_sin st d k) (workingPass Math_sin st (initialRun st)).
Proof.
  intros Hd.
  transitivity (stateAt Math_sin st d (length (workingShifts st))).
  { unfold stateAt. rewrite firstn_all.
    rewrite <- (take_drop k (workingShifts st)) at 2. rewrite foldl_app.
    apply (foldl_related warningsGrow). intros r s _. apply scheduleShift_grows. }
  transitivity (dayStart Math_sin st (S d)).
  { rewrite dayStart_S. unfold warningsGrow. reflexivity. }
  unfold workingPass, dayStart, days.
  replace (numDays st) with (S d + (numDays st - S d))%nat by lia.
  rewrite seq_app, foldl_app.
  apply (foldl_related warningsGrow). intros r d' _. apply scheduleDay_grows.
Qed.
End Warnings.

(** C5. On day d, for the k-th working shift: with the number assigned
    counted on the grid (the employees whose cell of day d was empty before
    the shift was processed and holds its code after), exactly one warning is
    appended when that number is below the required count, and none
    otherwise; the warning names day d + 1, the shift code and the two
    counts, and it is in the warnings of the finished run.  The required
    count is the configured coverage, or 0 on a weekend under the 8x5
    preset. *)
Theorem shortfall_warning_iff_understaffed (Math_sin : Z -> Q) (st : AppState)
    (d k : nat) (shift : Shift) :
  allEmployees st <> [] ->
  (d < numDays st)%nat ->
  workingShifts st !! k = Some shift ->
  let before := stateAt Math_sin st d k in
  let after := stateAt Math_sin st d (S k) in
  let assigned :=
    Z.of_nat (length (newlyAssigned st d shift (r_schedule before) (r_schedule after))) in
  let configured :=
    match coverage shift with
    | Some c => c
    | None => getCoverageDefault (coveragePreset st) (code shift)
    end in
  let required :=
    if bool_decide (coveragePreset st = preset_8x5) && isWeekend st d then 0 else configured in
  requiredCount st d shift = required /\
  r_warnings after =
    r_warnings before ++
    (if assigned <? required
     then [Understaffed (Z.of_nat d + 1) (code shift) assigned required] else []) /\
  r_warnings after `prefix_of` warnings (runScheduler Math_sin st).
Proof.
  intros Hroster Hd Hk before after assigned configured required.
  assert (Hreq : requiredCount st d shift = required).
  { unfold requiredCount, required, configured.
    destruct (coveragePreset st); simpl; try done. }
  split; [done|].
  assert (Hafter : after = scheduleShift Math_sin st d before shift).
  { by apply stateAt_S. }
  assert (Hassigned : assigned = Z.of_nat (length (chosen Math_sin st d before shift))).
  { unfold assigned. rewrite Hafter.
    rewrite (newlyAssigned_chosen Math_sin st); [done| |done].
    by apply rowsOk_stateAt. }
  split.
  - rewrite Hafter, scheduleShift_warnings. unfold shortfall.
    by rewrite <- Hassigned, Hreq.
  - pose proof (stateAt_grows_to_end Math_sin st d (S k) Hd) as Hgrow.
    unfold warningsGrow in Hgrow. fold after in Hgrow.
    etransitivity; [exact Hgrow|].
    unfold runScheduler. destruct (allEmployees st); [done|].
    simpl. rewrite finalRun_warnings. by apply prefix_app_r.
Qed.

Lemma shortfall_warning_iff_understaffed_witness :
  r_warnings (stateAt sinZero scenarioD 2 1) =
    r_warnings (stateAt sinZero scenarioD 2 0) ++ [Understaffed 3 "D" 0 1] /\
  r_warnings (stateAt sinZero scenarioD 2 1) `prefix_of` warnings (runScheduler sinZero scenarioD).
Proof.
  apply (shortfall_warning_iff_understaffed sinZero scenarioD 2 0 dayShift).
  - vm_compute. discriminate.
  - vm_compute. lia.
  - vm_compute. reflexivity.
Defined.

(** ** C7: the consecutive-day audit *)

Section Audit.
Variable Math_sin : Z -> Q.
Variable st : AppState.

Lemma workingPass_shortfalls :
  Forall isShortfall (r_warnings (workingPass Math_sin st (initialRun st))).
Proof.
  rewrite workingPass_dayStart.
  apply (dayLoop_invariant Math_sin st (fun _ run => Forall isShortfall (r_warnings run))); [| | |done].
  - constructor.
  - intros d run shift _ _ Hrun. rewrite scheduleShift_warnings.
    apply Forall_app. split; [done|]. unfold shortfall.
    destruct (_ <? _); repeat constructor.
  - done.
Qed.

Lemma elem_of_auditWarning sch emp w :
  w ∈ auditWarning st sch emp <->
  maxConsecutiveDays (constraints st) < snd (scanRow (rowOf st sch (id emp))) /\
  w = TooManyConsecutive (name (m_emp emp)) (snd (scanRow (rowOf st sch (id emp))))
        (maxConsecutiveDays (constraints st)).
Proof.
  unfold auditWarning. simpl. destruct (Z.ltb_spec (maxConsecutiveDays (constraints st))
    (snd (scanRow (rowOf st sch (id emp))))) as [Hlt|Hge].
  - rewrite list_elem_of_singleton. split; [by intros -> | by intros [_ ->]].
  - split; [intros H; by apply elem_of_nil in H | lia].
Qed.

Lemma elem_of_finalRun_warnings name k m :
  TooManyConsecutive name k m ∈ r_warnings (finalRun Math_sin st) <->
  exists emp, emp ∈ allEmployees st /\
    TooManyConsecutive name k m ∈ auditWarning st (r_schedule (finalRun Math_sin st)) emp.
Proof.
  rewrite finalRun_warnings, elem_of_app. split.
  - intros [Hin|Hin].
    + pose proof workingPass_shortfalls as Hall.
      rewrite Forall_forall in Hall. by apply Hall in Hin.
    + apply list_elem_of_In, in_flat_map in Hin as (emp & Hemp & Hin).
      exists emp. by rewrite !list_elem_of_In.
  - intros (emp & Hemp & Hin). right.
    apply list_elem_of_In, in_flat_map. exists emp. by rewrite <- !list_elem_of_In.
Qed.
End Audit.

(** C7, amended. After the three passes, with n the longest run of
    consecutive days of an employee whose cell holds a shift code of any
    category (working, backup or admin; an empty cell, LEAVE and TAD break
    the run), a consecutive-day warning with the name of the employee and n
    is in the warnings exactly when n exceeds maxConsecutiveDays; and every
    consecutive-day warning with that name reports the limit and the longest
    such run of an employee of that name, which exceeds the limit. *)
Theorem consecutive_warning_iff_long_run (Math_sin : Z -> Q) (st : AppState) (emp : Member) :
  emp ∈ allEmployees st ->
  exists grid n,
    schedule (runScheduler Math_sin st) = Some grid /\
    longestRun countsAsWorked (rowOf st grid (id emp)) n /\
    (maxConsecutiveDays (constraints st) < n <->
     TooManyConsecutive (name (m_emp emp)) n (maxConsecutiveDays (constraints st))
       ∈ warnings (runScheduler Math_sin st)) /\
    (forall k m,
       TooManyConsecutive (name (m_emp emp)) k m ∈ warnings (runScheduler Math_sin st) ->
       m = maxConsecutiveDays (constraints st) /\ m < k /\
       exists emp', emp' ∈ allEmployees st /\ name (m_emp emp') = name (m_emp emp) /\
         longestRun countsAsWorked (rowOf st grid (id emp')) k).
Proof.
  intros Hemp.
  exists (r_schedule (finalRun Math_sin st)),
         (snd (scanRow (rowOf st (r_schedule (finalRun Math_sin st)) (id emp)))).
  assert (Hrun : schedule (runScheduler Math_sin st) = Some (r_schedule (finalRun Math_sin st)) /\
                 warnings (runScheduler Math_sin st) = r_warnings (finalRun Math_sin st)).
  { unfold runScheduler. destruct (allEmployees st); [by apply elem_of_nil in Hemp | done]. }
  destruct Hrun as [Hgrid ->].
  split; [done|]. split; [apply scanWith_spec|]. split; [split|].
  - intros Hlt. apply elem_of_finalRun_warnings. exists emp. split; [done|].
    by apply elem_of_auditWarning.
  - intros Hin. apply elem_of_finalRun_warnings in Hin as (emp' & _ & Hin).
    apply elem_of_auditWarning in Hin as [Hlt Heq]. injection Heq as _ Hk. by rewrite Hk.
  - intros k m Hin. apply elem_of_finalRun_warnings in Hin as (emp' & Hemp' & Hin).
    apply elem_of_auditWarning in Hin as [Hlt Heq]. injection Heq as Hname -> ->.
    split; [done|]. split; [done|]. exists emp'. split; [done|]. split; [done|].
    apply scanWith_spec.
Qed.

(** C7, as stated, fails: the working shift fills day 1, the cap leaves
    day 2 empty, the admin pass fills it, and the audit counts both days.
    The longest run of working-category days is 1, which does not exceed the
    limit 1, and yet the warning is raised. *)
Lemma admin_day_extends_the_run :
  (schedule (runScheduler sinZero adminFillState) ≫= fun grid => grid !! (0%nat, 0%nat))
    = Some [Some "D"%string; Some "A"%string] /\
  warnings (runScheduler sinZero adminFillState)
    = [Understaffed 2 "D" 0 1; TooManyConsecutive "Avery" 2 1] /\
  longestRun (holdsCategory (shifts adminFillState) working)
    [Some "D"%string; Some "A"%string] 1 /\
  ~ (maxConsecutiveDays (constraints adminFillState) < 1).
Proof.
  split; [by vm_compute|]. split; [by vm_compute|]. split.
  - exact (proj2 (scanWith_spec (holdsCategory (shifts adminFillState) working)
                    [Some "D"%string; Some "A"%string])).
  - vm_compute. discriminate.
Qed.

Lemma adminStep_ext (sin1 sin2 : Z -> Q) st a d run emp :
  sin1 (r_seed run) = sin2 (r_seed run) ->
  adminStep sin1 st a d run emp = adminStep sin2 st a d run emp.
Proof. intros H. unfold adminStep, seededRandom. by rewrite H. Qed.

(** The run on [adminFillState] draws one number, at seed 0: it is the same
    for every sine function that is 0 at 0. *)
Lemma adminFillState_any_sin (Math_sin : Z -> Q) :
  Math_sin 0 = 0%Q ->
  runScheduler Math_sin adminFillState = runScheduler sinZero adminFillState.
Proof.
  intros H0.
  assert (Hfinal : finalRun Math_sin adminFillState = finalRun sinZero adminFillState).
  { unfold finalRun. f_equal.
    assert (Hw : backupPass Math_sin adminFillState
                   (workingPass Math_sin adminFillState (initialRun adminFillState))
                 = backupPass sinZero adminFillState
                   (workingPass sinZero adminFillState (initialRun adminFillState))).
    { vm_compute. reflexivity. }
    rewrite Hw.
    set (w := backupPass sinZero adminFillState _). 
    unfold adminPass. simpl List.find. cbv iota.
    change (days adminFillState) with [0%nat; 1%nat].
    change (allEmployees adminFillState) with [memberOf 0 0 (free "Avery")].
    cbn [foldl].
    assert (Hday0 : forall f, adminStep f adminFillState adminShift 0 w
                      (memberOf 0 0 (free "Avery")) = w).
    { intros f. vm_compute. reflexivity. }
    rewrite !Hday0. apply adminStep_ext. exact H0. }
  unfold runScheduler. rewrite Hfinal. reflexivity.
Qed.

Lemma consecutive_warning_iff_long_run_witness :
  exists grid n,
    schedule (runScheduler sinZero adminFillState) = Some grid /\
    longestRun countsAsWorked (rowOf adminFillState grid (0%nat, 0%nat)) n /\
    (1 < n <-> TooManyConsecutive "Avery" n 1 ∈ warnings (runScheduler sinZero adminFillState)) /\
    (forall k m,
       TooManyConsecutive "Avery" k m ∈ warnings (runScheduler sinZero adminFillState) ->
       m = 1 /\ m < k /\
       exists emp', emp' ∈ allEmployees adminFillState /\
         name (m_emp emp') = "Avery"%string /\
         longestRun countsAsWorked (rowOf adminFillState grid (id emp')) k).
Proof.
  apply (consecutive_warning_iff_long_run sinZero adminFillState
           (memberOf 0 0 (free "Avery"))).
  apply list_elem_of_In. vm_compute. auto.
Defined.

(** ** C2: the run is a function of its inputs and the seed *)

Lemma sameInputs_finalRun Math_sin st1 st2 :
  sameInputs st1 st2 ->
  allEmployees st1 = allEmployees st2 /\ finalRun Math_sin st1 = finalRun Math_sin st2.
Proof.
  destruct st1, st2. unfold sameInputs. simpl.
  intros (-> & -> & -> & -> & -> & -> & -> & -> & -> & -> & ->).
  split; reflexivity.
Qed.

(** What a run stores is what a second run on the result stores again. *)
Lemma runScheduler_twice (Math_sin : Z -> Q) (st : AppState) :
  runScheduler Math_sin (runScheduler Math_sin st) = runScheduler Math_sin st.
Proof.
  assert (Hsame : sameInputs (runScheduler Math_sin st) st).
  { unfold runScheduler. destruct (allEmployees st); repeat split. }
  destruct (sameInputs_finalRun Math_sin _ _ Hsame) as [Hall Hfinal].
  unfold runScheduler at 1. rewrite Hall, Hfinal.
  unfold runScheduler. destruct (allEmployees st); reflexivity.
Qed.

(** C2. Two runs on states with the same inputs and the same seed store the
    same ordered list of warnings and, when the roster is not empty (the run
    is not refused), the same grid and the same fairness counters; whatever
    an earlier run left in the state has no influence. *)
Theorem same_inputs_same_outputs (Math_sin : Z -> Q) (st1 st2 : AppState) :
  sameInputs st1 st2 ->
  warnings (runScheduler Math_sin st1) = warnings (runScheduler Math_sin st2) /\
  (allEmployees st1 <> [] ->
   schedule (runScheduler Math_sin st1) = schedule (runScheduler Math_sin st2) /\
   shiftCounts (runScheduler Math_sin st1) = shiftCounts (runScheduler Math_sin st2) /\
   exists grid counts,
     schedule (runScheduler Math_sin st1) = Some grid /\
     shiftCounts (runScheduler Math_sin st1) = Some counts).
Proof.
  intros Hsame. destruct (sameInputs_finalRun Math_sin st1 st2 Hsame) as [Hall Hfinal].
  unfold runScheduler. rewrite <- Hall, Hfinal.
  destruct (allEmployees st1); simpl; [done|].
  split; [done|]. intros _. split; [done|]. split; [done|]. eauto.
Qed.

Lemma same_inputs_same_outputs_witness :
  warnings (runScheduler sinZero scenarioB) = warnings (runScheduler sinZero scenarioBAgain) /\
  (allEmployees scenarioB <> [] ->
   schedule (runScheduler sinZero scenarioB) = schedule (runScheduler sinZero scenarioBAgain) /\
   shiftCounts (runScheduler sinZero scenarioB)
     = shiftCounts (runScheduler sinZero scenarioBAgain) /\
   exists grid counts,
     schedule (runScheduler sinZero scenarioB) = Some grid /\
     shiftCounts (runScheduler sinZero scenarioB) = Some counts).
Proof.
  apply (same_inputs_same_outputs sinZero scenarioB scenarioBAgain).
  vm_compute. repeat split; reflexivity.
Defined.

(** ** C4: the fairness sort *)

Lemma Qltb_true a b : JS.Qltb a b = true <-> (a < b)%Q.
Proof.
  unfold JS.Qltb. rewrite Qlt_alt. destruct (a ?= b)%Q; split; intros; congruence.
Qed.

Section Noise.
Variable Math_sin : Z -> Q.

Lemma seededRandom_range seed :
  (0 <= seededRandom Math_sin seed)%Q /\ (seededRandom Math_sin seed < 1)%Q.
Proof.
  unfold seededRandom.
  set (x := (Math_sin seed * inject_Z 10000)%Q).
  pose proof (Qfloor_le x) as Hle. pose proof (Qlt_floor x) as Hlt.
  rewrite inject_Z_plus in Hlt. change (inject_Z 1) with 1%Q in Hlt.
  split; lra.
Qed.

Lemma fairnessCompare_value counts shift a b seed :
  (fst (fairnessCompare Math_sin counts shift a b seed) ==
     (inject_Z (baseScore counts shift a) + seededRandom Math_sin seed * (1 # 2))
     - (inject_Z (baseScore counts shift b) + seededRandom Math_sin (seed + 1) * (1 # 2)))%Q /\
  snd (fairnessCompare Math_sin counts shift a b seed) = seed + 2.
Proof.
  unfold fairnessCompare, baseScore. simpl. split; [|done].
  destruct (String.eqb (code shift) "N").
  - rewrite !inject_Z_plus. lra.
  - rewrite !Z.add_0_r. lra.
Qed.

Lemma fairnessCompare_lt counts shift a b seed :
  baseScore counts shift a < baseScore counts shift b ->
  JS.Qltb 0 (fst (fairnessCompare Math_sin counts shift a b seed)) = false.
Proof.
  intros Hlt. apply not_true_iff_false. rewrite Qltb_true.
  destruct (fairnessCompare_value counts shift a b seed) as [-> _].
  pose proof (seededRandom_range seed) as [? ?].
  pose proof (seededRandom_range (seed + 1)) as [? ?].
  assert (inject_Z (baseScore counts shift a) + 1 <= inject_Z (baseScore counts shift b))%Q.
  { change 1%Q with (inject_Z 1). rewrite <- inject_Z_plus, <- Zle_Qle. lia. }
  lra.
Qed.

Lemma fairnessCompare_gt counts shift a b seed :
  baseScore counts shift b < baseScore counts shift a ->
  JS.Qltb 0 (fst (fairnessCompare Math_sin counts shift a b seed)) = true.
Proof.
  intros Hlt. rewrite Qltb_true.
  destruct (fairnessCompare_value counts shift a b seed) as [-> _].
  pose proof (seededRandom_range seed) as [? ?].
  pose proof (seededRandom_range (seed + 1)) as [? ?].
  assert (inject_Z (baseScore counts shift b) + 1 <= inject_Z (baseScore counts shift a))%Q.
  { change 1%Q with (inject_Z 1). rewrite <- inject_Z_plus, <- Zle_Qle. lia. }
  lra.
Qed.
End Noise.

Section SortedByKey.
Context {A S : Type}.
Variable compareFn : A -> A -> S -> Q * S.
Variable key : A -> Z.
Hypothesis compare_lt : forall a b s, key a < key b -> JS.Qltb 0 (fst (compareFn a b s)) = false.
Hypothesis compare_gt : forall a b s, key b < key a -> JS.Qltb 0 (fst (compareFn a b s)) = true.

Lemma insertSorted_descending x r s :
  StronglySorted (fun a b => key b <= key a) r ->
  StronglySorted (fun a b => key b <= key a) (fst (insertSorted compareFn x r s)).
Proof.
  revert s. induction r as [|y r IH]; intros s Hsorted; simpl.
  - repeat constructor.
  - apply StronglySorted_inv in Hsorted as [Hr Hy].
    destruct (compareFn y x s) as [c s1] eqn:Hc.
    destruct (JS.Qltb 0 c) eqn:Hpos.
    + specialize (IH s1 Hr).
      pose proof (insertSorted_perm compareFn x r s1) as Hperm.
      destruct (insertSorted compareFn x r s1) as [r' s2]. simpl in *.
      constructor; [done|].
      rewrite Hperm. constructor; [|done].
      destruct (Z.lt_ge_cases (key y) (key x)) as [Hlt|Hge]; [|lia].
      pose proof (compare_lt y x s Hlt) as Hfalse. rewrite Hc in Hfalse. simpl in Hfalse. congruence.
    + simpl. constructor; [by constructor|].
      assert (key y <= key x) as Hyx.
      { destruct (Z.lt_ge_cases (key x) (key y)) as [Hlt|Hge]; [|lia].
        pose proof (compare_gt y x s Hlt) as Htrue. rewrite Hc in Htrue. simpl in Htrue. congruence. }
      constructor; [done|].
      eapply Forall_impl; [exact Hy|]. simpl. intros z Hz. lia.
Qed.

Lemma StronglySorted_rev_descending (l : list A) :
  StronglySorted (fun a b => key b <= key a) l ->
  StronglySorted (fun a b => key a <= key b) (rev l).
Proof.
  induction l as [|x l IH]; intros Hsorted; simpl; [constructor|].
  apply StronglySorted_inv in Hsorted as [Hl Hx].
  apply StronglySorted_app_2; [| by apply IH | repeat constructor].
  intros a b Ha Hb. apply list_elem_of_singleton in Hb as ->.
  rewrite Forall_forall in Hx. apply Hx.
  by apply list_elem_of_In, in_rev, list_elem_of_In.
Qed.

Lemma Array_sort_ascending l s :
  StronglySorted (fun a b => key a <= key b) (fst (Array_sort compareFn l s)).
Proof.
  unfold Array_sort.
  assert (Hgen : forall acc, StronglySorted (fun a b => key b <= key a) (fst acc) ->
    StronglySorted (fun a b => key b <= key a)
      (fst (foldl (fun acc x => insertSorted compareFn x (fst acc) (snd acc)) acc l))).
  { induction l as [|x l IH]; intros acc Hacc; simpl; [done|].
    apply IH. by apply insertSorted_descending. }
  specialize (Hgen ([], s)). destruct (foldl _ _ l) as [r s']. simpl in *.
  apply StronglySorted_rev_descending, Hgen. constructor.
Qed.
End SortedByKey.

(** C4, as stated, fails.  The sort computes no score per candidate: with
    one candidate it makes no comparison and draws nothing (the seed stays 0,
    where the scoring of C4 would leave it at 2), and with two candidates it
    makes one comparison with one draw for each side (the seed moves to 2,
    not to 4). *)
Lemma no_score_for_a_single_candidate :
  sortedCandidates sinZero scenarioA 0 (initialRun scenarioA) dayShift
    = ([memberOf 0 0 (free "Avery")], 0) /\
  sortByScoreOnce sinZero (r_shiftCounts (initialRun scenarioA)) dayShift
      [memberOf 0 0 (free "Avery")] 0
    = ([memberOf 0 0 (free "Avery")], 2) /\
  snd (sortedCandidates sinZero twoFree 0 (initialRun twoFree) dayShift) = 2 /\
  snd (sortByScoreOnce sinZero (r_shiftCounts (initialRun twoFree)) dayShift
         [memberOf 0 0 (free "Avery"); memberOf 0 1 (free "Blake")] 0) = 4.
Proof. vm_compute. auto. Qed.

(** The counterexample does not depend on the sine. *)
Lemma sortedCandidates_single_any_sin (Math_sin : Z -> Q) :
  sortedCandidates Math_sin scenarioA 0 (initialRun scenarioA) dayShift
    = ([memberOf 0 0 (free "Avery")], 0).
Proof. vm_compute. reflexivity. Qed.

Lemma sortedCandidates_two_any_sin (Math_sin : Z -> Q) :
  snd (sortedCandidates Math_sin twoFree 0 (initialRun twoFree) dayShift) = 2 /\
  snd (sortByScoreOnce Math_sin (r_shiftCounts (initialRun twoFree)) dayShift
         [memberOf 0 0 (free "Avery"); memberOf 0 1 (free "Blake")] 0) = 4.
Proof.
  split.
  - unfold sortedCandidates.
    change (List.filter _ _) with [memberOf 0 0 (free "Avery"); memberOf 0 1 (free "Blake")].
    unfold Array_sort. cbn [foldl insertSorted fst snd].
    change (r_seed (initialRun twoFree)) with 0.
    destruct (fairnessCompare _ _ _ _ _ _) as [c s1] eqn:Hc.
    assert (s1 = 2) as -> by (by injection Hc as _ <-).
    by destruct (JS.Qltb 0 c).
  - unfold sortByScoreOnce. cbn [scoreOnce].
    by destruct (Array_sort _ _ _).
Qed.

(** ** The sort of an engine *)

Lemma omap_lookup_seq_app {A} (pre l : list A) :
  omap (fun i => (pre ++ l) !! i) (seq (length pre) (length l)) = l.
Proof.
  revert pre. induction l as [|x l IH]; intros pre; [done|].
  cbn [length seq omap list_omap].
  rewrite list_lookup_middle by done. f_equal.
  specialize (IH (pre ++ [x])). rewrite <- app_assoc, length_app in IH. cbn in IH.
  by rewrite Nat.add_1_r in IH.
Qed.

Lemma omap_lookup_seq {A} (l : list A) : omap (fun i => l !! i) (seq 0 (length l)) = l.
Proof. apply (omap_lookup_seq_app []). Qed.

Lemma Qltb_false a b : JS.Qltb a b = false <-> (b <= a)%Q.
Proof.
  rewrite <- not_true_iff_false, Qltb_true. split; [apply Qnot_lt_le | apply Qle_not_lt].
Qed.

Section SortWithFacts.
Context {A State : Type}.
Variable compareFn : A -> A -> State -> Q * State.

Lemma omap_sorted (key : A -> Z) (l : list A) (order : list nat) :
  StronglySorted (fun i j => from_option key 0 (l !! i) <= from_option key 0 (l !! j)) order ->
  StronglySorted (fun a b => key a <= key b) (omap (fun i => l !! i) order).
Proof.
  induction 1 as [|i order _ IH Hi]; [constructor|].
  cbn [omap list_omap]. destruct (l !! i) as [a|] eqn:Ha; [|done].
  constructor; [done|].
  clear IH. induction order as [|j order IH]; [constructor|].
  apply Forall_cons in Hi as [Hj Hi]. cbn [omap list_omap].
  destruct (l !! j) as [b|] eqn:Hb; [|by apply IH].
  constructor; [by simpl in Hj | by apply IH].
Qed.

Lemma runPlan_sorts (key : A -> Z) (l : list A) (plan : SortPlan) (s : State) :
  planSorts (length l) (fun i => from_option key 0 (l !! i)) plan ->
  (forall a b s, key a < key b -> (fst (compareFn a b s) < 0)%Q) ->
  (forall a b s, key b < key a -> (0 < fst (compareFn a b s))%Q) ->
  fst (runPlan compareFn l plan s) ≡ₚ l /\
  StronglySorted (fun a b => key a <= key b) (fst (runPlan compareFn l plan s)).
Proof.
  intros Hplan Hlt Hgt. revert s Hplan.
  induction plan as [order|i j next IH]; intros s.
  - intros [Hperm Hsorted]. cbn [runPlan fst]. split; [|by apply omap_sorted].
    by rewrite Hperm, omap_lookup_seq.
  - intros (Hi & Hj & Hnext). cbn [runPlan].
    apply lookup_lt_is_Some_2 in Hi as [a Ha]. apply lookup_lt_is_Some_2 in Hj as [b Hb].
    rewrite Ha, Hb in *. simpl in Hnext.
    specialize (Hnext (fst (compareFn a b s)) (Hlt a b s) (Hgt a b s)).
    destruct (compareFn a b s) as [c s']. by apply IH.
Qed.

Lemma runPlan_calls (step : State -> State) (l : list A) (plan : SortPlan) (s : State) :
  (forall a b s, snd (compareFn a b s) = step s) ->
  snd (runPlan compareFn l plan s) = Nat.iter (planCalls compareFn l plan s) step s.
Proof.
  intros Hstep. revert s. induction plan as [order|i j next IH]; intros s; [done|].
  cbn [runPlan planCalls].
  destruct (l !! i) as [a|]; [|done]. destruct (l !! j) as [b|]; [|done].
  specialize (Hstep a b s). destruct (compareFn a b s) as [c s']. simpl in Hstep. subst s'.
  rewrite IH. cbn [Nat.iter]. by rewrite Nat.iter_swap.
Qed.

Lemma sortWith_short (engine : nat -> SortPlan) (l : list A) (s : State) :
  engineSorts engine -> (length l <= 1)%nat ->
  sortWith compareFn engine l s = (l, s) /\ callsWith compareFn engine l s = 0%nat.
Proof.
  intros [Hshort Hplan] Hl. unfold sortWith, callsWith.
  specialize (Hplan (length l) (fun _ => 0)).
  destruct (Hshort (length l) ltac:(lia)) as [order Horder]. rewrite Horder in *.
  destruct Hplan as [Hperm _]. cbn [runPlan planCalls]. split; [|done]. f_equal.
  assert (Hres : omap (fun i => l !! i) order ≡ₚ l) by by rewrite Hperm, omap_lookup_seq.
  destruct l as [|x [|y l]]; simpl in Hl; [| |lia].
  - by apply Permutation_nil_r in Hres.
  - by apply Permutation_singleton_r in Hres.
Qed.
End SortWithFacts.

(** ** The sort of V8 orders by every key *)

Section V8Sorts.
Variable n : nat.
Variable key : nat -> Z.

Lemma sorted_around (pre : list nat) (m x : nat) :
  StronglySorted (fun i j => key i <= key j) pre ->
  pre !! m = Some x ->
  Forall (fun i => key i <= key x) (take (S m) pre) /\
  Forall (fun i => key x <= key i) (drop m pre).
Proof.
  intros Hsorted Hm.
  pose proof (take_drop_middle pre m x Hm) as Hsplit.
  rewrite <- Hsplit in Hsorted.
  rewrite (take_S_r pre m x Hm), (drop_S pre x m Hm).
  split.
  - apply Forall_app. split; [|by repeat constructor].
    apply Forall_forall. intros i Hi.
    apply (StronglySorted_app_1_elem_of _ _ _ i x Hsorted); [done | by left].
  - apply StronglySorted_app_1_r in Hsorted.
    apply StronglySorted_inv in Hsorted as [_ Hx]. constructor; [lia | done].
Qed.

Lemma v8Search_sorts (fuel : nat) (pre : list nat) (pivot left right : nat) (k : nat -> SortPlan) :
  (right - left <= fuel)%nat ->
  (left <= right <= length pre)%nat ->
  (pivot < n)%nat ->
  Forall (fun i => (i < n)%nat) pre ->
  StronglySorted (fun i j => key i <= key j) pre ->
  Forall (fun i => key i <= key pivot) (take left pre) ->
  Forall (fun i => key pivot <= key i) (drop right pre) ->
  (forall p, (p <= length pre)%nat ->
     Forall (fun i => key i <= key pivot) (take p pre) ->
     Forall (fun i => key pivot <= key i) (drop p pre) ->
     planSorts n key (k p)) ->
  planSorts n key (v8Search fuel pre pivot left right k).
Proof.
  intros Hfuel Hlr Hpivot Hbound Hsorted Hleft Hright Hk.
  revert left right Hfuel Hlr Hleft Hright.
  induction fuel as [|fuel IH]; intros left right Hfuel Hlr Hleft Hright; cbn [v8Search].
  - assert (left = right) as -> by lia. apply Hk; [lia | done | done].
  - destruct (Nat.ltb_spec left right) as [Hlt|Hge].
    2:{ assert (left = right) as -> by lia. apply Hk; [lia | done | done]. }
    set (mid := (left + (right - left) / 2)%nat).
    assert (Hmid : (left <= mid < right)%nat).
    { unfold mid. pose proof (Nat.Div0.div_le_upper_bound (right - left) 2 (right - left)).
      pose proof (Nat.Div0.div_lt_upper_bound (right - left) 2 (right - left)). lia. }
    destruct (lookup_lt_is_Some_2 pre mid ltac:(lia)) as [x Hx].
    rewrite (nth_lookup_Some pre mid 0%nat x Hx).
    assert (Hxn : (x < n)%nat).
    { rewrite Forall_forall in Hbound. apply Hbound. by eapply list_elem_of_lookup_2. }
    destruct (sorted_around pre mid x Hsorted Hx) as [Hbefore Hafter].
    cbn [planSorts]. split; [done|]. split; [done|].
    intros c Hneg Hpos.
    destruct (JS.Qltb c 0) eqn:Hc.
    + apply Qltb_true in Hc.
      assert (key pivot <= key x) as Hpx.
      { destruct (Z.lt_ge_cases (key x) (key pivot)) as [Hlt'|]; [|done].
        specialize (Hpos Hlt'). lra. }
      apply IH; [lia | lia | done |].
      eapply Forall_impl; [exact Hafter|]. simpl. intros i Hi. lia.
    + apply Qltb_false in Hc.
      assert (key x <= key pivot) as Hxp.
      { destruct (Z.lt_ge_cases (key pivot) (key x)) as [Hlt'|]; [|done].
        specialize (Hneg Hlt'). lra. }
      apply IH; [lia | lia | | done].
      eapply Forall_impl; [exact Hbefore|]. simpl. intros i Hi. lia.
Qed.

Lemma v8BinaryInsertion_sorts (pre rest : list nat) :
  pre ++ rest ≡ₚ seq 0 n ->
  StronglySorted (fun i j => key i <= key j) pre ->
  planSorts n key (v8BinaryInsertion pre rest).
Proof.
  revert pre. induction rest as [|pivot rest IH]; intros pre Hperm Hsorted; cbn [v8BinaryInsertion].
  - rewrite app_nil_r in Hperm. by split.
  - assert (Hbound : Forall (fun i => (i < n)%nat) (pre ++ pivot :: rest)).
    { apply Forall_forall. intros i Hi. rewrite Hperm in Hi. apply elem_of_seq in Hi. lia. }
    apply Forall_app in Hbound as [Hpre Hrest]. apply Forall_cons in Hrest as [Hpivot _].
    apply v8Search_sorts; try done.
    + lia.
    + lia.
    + by rewrite drop_all.
    + intros p Hp Hbefore Hafter. apply IH.
      * rewrite <- Hperm. rewrite <- (take_drop p pre) at 3.
        rewrite <- !app_assoc. apply Permutation_app_head.
        cbn [app]. by rewrite Permutation_middle.
      * rewrite <- (take_drop p pre) in Hsorted.
        apply StronglySorted_app_2.
        -- intros a b Ha Hb. apply elem_of_cons in Hb as [->|Hb].
           ++ rewrite Forall_forall in Hbefore. by apply Hbefore.
           ++ by apply (StronglySorted_app_1_elem_of _ _ _ a b Hsorted).
        -- by apply StronglySorted_app_1_l in Hsorted.
        -- constructor; [by apply StronglySorted_app_1_r in Hsorted | done].
Qed.

Lemma v8CountRun_sorts (isDescending : bool) (run rest : list nat)
    (k : list nat -> list nat -> SortPlan) :
  run <> [] ->
  run ++ rest ≡ₚ seq 0 n ->
  runSorted key isDescending run ->
  (forall run' rest', run' ++ rest' ≡ₚ seq 0 n -> runSorted key isDescending run' ->
     planSorts n key (k run' rest')) ->
  planSorts n key (v8CountRun isDescending run rest k).
Proof.
  intros Hne Hperm Hrun Hk. revert run Hne Hperm Hrun.
  induction rest as [|current rest IH]; intros run Hne Hperm Hrun; cbn [v8CountRun].
  - by apply Hk.
  - destruct run as [|previous run]; [done|]. cbn [hd].
    assert (Hbound : Forall (fun i => (i < n)%nat) ((previous :: run) ++ current :: rest)).
    { apply Forall_forall. intros i Hi. rewrite Hperm in Hi. apply elem_of_seq in Hi. lia. }
    apply Forall_app in Hbound as [Hp Hc].
    apply Forall_cons in Hp as [Hp _]. apply Forall_cons in Hc as [Hc _].
    cbn [planSorts]. split; [done|]. split; [done|].
    intros c Hneg Hpos.
    assert (Hnext : (previous :: run) ++ current :: rest ≡ₚ (current :: previous :: run) ++ rest).
    { cbn [app]. rewrite <- Permutation_middle. apply perm_swap. }
    destruct isDescending; cbn [runSorted] in *.
    + destruct (JS.Qltb c 0) eqn:Hlt; cbn [negb]; [|by apply Hk].
      apply Qltb_true in Hlt.
      assert (key current <= key previous) as Hcp.
      { destruct (Z.lt_ge_cases (key previous) (key current)) as [Hlt'|]; [|done].
        specialize (Hpos Hlt'). lra. }
      apply IH; [done | by rewrite <- Hnext |].
      constructor; [done|]. apply StronglySorted_inv in Hrun as [_ Hall].
      constructor; [done|]. eapply Forall_impl; [exact Hall|]. simpl. intros i Hi. lia.
    + destruct (JS.Qltb c 0) eqn:Hlt; [by apply Hk|].
      apply Qltb_false in Hlt.
      assert (key previous <= key current) as Hpc.
      { destruct (Z.lt_ge_cases (key current) (key previous)) as [Hlt'|]; [|done].
        specialize (Hneg Hlt'). lra. }
      apply IH; [done | by rewrite <- Hnext |].
      constructor; [done|]. apply StronglySorted_inv in Hrun as [_ Hall].
      constructor; [done|]. eapply Forall_impl; [exact Hall|]. simpl. intros i Hi. lia.
Qed.

End V8Sorts.

Lemma v8Sort_sorts (n : nat) (key : nat -> Z) : planSorts n key (v8Sort n).
Proof.
  unfold v8Sort. destruct n as [|[|m]].
  - split; [done | constructor].
  - split; [done | repeat constructor].
  - cbn [planSorts]. split; [lia|]. split; [lia|].
    intros c Hneg Hpos.
    replace (S (S m) - 2)%nat with m by lia.
    apply v8CountRun_sorts.
    + done.
    + cbn [app seq]. apply perm_swap.
    + unfold runSorted. destruct (JS.Qltb c 0) eqn:Hlt.
      * apply Qltb_true in Hlt.
        assert (key 1%nat <= key 0%nat).
        { destruct (Z.lt_ge_cases (key 0%nat) (key 1%nat)) as [Hlt'|]; [|done].
          specialize (Hpos Hlt'). lra. }
        repeat constructor. done.
      * apply Qltb_false in Hlt.
        assert (key 0%nat <= key 1%nat).
        { destruct (Z.lt_ge_cases (key 1%nat) (key 0%nat)) as [Hlt'|]; [|done].
          specialize (Hneg Hlt'). lra. }
        repeat constructor. done.
    + intros run rest Hperm Hrun. apply v8BinaryInsertion_sorts.
      * destruct (JS.Qltb c 0); [done|]. by rewrite <- Permutation_rev.
      * unfold runSorted in Hrun. destruct (JS.Qltb c 0); [done|].
        by apply (StronglySorted_rev_descending key).
Qed.


Lemma v8Sort_engineSorts : engineSorts v8Sort.
Proof.
  split.
  - intros n Hn. exists (seq 0 n). by destruct n as [|[|n]]; [| |lia].
  - intros n key. apply v8Sort_sorts.
Qed.

(** ** The candidates on an engine *)

Section OnAnEngine.
Variable engine : nat -> SortPlan.
Variable Math_sin : Z -> Q.
Variable st : AppState.

Lemma fairnessCompare_negative counts shift a b seed :
  baseScore counts shift a < baseScore counts shift b ->
  (fst (fairnessCompare Math_sin counts shift a b seed) < 0)%Q.
Proof.
  intros Hlt.
  destruct (fairnessCompare_value Math_sin counts shift a b seed) as [-> _].
  pose proof (seededRandom_range Math_sin seed) as [? ?].
  pose proof (seededRandom_range Math_sin (seed + 1)) as [? ?].
  assert (inject_Z (baseScore counts shift a) + 1 <= inject_Z (baseScore counts shift b))%Q.
  { change 1%Q with (inject_Z 1). rewrite <- inject_Z_plus, <- Zle_Qle. lia. }
  lra.
Qed.

Lemma fairnessCompare_positive counts shift a b seed :
  baseScore counts shift b < baseScore counts shift a ->
  (0 < fst (fairnessCompare Math_sin counts shift a b seed))%Q.
Proof.
  intros Hlt.
  destruct (fairnessCompare_value Math_sin counts shift a b seed) as [-> _].
  pose proof (seededRandom_range Math_sin seed) as [? ?].
  pose proof (seededRandom_range Math_sin (seed + 1)) as [? ?].
  assert (inject_Z (baseScore counts shift b) + 1 <= inject_Z (baseScore counts shift a))%Q.
  { change 1%Q with (inject_Z 1). rewrite <- inject_Z_plus, <- Zle_Qle. lia. }
  lra.
Qed.

Lemma iter_two_draws (calls : nat) (seed : Z) :
  Nat.iter calls (fun s => s + 2) seed = seed + 2 * Z.of_nat calls.
Proof.
  induction calls as [|calls IH]; [simpl; lia|].
  rewrite Nat.iter_succ, IH. lia.
Qed.

Lemma sortedCandidatesWith_seed d run shift :
  snd (sortedCandidatesWith engine Math_sin st d run shift) =
    r_seed run + 2 * Z.of_nat (comparisonsWith engine Math_sin st d run shift).
Proof.
  unfold sortedCandidatesWith, comparisonsWith, sortWith, callsWith.
  rewrite (runPlan_calls _ (fun s => s + 2)); [apply iter_two_draws|].
  intros a b s. apply fairnessCompare_value.
Qed.

Lemma scheduleShiftWith_schedule d run shift :
  r_schedule (scheduleShiftWith engine Math_sin st d run shift) =
    foldl (fun sch emp => setCell sch (id emp) d (Some (code shift))) (r_schedule run)
      (take (Z.to_nat (requiredCount st d shift))
            (fst (sortedCandidatesWith engine Math_sin st d run shift))).
Proof.
  unfold scheduleShiftWith, sortedCandidatesWith.
  destruct (sortWith _ _ _ _) as [sorted seed']. cbn [fst].
  rewrite assignLoop_take, Z.sub_0_r.
  destruct (foldl_assignShift_fields d shift
              (take (Z.to_nat (requiredCount st d shift)) sorted) (withSeed seed' run))
    as (_ & _ & _ & Hs).
  destruct (_ <? _); simpl; by rewrite Hs.
Qed.

(** Where the sort is not consulted, on fewer than two candidates, the step
    on an engine is the step of the run. *)
Lemma scheduleShiftWith_short d run shift :
  engineSorts engine ->
  (length (List.filter (isAvailable st run d shift) (allEmployees st)) <= 1)%nat ->
  scheduleShiftWith engine Math_sin st d run shift = scheduleShift Math_sin st d run shift.
Proof.
  intros Hengine Hshort. unfold scheduleShiftWith, scheduleShift.
  destruct (sortWith_short (fairnessCompare Math_sin (r_shiftCounts run) shift) engine
              _ (r_seed run) Hengine Hshort) as [-> _].
  by rewrite Array_sort_short.
Qed.
End OnAnEngine.

(** C4, amended. For every day and working shift the candidates are ordered
    by [available.sort] with a comparator that draws afresh at every call:
    each comparison of two candidates a and b takes two successive draws,
    one for each side, and returns totalAssigned + (2 * nightAssigned for the
    night shift) + noise of a minus that of b, each noise in [0, 0.5); no
    score is kept for a candidate, and the seed after the sort is the seed
    before it plus two for every comparison that the engine made.  On every
    engine that sorts (it makes no call on fewer than two elements, and it
    leaves a list in the order of a key whenever every comparison of two
    elements with different keys is answered by the keys), the order that
    the sort leaves is a rearrangement of the candidates, ascending in
    totalAssigned + (2 * nightAssigned for the night shift); fewer than two
    candidates are left as they are and nothing is drawn; and the shift is
    written into the cells of the first candidates in that order, until
    requiredCount are filled or the candidates are exhausted. *)
Theorem candidates_ordered_by_comparisons (engine : nat -> SortPlan) (Math_sin : Z -> Q)
    (st : AppState) (d : nat) (run : Run) (shift : Shift) :
  engineSorts engine ->
  let available := List.filter (isAvailable st run d shift) (allEmployees st) in
  let sorted := fst (sortedCandidatesWith engine Math_sin st d run shift) in
  let base := baseScore (r_shiftCounts run) shift in
  let noise := fun seed => (seededRandom Math_sin seed * (1 # 2))%Q in
  let assignedTo := take (Z.to_nat (requiredCount st d shift)) sorted in
  (forall a b seed,
     (fst (fairnessCompare Math_sin (r_shiftCounts run) shift a b seed) ==
        (inject_Z (base a) + noise seed) - (inject_Z (base b) + noise (seed + 1)%Z))%Q /\
     snd (fairnessCompare Math_sin (r_shiftCounts run) shift a b seed) = seed + 2 /\
     (0 <= noise seed)%Q /\ (noise seed < 1 # 2)%Q) /\
  snd (sortedCandidatesWith engine Math_sin st d run shift) =
    r_seed run + 2 * Z.of_nat (comparisonsWith engine Math_sin st d run shift) /\
  sorted ≡ₚ available /\
  StronglySorted (fun a b => base a <= base b) sorted /\
  ((length available <= 1)%nat ->
     sortedCandidatesWith engine Math_sin st d run shift = (available, r_seed run)) /\
  r_schedule (scheduleShiftWith engine Math_sin st d run shift) =
    foldl (fun sch emp => setCell sch (id emp) d (Some (code shift))) (r_schedule run) assignedTo /\
  length assignedTo = Nat.min (Z.to_nat (requiredCount st d shift)) (length available).
Proof.
  intros Hengine available sorted base noise assignedTo.
  assert (Hsort : sorted ≡ₚ available /\ StronglySorted (fun a b => base a <= base b) sorted).
  { apply (runPlan_sorts _ base).
    - apply Hengine.
    - intros a b s. apply fairnessCompare_negative.
    - intros a b s. apply fairnessCompare_positive. }
  destruct Hsort as [Hperm Hsorted].
  split; [|split; [|split; [|split; [|split; [|split]]]]].
  - intros a b seed.
    destruct (fairnessCompare_value Math_sin (r_shiftCounts run) shift a b seed) as [Hv Hs].
    pose proof (seededRandom_range Math_sin seed) as [? ?].
    unfold noise, base. split; [exact Hv|]. split; [exact Hs|]. split; lra.
  - apply sortedCandidatesWith_seed.
  - exact Hperm.
  - exact Hsorted.
  - intros Hshort. by apply sortWith_short.
  - apply scheduleShiftWith_schedule.
  - unfold assignedTo. rewrite length_take. f_equal. by rewrite Hperm.
Qed.

Lemma candidates_ordered_by_comparisons_witness :
  (forall a b seed,
     (fst (fairnessCompare sinZero (r_shiftCounts (initialRun twoFree)) dayShift a b seed) ==
        (inject_Z (baseScore (r_shiftCounts (initialRun twoFree)) dayShift a)
           + seededRandom sinZero seed * (1 # 2))
        - (inject_Z (baseScore (r_shiftCounts (initialRun twoFree)) dayShift b)
           + seededRandom sinZero (seed + 1)%Z * (1 # 2)))%Q /\
     snd (fairnessCompare sinZero (r_shiftCounts (initialRun twoFree)) dayShift a b seed) = seed + 2 /\
     (0 <= seededRandom sinZero seed * (1 # 2))%Q /\
     (seededRandom sinZero seed * (1 # 2) < 1 # 2)%Q) /\
  snd (sortedCandidatesWith v8Sort sinZero twoFree 0 (initialRun twoFree) dayShift) =
    r_seed (initialRun twoFree)
    + 2 * Z.of_nat (comparisonsWith v8Sort sinZero twoFree 0 (initialRun twoFree) dayShift) /\
  fst (sortedCandidatesWith v8Sort sinZero twoFree 0 (initialRun twoFree) dayShift) ≡ₚ
    List.filter (isAvailable twoFree (initialRun twoFree) 0 dayShift) (allEmployees twoFree) /\
  StronglySorted
    (fun a b => baseScore (r_shiftCounts (initialRun twoFree)) dayShift a
                <= baseScore (r_shiftCounts (initialRun twoFree)) dayShift b)
    (fst (sortedCandidatesWith v8Sort sinZero twoFree 0 (initialRun twoFree) dayShift)) /\
  ((length (List.filter (isAvailable twoFree (initialRun twoFree) 0 dayShift)
                        (allEmployees twoFree)) <= 1)%nat ->
     sortedCandidatesWith v8Sort sinZero twoFree 0 (initialRun twoFree) dayShift =
       (List.filter (isAvailable twoFree (initialRun twoFree) 0 dayShift) (allEmployees twoFree),
        r_seed (initialRun twoFree))) /\
  r_schedule (scheduleShiftWith v8Sort sinZero twoFree 0 (initialRun twoFree) dayShift) =
    foldl (fun sch emp => setCell sch (id emp) 0 (Some (code dayShift)))
      (r_schedule (initialRun twoFree))
      (take (Z.to_nat (requiredCount twoFree 0 dayShift))
            (fst (sortedCandidatesWith v8Sort sinZero twoFree 0 (initialRun twoFree) dayShift))) /\
  length (take (Z.to_nat (requiredCount twoFree 0 dayShift))
               (fst (sortedCandidatesWith v8Sort sinZero twoFree 0 (initialRun twoFree) dayShift))) =
    Nat.min (Z.to_nat (requiredCount twoFree 0 dayShift))
      (length (List.filter (isAvailable twoFree (initialRun twoFree) 0 dayShift)
                           (allEmployees twoFree))).
Proof.
  apply (candidates_ordered_by_comparisons v8Sort sinZero twoFree 0 (initialRun twoFree) dayShift).
  apply v8Sort_engineSorts.
Defined.

(** The calls of the V8 plan on four numbers, kept in the state: the first
    call is on the second and the first element, in this order; the run of
    two descends and is reversed; 4 and 3 are put at their places by binary
    search. *)
Example v8Sort_calls :
  sortWith (fun a b calls => (inject_Z (a - b), calls ++ [(a, b)])) v8Sort [2; 1; 4; 3] []
    = ([1; 2; 3; 4], [(1, 2); (4, 1); (4, 2); (3, 2); (3, 4)]).
Proof. vm_compute. reflexivity. Qed.

(** Two candidates with equal counts on V8: one comparison, of the second
    candidate with the first, and the second comes first exactly when the
    draw at the seed is below the draw after it.  (With [Math.sin] the draw
    at seed 0 is 0 and the draw at seed 1 is not.) *)
Lemma v8Sort_two_candidates (Math_sin : Z -> Q) :
  sortedCandidatesWith v8Sort Math_sin twoFree 0 (initialRun twoFree) dayShift =
    (if JS.Qltb (seededRandom Math_sin 0) (seededRandom Math_sin 1)
     then [memberOf 0 1 (free "Blake"); memberOf 0 0 (free "Avery")]
     else [memberOf 0 0 (free "Avery"); memberOf 0 1 (free "Blake")],
     2) /\
  comparisonsWith v8Sort Math_sin twoFree 0 (initialRun twoFree) dayShift = 1%nat.
Proof.
  unfold sortedCandidatesWith, comparisonsWith, sortWith, callsWith.
  change (List.filter _ _) with [memberOf 0 0 (free "Avery"); memberOf 0 1 (free "Blake")].
  change (r_seed (initialRun twoFree)) with 0.
  cbn [length v8Sort runPlan planCalls lookup list_lookup].
  pose proof (fairnessCompare_value Math_sin (r_shiftCounts (initialRun twoFree)) dayShift
                (memberOf 0 1 (free "Blake")) (memberOf 0 0 (free "Avery")) 0) as [Hv Hs].
  destruct (fairnessCompare _ _ _ _ _ _) as [c s1]. cbn [fst snd] in Hv, Hs. subst s1.
  change (baseScore _ _ _) with 0 in Hv. change (0 + 1) with 1 in Hv.
  assert (Hc : JS.Qltb c 0 = JS.Qltb (seededRandom Math_sin 0) (seededRandom Math_sin 1)).
  { apply eq_true_iff_eq. rewrite !Qltb_true, Hv. split; intros; lra. }
  rewrite <- Hc. by destruct (JS.Qltb c 0).
Qed.

(** ** The cells and the counter during the day loop *)

Lemma getCell_setCell_cases (sch : Schedule) i d v i' d' :
  getCell (setCell sch i d v) i' d' = v \/
  getCell (setCell sch i d v) i' d' = getCell sch i' d'.
Proof.
  destruct (decide ((i, d) = (i', d'))) as [Heq|Hne].
  - injection Heq as <- <-. unfold getCell, setCell. rewrite lookup_alter_eq.
    destruct (sch !! i) as [row|]; simpl; [|by right].
    destruct (decide (d < length row)%nat).
    + left. by rewrite list_lookup_insert_eq.
    + right. by rewrite list_insert_ge by lia.
  - right. by apply getCell_setCell_ne.
Qed.

Lemma getCell_foldl_setCell_other (sch : Schedule) (l : list Member) d v i d' :
  d' <> d ->
  getCell (foldl (fun sch emp => setCell sch (id emp) d v) sch l) i d' = getCell sch i d'.
Proof.
  intros Hne. revert sch. induction l as [|emp l IH]; intros sch; simpl; [done|].
  rewrite IH. apply getCell_setCell_ne. congruence.
Qed.

Lemma getCell_foldl_setCell_cases (sch : Schedule) (l : list Member) d v i d' :
  getCell (foldl (fun sch emp => setCell sch (id emp) d v) sch l) i d' = v \/
  getCell (foldl (fun sch emp => setCell sch (id emp) d v) sch l) i d' = getCell sch i d'.
Proof.
  revert sch. induction l as [|emp l IH]; intros sch; simpl; [by right|].
  destruct (IH (setCell sch (id emp) d v)) as [->| ->]; [by left|].
  apply getCell_setCell_cases.
Qed.

Lemma getCell_initSchedule st i d : getCell (initSchedule st) i d = None.
Proof.
  unfold initSchedule.
  apply (foldl_invariant (fun sch : Schedule => getCell sch i d = None)).
  - unfold getCell. by rewrite lookup_empty.
  - intros sch emp _ Hsch. unfold getCell in *.
    destruct (decide (id emp = i)) as [->|Hne].
    + rewrite lookup_insert_eq.
      destruct (replicate (numDays st) None !! d) as [c|] eqn:Hc; [|done].
      apply lookup_replicate in Hc as [-> _]. done.
    + by rewrite lookup_insert_ne.
Qed.

Lemma prefill_cells st i d :
  getCell (prefillUnavailability st (initSchedule st)) i d = None \/
  exists k, getCell (prefillUnavailability st (initSchedule st)) i d = Some (absenceCode k).
Proof.
  unfold prefillUnavailability.
  apply (foldl_invariant (fun sch : Schedule =>
    getCell sch i d = None \/ exists k, getCell sch i d = Some (absenceCode k))).
  - left. apply getCell_initSchedule.
  - intros sch emp _ Hsch.
    apply (foldl_invariant (fun sch : Schedule =>
      getCell sch i d = None \/ exists k, getCell sch i d = Some (absenceCode k))); [done|].
    intros sch' u _ Hsch'. unfold prefillEntry. destruct (negb _); [done|].
    apply (foldl_invariant (fun sch : Schedule =>
      getCell sch i d = None \/ exists k, getCell sch i d = Some (absenceCode k))); [done|].
    intros sch'' d' _ Hsch''. destruct (_ && _); [|done].
    destruct (getCell_setCell_cases sch'' (id emp) d' (Some (absenceCode (u_type u))) i d)
      as [->| ->]; [right; eauto | done].
Qed.

Lemma workingShifts_elem st shift :
  shift ∈ workingShifts st <-> shift ∈ shifts st /\ isWorking shift = true.
Proof.
  unfold workingShifts. rewrite Array_sort_perm.
  rewrite list_elem_of_In, filter_In, <- list_elem_of_In. reflexivity.
Qed.

Lemma holdsCategory_code st shift :
  shift ∈ shifts st -> holdsCategory (shifts st) (type shift) (Some (code shift)) = true.
Proof.
  intros Hin. simpl. apply existsb_exists. exists shift.
  split; [by apply list_elem_of_In|].
  rewrite bool_decide_eq_true_2 by done. simpl. apply String.eqb_refl.
Qed.

Lemma holdsCategory_elim st t c :
  holdsCategory (shifts st) t (Some c) = true ->
  exists s, s ∈ shifts st /\ type s = t /\ code s = c.
Proof.
  simpl. intros H. apply existsb_exists in H as (s & Hin & Hs).
  apply andb_true_iff in Hs as [Ht Hc].
  apply bool_decide_eq_true in Ht. apply String.eqb_eq in Hc.
  exists s. by rewrite list_elem_of_In.
Qed.

Lemma isWorking_type s : isWorking s = true <-> type s = working.
Proof. unfold isWorking. destruct (type s); split; intros; congruence. Qed.

Section DayLoopCells.
Variable Math_sin : Z -> Q.
Variable st : AppState.

Lemma stateAt_cells d k i d' :
  (d < numDays st)%nat ->
  workingPassCell st (getCell (r_schedule (stateAt Math_sin st d k)) i d').
Proof.
  revert d k.
  apply (dayLoop_invariant Math_sin st
           (fun _ run => workingPassCell st (getCell (r_schedule run) i d'))).
  - destruct (prefill_cells st i d') as [H|H]; [by left | right; by left].
  - intros d run shift _ Hshift Hrun. rewrite scheduleShift_schedule.
    destruct (getCell_foldl_setCell_cases (r_schedule run)
                (chosen Math_sin st d run shift) d (Some (code shift)) i d') as [->| ->]; [|done].
    right. right. apply workingShifts_elem in Hshift as [Hin Hw].
    apply isWorking_type in Hw. rewrite <- Hw. by apply holdsCategory_code.
  - done.
Qed.
End DayLoopCells.

(** ** The consecutive-day counter *)

Lemma rowBefore_S sch i d : rowBefore sch i (S d) = rowBefore sch i d ++ [getCell sch i d].
Proof. unfold rowBefore. by rewrite seq_S, map_app. Qed.

Lemma updateConsecutive_lookup st d run emp :
  emp ∈ allEmployees st ->
  getConsecutive (r_consecutiveDays (updateConsecutive st d run)) (id emp) =
    if countsAsWorked (getCell (r_schedule run) (id emp) d)
    then getConsecutive (r_consecutiveDays run) (id emp) + 1 else 0.
Proof.
  unfold updateConsecutive. simpl.
  generalize (r_consecutiveDays run) as cons.
  pose proof (NoDup_ids st) as Hnd. revert Hnd.
  generalize (allEmployees st) as l.
  induction l as [|e l IH]; intros Hnd cons Hemp; [by apply elem_of_nil in Hemp|].
  rewrite fmap_cons in Hnd. apply NoDup_cons in Hnd as [He Hnd]. simpl.
  assert (Hkeep : forall (m : gmap Id Z) k, k ∉ id <$> l ->
    getConsecutive (foldl (fun cons emp =>
      if countsAsWorked (getCell (r_schedule run) (id emp) d)
      then <[id emp := getConsecutive cons (id emp) + 1]> cons
      else <[id emp := 0]> cons) m l) k = getConsecutive m k).
  { clear. induction l as [|e l IH]; intros m k Hk; simpl; [done|].
    rewrite fmap_cons in Hk. apply not_elem_of_cons in Hk as [Hne Hk].
    rewrite IH by done. unfold getConsecutive.
    destruct (countsAsWorked _); by rewrite lookup_insert_ne. }
  apply elem_of_cons in Hemp as [->|Hemp].
  - rewrite Hkeep by done. unfold getConsecutive.
    destruct (countsAsWorked _); by rewrite lookup_insert_eq.
  - rewrite IH by done.
    assert (id e <> id emp) as Hne.
    { intros Heq. apply He. rewrite Heq. by apply list_elem_of_fmap_2. }
    destruct (countsAsWorked (getCell (r_schedule run) (id e) d));
      unfold getConsecutive; by rewrite lookup_insert_ne.
Qed.

Section Counter.
Variable Math_sin : Z -> Q.
Variable st : AppState.

Lemma initial_consecutive i : getConsecutive (r_consecutiveDays (initialRun st)) i = 0.
Proof.
  simpl. apply (foldl_invariant (fun m : gmap Id Z => getConsecutive m i = 0)).
  - unfold getConsecutive. by rewrite lookup_empty.
  - intros m emp _ Hm. unfold getConsecutive in *.
    destruct (decide (id emp = i)) as [->|Hne];
      [by rewrite lookup_insert_eq | by rewrite lookup_insert_ne].
Qed.

Lemma stateAt_counter d k :
  (d < numDays st)%nat -> counterTracksRun st d (stateAt Math_sin st d k).
Proof.
  revert d k.
  apply (dayLoop_invariant Math_sin st (counterTracksRun st)).
  - intros emp _. apply initial_consecutive.
  - intros d run shift _ _ Hrun emp Hemp.
    rewrite scheduleShift_consecutiveDays, scheduleShift_schedule.
    rewrite (Hrun emp Hemp). f_equal. f_equal. unfold rowBefore.
    apply map_ext_in. intros d' Hd'. apply in_seq in Hd'.
    symmetry. apply getCell_foldl_setCell_other. lia.
  - intros d run _ Hrun emp Hemp.
    rewrite updateConsecutive_lookup by done.
    rewrite updateConsecutive_schedule, rowBefore_S, scanWith_snoc. simpl.
    rewrite (Hrun emp Hemp). by destruct (countsAsWorked _).
Qed.
End Counter.

(** ** C3: the candidates of a shift *)

Lemma trailingRun_unique P row n m : trailingRun P row n -> trailingRun P row m -> n = m.
Proof.
  intros [(s1 & Hs1 & <-) Hmax1] [(s2 & Hs2 & <-) Hmax2].
  apply Hmax1 in Hs2. apply Hmax2 in Hs1. lia.
Qed.

Lemma scanWith_ext P Q row :
  Forall (fun c => P c = Q c) row -> scanWith P row = scanWith Q row.
Proof.
  induction row as [|c row IH] using rev_ind; intros Hall; [done|].
  apply Forall_app in Hall as [Hrow Hc]. rewrite Forall_singleton in Hc.
  rewrite !scanWith_snoc, IH, Hc by done. done.
Qed.

Lemma countsAsWorked_working st c :
  catalogueOk st -> workingPassCell st c ->
  countsAsWorked c = holdsCategory (shifts st) working c.
Proof.
  intros [_ Hcodes] [->|[(k & ->)|Hw]]; [done| |]; rewrite Forall_forall in Hcodes.
  - destruct (holdsCategory (shifts st) working (Some (absenceCode k))) eqn:Hh.
    + apply holdsCategory_elim in Hh as (s & Hin & _ & Hc).
      destruct (Hcodes s Hin) as (_ & Hl & Ht). destruct k; simpl in Hc; congruence.
    + by destruct k.
  - rewrite Hw. destruct c as [c|]; [|done].
    apply holdsCategory_elim in Hw as (s & Hin & _ & <-).
    destruct (Hcodes s Hin) as (He & Hl & Ht). simpl.
    apply String.eqb_neq in He, Hl, Ht. by rewrite He, Hl, Ht.
Qed.

Lemma find_code st s :
  NoDup (code <$> shifts st) -> s ∈ shifts st ->
  List.find (fun s' => bool_decide (Some (code s') = Some (code s))) (shifts st) = Some s.
Proof.
  generalize (shifts st) as l. induction l as [|a l IH]; intros Hnd Hin; [by apply elem_of_nil in Hin|].
  rewrite fmap_cons in Hnd. apply NoDup_cons in Hnd as [Ha Hnd]. simpl.
  apply elem_of_cons in Hin as [->|Hin].
  - by rewrite bool_decide_eq_true_2.
  - rewrite bool_decide_eq_false_2; [by apply IH|].
    intros [= Heq]. apply Ha. rewrite Heq. by apply list_elem_of_fmap_2.
Qed.

Lemma restRule_iff st grid empId d shift :
  catalogueOk st ->
  (0 <? d)%nat && JS.truthy (getCell grid empId (d - 1)) &&
    match List.find (fun s => bool_decide (Some (code s) = getCell grid empId (d - 1)))
                    (shifts st) with
    | Some prevShift =>
        isWorking prevShift && String.eqb (code prevShift) "N" && String.eqb (code shift) "D"
    | None => false
    end = true <->
  restBlocked st grid empId d shift.
Proof.
  intros [Hnd _]. unfold restBlocked. split.
  - intros H. apply andb_true_iff in H as [H Hfind]. apply andb_true_iff in H as [Hd _].
    apply Nat.ltb_lt in Hd. split; [done|].
    destruct (List.find _ _) as [prev|] eqn:Hprev; [|done].
    apply find_some in Hprev as [Hin Hcell]. apply bool_decide_eq_true in Hcell.
    apply andb_true_iff in Hfind as [H HD]. apply andb_true_iff in H as [Hw HN].
    apply String.eqb_eq in HN, HD. rewrite <- Hcell, HN. split; [done|]. split; [|done].
    apply isWorking_type in Hw. rewrite <- Hw, <- HN. apply holdsCategory_code.
    by apply list_elem_of_In.
  - intros (Hd & Hcell & Hhold & HD).
    apply holdsCategory_elim in Hhold as (s & Hin & Hw & HN).
    rewrite Hcell, <- HN, (find_code st s Hnd Hin), HN, HD. simpl.
    apply isWorking_type in Hw. rewrite Hw. simpl.
    rewrite !andb_true_r. by apply Nat.ltb_lt.
Qed.

(** C3, amended. On day d, for the k-th working shift, with the catalogue
    invariants (codes unique, not empty, not LEAVE or TAD): the candidates
    are exactly the employees whose cell of day d is null, who are on-cycle,
    whose run of consecutive working-category days ending on day d - 1 is
    strictly shorter than maxConsecutiveDays, and who are not blocked by the
    rest rule (day d - 1 holds the working shift coded N and the shift is
    the one coded D). *)
Theorem candidates_are_the_eligible (Math_sin : Z -> Q) (st : AppState)
    (d k : nat) (shift : Shift) (emp : Member) :
  catalogueOk st ->
  (d < numDays st)%nat ->
  workingShifts st !! k = Some shift ->
  let run := stateAt Math_sin st d k in
  let grid := r_schedule run in
  emp ∈ List.filter (isAvailable st run d shift) (allEmployees st) <->
    emp ∈ allEmployees st /\
    getCell grid (id emp) d = None /\
    shouldWorkOnDay st (id emp) d = true /\
    (exists n,
       trailingRun (holdsCategory (shifts st) working) (rowBefore grid (id emp) d) n /\
       n < maxConsecutiveDays (constraints st)) /\
    ~ restBlocked st grid (id emp) d shift.
Proof.
  intros Hcat Hd Hk run grid.
  pose proof (stateAt_counter Math_sin st d k Hd) as Hctr.
  pose proof (fun i d' => stateAt_cells Math_sin st d k i d' Hd) as Hcells.
  fold run in Hctr, Hcells. clearbody run. subst grid.
  rewrite list_elem_of_In, filter_In, <- list_elem_of_In.
  assert (Hmain : emp ∈ allEmployees st ->
    (isAvailable st run d shift emp = true <->
     getCell (r_schedule run) (id emp) d = None /\
     shouldWorkOnDay st (id emp) d = true /\
     (exists n,
        trailingRun (holdsCategory (shifts st) working) (rowBefore (r_schedule run) (id emp) d) n /\
        n < maxConsecutiveDays (constraints st)) /\
     ~ restBlocked st (r_schedule run) (id emp) d shift)).
  { intros Hemp.
    assert (Hcounter : getConsecutive (r_consecutiveDays run) (id emp) =
              fst (scanWith (holdsCategory (shifts st) working) (rowBefore (r_schedule run) (id emp) d))).
    { rewrite (Hctr emp Hemp). f_equal.
      apply scanWith_ext. unfold rowBefore. apply Forall_forall. intros c Hc.
      apply list_elem_of_In, in_map_iff in Hc as (d' & <- & _).
      apply countsAsWorked_working; [done|]. apply Hcells. }
    pose proof (scanWith_spec (holdsCategory (shifts st) working)
                  (rowBefore (r_schedule run) (id emp) d)) as [Htrail _].
    pose proof (restRule_iff st (r_schedule run) (id emp) d shift Hcat) as Hrest.
    unfold isAvailable.
    case_bool_decide as Hnull; simpl; [|split; [done | tauto]].
    destruct (shouldWorkOnDay st (id emp) d); simpl; [|split; [done | intros (_ & ? & _); done]].
    destruct (_ && _ && _) eqn:Hb; simpl.
    - split; [done|]. intros (_ & _ & _ & Hno). exfalso. apply Hno. by apply Hrest.
    - rewrite Hcounter.
      destruct (Z.leb_spec (maxConsecutiveDays (constraints st))
                  (fst (scanWith (holdsCategory (shifts st) working) (rowBefore (r_schedule run) (id emp) d))))
        as [Hle|Hlt].
      + split; [done|]. intros (_ & _ & (n & Hn & Hlt) & _).
        pose proof (trailingRun_unique _ _ _ _ Hn Htrail). lia.
      + split; [|done]. intros _. split; [done|]. split; [done|]. split; [eauto|].
        intros Hblocked. apply Hrest in Hblocked. congruence. }
  split.
  - intros [Hemp Hav]. split; [done|]. by apply Hmain.
  - intros (Hemp & Hconds). split; [done|]. by apply Hmain.
Qed.

(** C3, as stated, fails: in scenario D the employee enters day 3 with two
    consecutive working days, which does not exceed the limit of two; the
    cell is empty, there is no pattern and no night shift; and the employee
    is no candidate. *)
Lemma capped_employee_is_no_candidate :
  let st := scenarioD in
  let run := stateAt sinZero scenarioD 2 0 in
  let emp := memberOf 0 0 (free "Avery") in
  workingShifts st !! 0%nat = Some dayShift /\
  List.filter (isAvailable st run 2 dayShift) (allEmployees st) = [] /\
  emp ∈ allEmployees st /\
  getCell (r_schedule run) (id emp) 2 = None /\
  shouldWorkOnDay st (id emp) 2 = true /\
  trailingRun (holdsCategory (shifts st) working) (rowBefore (r_schedule run) (id emp) 2) 2 /\
  ~ (maxConsecutiveDays (constraints st) < 2) /\
  ~ restBlocked st (r_schedule run) (id emp) 2 dayShift.
Proof.
  cbv zeta.
  split; [by vm_compute|]. split; [by vm_compute|].
  split; [apply list_elem_of_In; vm_compute; auto|].
  split; [by vm_compute|]. split; [by vm_compute|]. split; [|split].
  - exact (proj1 (scanWith_spec (holdsCategory (shifts scenarioD) working)
                    (rowBefore (r_schedule (stateAt sinZero scenarioD 2 0)) (0%nat, 0%nat) 2))).
  - vm_compute. discriminate.
  - intros (_ & Hcell & _). vm_compute in Hcell. discriminate.
Qed.

(** The state of the counterexample does not depend on the sine: with one
    employee the sort never compares. *)
Lemma scenarioD_day3_any_sin (Math_sin : Z -> Q) :
  stateAt Math_sin scenarioD 2 0 = stateAt sinZero scenarioD 2 0.
Proof. vm_compute. reflexivity. Qed.

Lemma candidates_are_the_eligible_witness :
  let emp := memberOf 0 0 (free "Avery") in
  let run := stateAt sinZero scenarioD 1 0 in
  let grid := r_schedule run in
  emp ∈ List.filter (isAvailable scenarioD run 1 dayShift) (allEmployees scenarioD) <->
    emp ∈ allEmployees scenarioD /\
    getCell grid (id emp) 1 = None /\
    shouldWorkOnDay scenarioD (id emp) 1 = true /\
    (exists n,
       trailingRun (holdsCategory (shifts scenarioD) working) (rowBefore grid (id emp) 1) n /\
       n < maxConsecutiveDays (constraints scenarioD)) /\
    ~ restBlocked scenarioD grid (id emp) 1 dayShift.
Proof.
  apply (candidates_are_the_eligible sinZero scenarioD 1 0 dayShift
           (memberOf 0 0 (free "Avery"))).
  - unfold catalogueOk. compute_done.
  - vm_compute. lia.
  - vm_compute. reflexivity.
Defined.

(** ** C10: the fairness counters and the grid *)

Lemma getCounts_insert_eq (counts : gmap Id Counts) i c :
  getCounts (<[i := c]> counts) i = c.
Proof. unfold getCounts. by rewrite lookup_insert_eq. Qed.

Lemma getCounts_insert_ne (counts : gmap Id Counts) i j c :
  i <> j -> getCounts (<[i := c]> counts) j = getCounts counts j.
Proof. intros Hne. unfold getCounts. by rewrite lookup_insert_ne. Qed.

Lemma countCells_insert P (row : list Cell) d old v :
  row !! d = Some old ->
  countCells P (<[d := v]> row) + (if P old then 1 else 0) =
  countCells P row + (if P v then 1 else 0).
Proof.
  intros Hd. unfold countCells.
  rewrite <- (take_drop_middle row d old Hd) at 2.
  rewrite insert_take_drop by (by eapply lookup_lt_Some).
  rewrite !List.filter_app, !length_app. simpl.
  destruct (P old), (P v); simpl; lia.
Qed.

Lemma rowOf_setCell_ne st sch i d v i' :
  i <> i' -> rowOf st (setCell sch i d v) i' = rowOf st sch i'.
Proof.
  intros Hne. unfold rowOf. apply map_ext. intros d'.
  apply getCell_setCell_ne. congruence.
Qed.

Lemma rowOf_lookup st sch i d :
  (d < numDays st)%nat -> rowOf st sch i !! d = Some (getCell sch i d).
Proof.
  intros Hd. unfold rowOf, days. rewrite list_lookup_fmap.
  by rewrite lookup_seq_lt.
Qed.

Lemma length_rowOf st sch i : length (rowOf st sch i) = numDays st.
Proof. unfold rowOf, days. by rewrite length_map, length_seq. Qed.

Lemma rowOf_setCell_eq st sch emp d v :
  rowsOk st sch -> emp ∈ allEmployees st -> (d < numDays st)%nat ->
  rowOf st (setCell sch (id emp) d v) (id emp) = <[d := v]> (rowOf st sch (id emp)).
Proof.
  intros Hok Hemp Hd. apply list_eq. intros d'.
  destruct (decide (d' < numDays st)%nat) as [Hd'|Hd'].
  - rewrite rowOf_lookup by done.
    destruct (decide (d = d')) as [<-|Hne].
    + rewrite list_lookup_insert_eq by (by rewrite length_rowOf).
      f_equal. by apply (getCell_setCell_eq_ok st).
    + rewrite list_lookup_insert_ne by done. rewrite rowOf_lookup by done.
      f_equal. apply getCell_setCell_ne. congruence.
  - rewrite !lookup_ge_None_2; [done | |].
    + rewrite length_insert, length_rowOf. lia.
    + rewrite length_rowOf. lia.
Qed.

Lemma countersMatch_counted_write st sch counts emp d v :
  rowsOk st sch -> emp ∈ allEmployees st -> (d < numDays st)%nat ->
  getCell sch (id emp) d = None ->
  countersMatch st sch counts ->
  countersMatch st (setCell sch (id emp) d v)
    (<[id emp := {| total := total (getCounts counts (id emp))
                             + (if countsTowardTotal st v then 1 else 0);
                    night := night (getCounts counts (id emp))
                             + (if countsTowardNight st v then 1 else 0) |}]> counts).
Proof.
  intros Hok Hemp Hd Hnull Hmatch emp' Hemp'.
  destruct (decide (id emp = id emp')) as [Heq|Hne].
  - rewrite <- Heq. rewrite getCounts_insert_eq. simpl.
    rewrite rowOf_setCell_eq by done.
    destruct (Hmatch emp Hemp) as [Ht Hn].
    pose proof (rowOf_lookup st sch (id emp) d Hd) as Hrow. rewrite Hnull in Hrow.
    pose proof (countCells_insert (countsTowardTotal st) _ d None v Hrow) as Hct.
    pose proof (countCells_insert (countsTowardNight st) _ d None v Hrow) as Hcn.
    change (countsTowardTotal st None) with false in Hct.
    change (countsTowardNight st None) with false in Hcn.
    destruct (countsTowardTotal st v), (countsTowardNight st v); lia.
  - rewrite getCounts_insert_ne by done.
    rewrite rowOf_setCell_ne by done. by apply Hmatch.
Qed.

Lemma countersMatch_uncounted_write st sch counts emp d v :
  rowsOk st sch -> emp ∈ allEmployees st -> (d < numDays st)%nat ->
  getCell sch (id emp) d = None ->
  countsTowardTotal st v = false -> countsTowardNight st v = false ->
  countersMatch st sch counts ->
  countersMatch st (setCell sch (id emp) d v) counts.
Proof.
  intros Hok Hemp Hd Hnull Ht Hn Hmatch emp' Hemp'.
  destruct (decide (id emp = id emp')) as [Heq|Hne].
  - rewrite <- Heq. rewrite rowOf_setCell_eq by done.
    destruct (Hmatch emp Hemp) as [Htot Hnight].
    pose proof (rowOf_lookup st sch (id emp) d Hd) as Hrow. rewrite Hnull in Hrow.
    pose proof (countCells_insert (countsTowardTotal st) _ d None v Hrow) as Hct.
    pose proof (countCells_insert (countsTowardNight st) _ d None v Hrow) as Hcn.
    rewrite Ht in Hct. rewrite Hn in Hcn.
    change (countsTowardTotal st None) with false in Hct.
    change (countsTowardNight st None) with false in Hcn.
    cbv iota in Hct, Hcn. lia.
  - rewrite rowOf_setCell_ne by done. by apply Hmatch.
Qed.

(** ** What the codes of the catalogue count for *)

Lemma holdsCategory_unique st s t :
  codesUnique st -> s ∈ shifts st ->
  holdsCategory (shifts st) t (Some (code s)) = true -> type s = t.
Proof.
  intros Hnd Hin Hh. apply holdsCategory_elim in Hh as (s' & Hin' & Ht & Hc).
  assert (s' = s) as ->; [|done].
  by apply (NoDup_fmap_eq code (shifts st)).
Qed.

Lemma holdsCategory_other st s t :
  codesUnique st -> s ∈ shifts st -> type s <> t ->
  holdsCategory (shifts st) t (Some (code s)) = false.
Proof.
  intros Hnd Hin Hne. apply not_true_iff_false. intros Hh.
  by apply holdsCategory_unique in Hh.
Qed.

Lemma holdsCategory_absence st t k :
  codesNotReserved st -> holdsCategory (shifts st) t (Some (absenceCode k)) = false.
Proof.
  intros Hres. apply not_true_iff_false. intros Hh.
  apply holdsCategory_elim in Hh as (s & Hin & _ & Hc).
  unfold codesNotReserved in Hres. rewrite Forall_forall in Hres.
  destruct (Hres s Hin) as [Hl Ht]. destruct k; simpl in Hc; congruence.
Qed.

Section Categories.
Variable st : AppState.
Hypothesis Hunique : codesUnique st.

Lemma working_counts s :
  s ∈ shifts st -> type s = working ->
  countsTowardTotal st (Some (code s)) = true /\
  countsTowardNight st (Some (code s)) = String.eqb (code s) "N".
Proof.
  intros Hin Ht. unfold countsTowardTotal, countsTowardNight.
  pose proof (holdsCategory_code st s Hin) as Hh. rewrite Ht in Hh. rewrite Hh.
  split; [done|]. rewrite andb_true_r.
  destruct (String.eqb_spec (code s) "N") as [->|Hne].
  - by rewrite bool_decide_eq_true_2.
  - rewrite bool_decide_eq_false_2; [done | congruence].
Qed.

Lemma backup_counts s :
  s ∈ shifts st -> type s = backup ->
  countsTowardTotal st (Some (code s)) = true /\
  countsTowardNight st (Some (code s)) = false.
Proof.
  intros Hin Ht. unfold countsTowardTotal, countsTowardNight.
  pose proof (holdsCategory_code st s Hin) as Hh. rewrite Ht in Hh. rewrite Hh.
  rewrite orb_true_r. split; [done|].
  rewrite (holdsCategory_other st s working) by (done || congruence).
  apply andb_false_r.
Qed.

Lemma admin_counts s :
  s ∈ shifts st -> type s = admin ->
  countsTowardTotal st (Some (code s)) = false /\
  countsTowardNight st (Some (code s)) = false.
Proof.
  intros Hin Ht. unfold countsTowardTotal, countsTowardNight.
  rewrite (holdsCategory_other st s working) by (done || congruence).
  rewrite (holdsCategory_other st s backup) by (done || congruence).
  split; [done | apply andb_false_r].
Qed.
End Categories.

Lemma countCells_none P (row : list Cell) :
  Forall (fun c => P c = false) row -> countCells P row = 0.
Proof.
  unfold countCells. induction row as [|c row IH]; intros Hall; [done|].
  apply Forall_cons in Hall as [Hc Hrow]. simpl. rewrite Hc. by apply IH.
Qed.

(** ** The counters through the three passes *)

Section Counters.
Variable Math_sin : Z -> Q.
Variable st : AppState.
Hypothesis Hunique : codesUnique st.
Hypothesis Hreserved : codesNotReserved st.

Lemma initialRun_counters : gridAndCounters st (initialRun st).
Proof.
  split; [apply rowsOk_prefill|].
  intros emp Hemp. simpl.
  assert (Hzero : getCounts (foldl (fun m emp => <[id emp := {| total := 0; night := 0 |}]> m)
                     ∅ (allEmployees st)) (id emp) = {| total := 0; night := 0 |}).
  { apply (foldl_invariant (fun m : gmap Id Counts =>
      getCounts m (id emp) = {| total := 0; night := 0 |})).
    - unfold getCounts. by rewrite lookup_empty.
    - intros m e _ Hm. destruct (decide (id e = id emp)) as [->|Hne].
      + apply getCounts_insert_eq.
      + by rewrite getCounts_insert_ne. }
  rewrite Hzero. simpl.
  rewrite !countCells_none; [done | |].
  - apply Forall_forall. intros c Hc. unfold rowOf in Hc.
    apply list_elem_of_In, in_map_iff in Hc as (d & <- & _).
    unfold countsTowardNight.
    destruct (prefill_cells st (id emp) d) as [->|(k & ->)]; [done|].
    rewrite holdsCategory_absence by done. apply andb_false_r.
  - apply Forall_forall. intros c Hc. unfold rowOf in Hc.
    apply list_elem_of_In, in_map_iff in Hc as (d & <- & _).
    unfold countsTowardTotal.
    destruct (prefill_cells st (id emp) d) as [->|(k & ->)]; [done|].
    by rewrite !holdsCategory_absence.
Qed.

Lemma assignShift_counters d shift run emp :
  shift ∈ shifts st -> type shift = working ->
  emp ∈ allEmployees st -> (d < numDays st)%nat ->
  getCell (r_schedule run) (id emp) d = None ->
  gridAndCounters st run -> gridAndCounters st (assignShift d shift run emp).
Proof.
  intros Hin Ht Hemp Hd Hnull [Hok Hmatch].
  split; [by apply rowsOk_setCell|]. simpl.
  pose proof (countersMatch_counted_write st _ _ emp d (Some (code shift))
                Hok Hemp Hd Hnull Hmatch) as Hw.
  destruct (working_counts st shift Hin Ht) as [Htot Hnight].
  rewrite Htot, Hnight in Hw.
  by destruct (String.eqb (code shift) "N"); [|rewrite Z.add_0_r in Hw].
Qed.

Lemma foldl_assignShift_counters d shift l run :
  shift ∈ shifts st -> type shift = working -> (d < numDays st)%nat ->
  NoDup (id <$> l) ->
  (forall emp, emp ∈ l ->
     emp ∈ allEmployees st /\ getCell (r_schedule run) (id emp) d = None) ->
  gridAndCounters st run -> gridAndCounters st (foldl (assignShift d shift) run l).
Proof.
  intros Hin Ht Hd. revert run.
  induction l as [|emp l IH]; intros run Hnd Hl Hrun; simpl; [done|].
  rewrite fmap_cons in Hnd. apply NoDup_cons in Hnd as [Hemp Hnd].
  destruct (Hl emp) as [Hall Hnull]; [by left|].
  apply IH; [done| |by apply assignShift_counters].
  intros e He. destruct (Hl e) as [Heall Henull]; [by right|].
  split; [done|]. simpl. rewrite getCell_setCell_ne; [done|].
  intros [= Heq]. apply Hemp. rewrite Heq. by apply list_elem_of_fmap_2.
Qed.

Lemma scheduleShift_counters d run shift :
  shift ∈ workingShifts st -> (d < numDays st)%nat ->
  gridAndCounters st run -> gridAndCounters st (scheduleShift Math_sin st d run shift).
Proof.
  intros Hshift Hd Hrun. apply workingShifts_elem in Hshift as [Hin Hw].
  apply isWorking_type in Hw.
  rewrite scheduleShift_unfold. simpl.
  assert (Hfold : gridAndCounters st
    (foldl (assignShift d shift)
       (withSeed (snd (sortedCandidates Math_sin st d run shift)) run)
       (chosen Math_sin st d run shift))).
  { apply foldl_assignShift_counters; try done.
    - apply chosen_NoDup.
    - intros emp Hemp. apply chosen_available in Hemp as [Hall Hav].
      split; [done|]. by apply isAvailable_null in Hav. }
  by destruct (_ <? _).
Qed.

Lemma workingPass_counters : gridAndCounters st (workingPass Math_sin st (initialRun st)).
Proof.
  rewrite workingPass_dayStart.
  apply (dayLoop_invariant Math_sin st (fun _ run => gridAndCounters st run)); [| | |done].
  - apply initialRun_counters.
  - intros d run shift Hd Hshift. by apply scheduleShift_counters.
  - done.
Qed.

Lemma days_lt d : d ∈ days st -> (d < numDays st)%nat.
Proof. unfold days. rewrite list_elem_of_In, in_seq. lia. Qed.

Lemma backupPass_counters run :
  gridAndCounters st run -> gridAndCounters st (backupPass Math_sin st run).
Proof.
  intros Hrun. unfold backupPass.
  destruct (List.find _ _) as [b|] eqn:Hfind; [|done].
  apply find_some in Hfind as [Hin Ht]. apply list_elem_of_In in Hin.
  assert (type b = backup) as Hb by (by destruct (type b)).
  apply (foldl_invariant (gridAndCounters st)); [done|].
  intros r d Hd%days_lt Hr.
  apply (foldl_invariant (gridAndCounters st)); [done|].
  intros r' emp Hemp [Hok Hmatch]. unfold backupStep.
  case_bool_decide as Hnull; simpl; [|done].
  destruct (_ && _); [|done].
  destruct (JS.Qltb _ _); [|done].
  split; [by apply rowsOk_setCell|]. simpl.
  pose proof (countersMatch_counted_write st _ _ emp d (Some (code b))
                Hok Hemp Hd Hnull Hmatch) as Hw.
  destruct (backup_counts st Hunique b Hin Hb) as [Htot Hnight].
  rewrite Htot, Hnight in Hw. by rewrite Z.add_0_r in Hw.
Qed.

Lemma adminPass_counters run :
  gridAndCounters st run -> gridAndCounters st (adminPass Math_sin st run).
Proof.
  intros Hrun. unfold adminPass.
  destruct (List.find _ _) as [a|] eqn:Hfind; [|done].
  apply find_some in Hfind as [Hin Ht]. apply list_elem_of_In in Hin.
  assert (type a = admin) as Ha by (by destruct (type a)).
  apply (foldl_invariant (gridAndCounters st)); [done|].
  intros r d Hd%days_lt Hr.
  apply (foldl_invariant (gridAndCounters st)); [done|].
  intros r' emp Hemp [Hok Hmatch]. unfold adminStep.
  case_bool_decide as Hnull; simpl; [|done].
  destruct (shouldWorkOnDay _ _ _); [|done].
  destruct (JS.Qltb _ _); [|done].
  split; [by apply rowsOk_setCell|]. simpl.
  destruct (admin_counts st Hunique a Hin Ha) as [Htot Hnight].
  by apply countersMatch_uncounted_write.
Qed.

Lemma auditPass_shiftCounts run : r_shiftCounts (auditPass st run) = r_shiftCounts run.
Proof.
  unfold auditPass.
  apply (foldl_invariant (fun r => r_shiftCounts r = r_shiftCounts run)); [done|].
  intros r emp _ Hr. unfold auditEmployee. by destruct (_ <? _).
Qed.

Lemma finalRun_counters : gridAndCounters st (finalRun Math_sin st).
Proof.
  unfold gridAndCounters, finalRun. rewrite auditPass_schedule, auditPass_shiftCounts.
  apply adminPass_counters, backupPass_counters, workingPass_counters.
Qed.
End Counters.

(** C10. At the end of a run, with the catalogue invariants (codes unique,
    none of them LEAVE or TAD), for every employee: totalAssigned is the
    number of days whose cell holds a working-category or backup-category
    code, and nightAssigned is the number of days whose cell holds the
    working shift code N; a cell with an admin code or an absence marker
    counts for neither. *)
Theorem counters_match_grid (Math_sin : Z -> Q) (st : AppState) (emp : Member) :
  codesUnique st ->
  codesNotReserved st ->
  emp ∈ allEmployees st ->
  exists grid counts,
    schedule (runScheduler Math_sin st) = Some grid /\
    shiftCounts (runScheduler Math_sin st) = Some counts /\
    total (getCounts counts (id emp)) =
      countCells (countsTowardTotal st) (rowOf st grid (id emp)) /\
    night (getCounts counts (id emp)) =
      countCells (countsTowardNight st) (rowOf st grid (id emp)) /\
    (forall c,
       holdsCategory (shifts st) admin c = true \/ (exists k, c = Some (absenceCode k)) ->
       countsTowardTotal st c = false /\ countsTowardNight st c = false).
Proof.
  intros Hunique Hreserved Hemp.
  exists (r_schedule (finalRun Math_sin st)), (r_shiftCounts (finalRun Math_sin st)).
  assert (Hrun : schedule (runScheduler Math_sin st) = Some (r_schedule (finalRun Math_sin st)) /\
                 shiftCounts (runScheduler Math_sin st)
                   = Some (r_shiftCounts (finalRun Math_sin st))).
  { unfold runScheduler. destruct (allEmployees st); [by apply elem_of_nil in Hemp | done]. }
  destruct Hrun as [Hgrid Hcounts]. split; [done|]. split; [done|].
  destruct (finalRun_counters Math_sin st Hunique Hreserved) as [_ Hmatch].
  destruct (Hmatch emp Hemp) as [Htot Hnight].
  split; [done|]. split; [done|].
  intros c [Hadmin | (k & ->)].
  - destruct c as [c|]; [|done].
    apply holdsCategory_elim in Hadmin as (s & Hin & Ht & <-).
    by apply admin_counts.
  - unfold countsTowardTotal, countsTowardNight.
    rewrite !holdsCategory_absence by done. split; [done | apply andb_false_r].
Qed.

Lemma counters_match_grid_witness :
  exists grid counts,
    schedule (runScheduler sinZero adminFillState) = Some grid /\
    shiftCounts (runScheduler sinZero adminFillState) = Some counts /\
    total (getCounts counts (0%nat, 0%nat)) =
      countCells (countsTowardTotal adminFillState) (rowOf adminFillState grid (0%nat, 0%nat)) /\
    night (getCounts counts (0%nat, 0%nat)) =
      countCells (countsTowardNight adminFillState) (rowOf adminFillState grid (0%nat, 0%nat)) /\
    (forall c,
       holdsCategory (shifts adminFillState) admin c = true \/
         (exists k, c = Some (absenceCode k)) ->
       countsTowardTotal adminFillState c = false /\ countsTowardNight adminFillState c = false).
Proof.
  apply (counters_match_grid sinZero adminFillState
           (memberOf 0 0 (free "Avery"))).
  - unfold codesUnique. compute_done.
  - unfold codesNotReserved. compute_done.
  - apply list_elem_of_In. vm_compute. auto.
Defined.

(* ====================================================================== *)
(** * Further properties *)
(* ====================================================================== *)

(* ====================================================================== *)
(** ** The calendar *)
(* ====================================================================== *)

Section CalendarFields.
Import JSDate.

Lemma MakeDay_fields y m d :
  0 <= m <= 11 -> 1 <= d <= daysInMonth y m ->
  YearFromDay (MakeDay y m d) = y /\
  MonthFromDay (MakeDay y m d) = m /\
  DateFromDay (MakeDay y m d) = d.
Proof.
  intros Hm Hd.
  pose proof (DayFromYear_succ y) as Hsucc.
  rewrite DaysInYear_cases in Hsucc.
  assert (Hday : MakeDay y m d = DayFromYear y + MonthStart (InLeapYear y) m + d - 1).
  { unfold MakeDay.
    replace (m / 12) with 0 by lia. replace (m mod 12) with m by lia.
    replace (y + 0) with y by lia. reflexivity. }
  unfold daysInMonth in Hd. rewrite <- InLeapYear_isLeapYear in Hd.
  assert (Hyear : YearFromDay (MakeDay y m d) = y).
  { apply YearFromDay_unique. rewrite Hday, Hsucc.
    destruct (InLeapYear y); month_cases m; simpl in *; lia. }
  split; [exact Hyear|].
  unfold DateFromDay, MonthFromDay, DayWithinYear.
  rewrite Hyear, Hday.
  destruct (InLeapYear y); month_cases m; simpl in *;
    repeat (case Z.ltb_spec; intros; simpl); lia.
Qed.

Lemma fields_of_day t :
  0 <= MonthFromDay t <= 11 /\
  1 <= DateFromDay t <= daysInMonth (YearFromDay t) (MonthFromDay t) /\
  MakeDay (YearFromDay t) (MonthFromDay t) (DateFromDay t) = t.
Proof.
  pose proof (YearFromDay_spec t) as Hs.
  pose proof (DayFromYear_succ (YearFromDay t)) as Hsucc.
  rewrite DaysInYear_cases in Hsucc.
  unfold daysInMonth. rewrite <- InLeapYear_isLeapYear.
  unfold MakeDay, DateFromDay, MonthFromDay, DayWithinYear.
  destruct (InLeapYear (YearFromDay t)) eqn:Hleap; simpl;
    repeat (case Z.ltb_spec; intros; simpl);
    rewrite ?Z.add_0_r, ?Hleap; simpl; lia.
Qed.

End CalendarFields.

Lemma forall_range (P : Z -> bool) (lo len : Z) :
  forallb (fun k => P (lo + Z.of_nat k)) (seq 0 (Z.to_nat len)) = true ->
  forall n, lo <= n < lo + len -> P n = true.
Proof.
  intros H n Hn. rewrite forallb_forall in H.
  specialize (H (Z.to_nat (n - lo))).
  replace (lo + Z.of_nat (Z.to_nat (n - lo))) with n in H by lia.
  apply H, in_seq. lia.
Qed.

Lemma str_of_Z_digits4 n : 1000 <= n <= 9999 -> JS.str_of_Z n = digits4 n.
Proof.
  intros Hn. apply String.eqb_eq.
  apply (forall_range (fun n => String.eqb (JS.str_of_Z n) (digits4 n)) 1000 9000); [|lia].
  vm_compute. reflexivity.
Qed.

Lemma padStart2_digits2 n : 0 <= n <= 99 -> JS.padStart2 (JS.str_of_Z n) = digits2 n.
Proof.
  intros Hn. apply String.eqb_eq.
  apply (forall_range (fun n => String.eqb (JS.padStart2 (JS.str_of_Z n)) (digits2 n)) 0 100); [|lia].
  vm_compute. reflexivity.
Qed.

Lemma digitChar_compare a b :
  0 <= a <= 9 -> 0 <= b <= 9 -> Ascii.compare (digitChar a) (digitChar b) = (a ?= b).
Proof.
  intros Ha Hb.
  assert (a = 0 \/ a = 1 \/ a = 2 \/ a = 3 \/ a = 4 \/ a = 5 \/ a = 6 \/ a = 7 \/ a = 8 \/ a = 9)
    as Ha' by lia.
  assert (b = 0 \/ b = 1 \/ b = 2 \/ b = 3 \/ b = 4 \/ b = 5 \/ b = 6 \/ b = 7 \/ b = 8 \/ b = 9)
    as Hb' by lia.
  repeat (destruct Ha' as [-> | Ha']); try subst a;
    repeat (destruct Hb' as [-> | Hb']); try subst b; reflexivity.
Qed.

Lemma daysInMonth_range y m : 28 <= daysInMonth y m <= 31.
Proof.
  unfold daysInMonth.
  repeat match goal with |- context [match ?x with _ => _ end] => destruct x end; lia.
Qed.

Section FormatOrder.
Import JSDate.

Lemma formatDateStr_digits t :
  1000 <= getFullYear t <= 9999 ->
  formatDateStr t =
    (digits4 (getFullYear t) +:+ "-" +:+ digits2 (getMonth t + 1) +:+ "-" +:+ digits2 (getDate t))%string.
Proof.
  intros Hy. unfold formatDateStr.
  destruct (fields_of_day t) as (Hm & Hd & _).
  pose proof (daysInMonth_range (YearFromDay t) (MonthFromDay t)).
  unfold getFullYear, getMonth, getDate in *.
  rewrite str_of_Z_digits4 by done.
  rewrite !padStart2_digits2 by lia. reflexivity.
Qed.

Lemma dateNumber_fields t :
  getFullYear t = dateNumber t / 10000 /\
  getMonth t + 1 = dateNumber t / 100 mod 100 /\
  getDate t = dateNumber t mod 100.
Proof.
  destruct (fields_of_day t) as (Hm & Hd & _).
  pose proof (daysInMonth_range (YearFromDay t) (MonthFromDay t)).
  unfold dateNumber, getFullYear, getMonth, getDate. lia.
Qed.

Lemma MonthStart_mono leap m1 m2 :
  0 <= m1 -> m1 < m2 -> m2 <= 11 ->
  MonthStart leap m1 + daysInMonth (if leap then 2000 else 2001) m1 <= MonthStart leap m2.
Proof.
  intros. destruct leap; month_cases m1; month_cases m2; try lia; vm_compute; discriminate.
Qed.

Lemma dateNumber_lt a b : dateNumber a < dateNumber b -> a < b.
Proof.
  intros Hlt.
  destruct (dateNumber_fields a) as (Hya & Hma & Hda).
  destruct (dateNumber_fields b) as (Hyb & Hmb & Hdb).
  destruct (fields_of_day a) as (Hm1 & Hd1 & Ha).
  destruct (fields_of_day b) as (Hm2 & Hd2 & Hb).
  pose proof (YearFromDay_spec a) as Hsa. pose proof (YearFromDay_spec b) as Hsb.
  unfold getFullYear, getMonth, getDate, dateNumber in *.
  pose proof (daysInMonth_range (YearFromDay a) (MonthFromDay a)).
  pose proof (daysInMonth_range (YearFromDay b) (MonthFromDay b)).
  destruct (Z.lt_trichotomy (YearFromDay a) (YearFromDay b)) as [Hy | [Hy | Hy]]; [| |lia].
  - assert (DayFromYear (YearFromDay a + 1) <= DayFromYear (YearFromDay b)).
    { destruct (Z.eq_dec (YearFromDay a + 1) (YearFromDay b)) as [->|]; [lia|].
      pose proof (DayFromYear_lt (YearFromDay a + 1) (YearFromDay b)). lia. }
    lia.
  - rewrite <- Ha, <- Hb. unfold MakeDay. rewrite Hy in *.
    replace (MonthFromDay a / 12) with 0 by lia. replace (MonthFromDay b / 12) with 0 by lia.
    replace (MonthFromDay a mod 12) with (MonthFromDay a) by lia.
    replace (MonthFromDay b mod 12) with (MonthFromDay b) by lia.
    rewrite Z.add_0_r.
    destruct (Z.lt_trichotomy (MonthFromDay a) (MonthFromDay b)) as [Hmm | [Hmm | Hmm]]; [| |lia].
    + pose proof (MonthStart_mono (InLeapYear (YearFromDay b)) _ _ (proj1 Hm1) Hmm (proj2 Hm2)) as Hmono.
      assert (daysInMonth (YearFromDay b) (MonthFromDay a) =
              daysInMonth (if InLeapYear (YearFromDay b) then 2000 else 2001) (MonthFromDay a)) as Heq.
      { unfold daysInMonth. rewrite <- !InLeapYear_isLeapYear.
        destruct (InLeapYear (YearFromDay b)); reflexivity. }
      lia.
    + rewrite Hmm in *. lia.
Qed.

Lemma dateNumber_compare a b : (dateNumber a ?= dateNumber b) = (a ?= b).
Proof.
  destruct (Z.compare_spec a b) as [-> | Hlt | Hgt].
  - apply Z.compare_refl.
  - apply Z.compare_lt_iff.
    destruct (Z.lt_trichotomy (dateNumber a) (dateNumber b)) as [H | [H | H]]; [done| |].
    + destruct (dateNumber_fields a) as (Hya & Hma & Hda).
      destruct (dateNumber_fields b) as (Hyb & Hmb & Hdb).
      destruct (fields_of_day a) as (_ & _ & Ha). destruct (fields_of_day b) as (_ & _ & Hb).
      unfold getFullYear, getMonth, getDate in *.
      assert (a = b); [|lia].
      rewrite <- Ha, <- Hb. f_equal; lia.
    + apply dateNumber_lt in H. lia.
  - apply Z.compare_gt_iff.
    destruct (Z.lt_trichotomy (dateNumber a) (dateNumber b)) as [H | [H | H]]; [| |done].
    + apply dateNumber_lt in H. lia.
    + destruct (dateNumber_fields a) as (Hya & Hma & Hda).
      destruct (dateNumber_fields b) as (Hyb & Hmb & Hdb).
      destruct (fields_of_day a) as (_ & _ & Ha). destruct (fields_of_day b) as (_ & _ & Hb).
      unfold getFullYear, getMonth, getDate in *.
      assert (a = b); [|lia].
      rewrite <- Ha, <- Hb. f_equal; lia.
Qed.

End FormatOrder.

Lemma compare_digit_strings (a7 a6 a5 a4 a3 a2 a1 a0 b7 b6 b5 b4 b3 b2 b1 b0 : Z) :
  0 <= a7 <= 9 -> 0 <= a6 <= 9 -> 0 <= a5 <= 9 -> 0 <= a4 <= 9 ->
  0 <= a3 <= 9 -> 0 <= a2 <= 9 -> 0 <= a1 <= 9 -> 0 <= a0 <= 9 ->
  0 <= b7 <= 9 -> 0 <= b6 <= 9 -> 0 <= b5 <= 9 -> 0 <= b4 <= 9 ->
  0 <= b3 <= 9 -> 0 <= b2 <= 9 -> 0 <= b1 <= 9 -> 0 <= b0 <= 9 ->
  String.compare
    (String (digitChar a7) (String (digitChar a6) (String (digitChar a5) (String (digitChar a4)
      (String "-" (String (digitChar a3) (String (digitChar a2)
        (String "-" (String (digitChar a1) (String (digitChar a0) ""))))))))))
    (String (digitChar b7) (String (digitChar b6) (String (digitChar b5) (String (digitChar b4)
      (String "-" (String (digitChar b3) (String (digitChar b2)
        (String "-" (String (digitChar b1) (String (digitChar b0) "")))))))))) =
  (a7 * 10000000 + a6 * 1000000 + a5 * 100000 + a4 * 10000 + a3 * 1000 + a2 * 100 + a1 * 10 + a0
   ?= b7 * 10000000 + b6 * 1000000 + b5 * 100000 + b4 * 10000 + b3 * 1000 + b2 * 100 + b1 * 10 + b0).
Proof.
  intros. cbn [String.compare].
  rewrite !digitChar_compare by done.
  change (Ascii.compare "-" "-") with Eq. cbv iota.
  symmetry.
  repeat match goal with
  | |- _ = match (?x ?= ?y) with _ => _ end =>
      destruct (Z.compare_spec x y); [subst | apply Z.compare_lt_iff; lia | apply Z.compare_gt_iff; lia]
  end.
  apply Z.compare_refl.
Qed.

Section FormatCompare.
Import JSDate.

Lemma formatDateStr_compare a b :
  1000 <= getFullYear a <= 9999 -> 1000 <= getFullYear b <= 9999 ->
  String.compare (formatDateStr a) (formatDateStr b) = (a ?= b).
Proof.
  intros Ha Hb.
  rewrite <- dateNumber_compare.
  rewrite !formatDateStr_digits by done.
  destruct (fields_of_day a) as (Hm1 & Hd1 & _).
  destruct (fields_of_day b) as (Hm2 & Hd2 & _).
  pose proof (daysInMonth_range (YearFromDay a) (MonthFromDay a)).
  pose proof (daysInMonth_range (YearFromDay b) (MonthFromDay b)).
  unfold digits4, digits2, dateNumber, getFullYear, getMonth, getDate in *.
  cbv [String.append].
  rewrite compare_digit_strings by lia.
  f_equal; lia.
Qed.

End FormatCompare.

Lemma formatDateStr_le (a b : Z) :
  1000 <= JSDate.getFullYear a <= 9999 ->
  1000 <= JSDate.getFullYear b <= 9999 ->
  JS.str_le (formatDateStr a) (formatDateStr b) = (a <=? b).
Proof.
  intros Ha Hb. unfold JS.str_le, String.leb.
  rewrite (formatDateStr_compare a b Ha Hb). unfold Z.leb. reflexivity.
Qed.

Lemma split_nonempty sep s : JSText.split sep s <> [].
Proof. destruct s; simpl; [done|]. destruct (Ascii.eqb _ _); [done|]. destruct (JSText.split sep s); done. Qed.

Lemma string_of_uint_no_dash u part :
  JSText.split "-" (NilEmpty.string_of_uint u +:+ part) =
    match JSText.split "-" part with
    | p :: ps => (NilEmpty.string_of_uint u +:+ p) :: ps
    | [] => [NilEmpty.string_of_uint u]
    end.
Proof.
  pose proof (split_nonempty "-" part) as Hne.
  induction u; cbn [NilEmpty.string_of_uint]; cbv [String.append]; fold String.append;
    cbn [JSText.split]; try (change (Ascii.eqb _ "-") with false; cbv iota; rewrite IHu);
    destruct (JSText.split "-" part); done.
Qed.

Lemma Number_str_of_Z n : 0 <= n -> JSText.Number (JS.str_of_Z n) = Some n.
Proof.
  intros Hn. unfold JSText.Number, JS.str_of_Z.
  destruct n as [|p|p]; [reflexivity| |lia].
  cbn [Z.to_int NilZero.string_of_int]. unfold NilZero.string_of_uint.
  pose proof (DecimalPos.Unsigned.to_uint_nonnil p) as Hnil.
  destruct (Pos.to_uint p) eqn:Hp; [done|..];
    rewrite <- Hp, NilEmpty.usu; cbn; f_equal; unfold Z.of_uint;
    rewrite DecimalPos.Unsigned.of_to; reflexivity.
Qed.

Lemma str_of_Z_split n part :
  0 <= n ->
  JSText.split "-" (JS.str_of_Z n +:+ "-" +:+ part) = JS.str_of_Z n :: JSText.split "-" part.
Proof.
  intros Hn. unfold JS.str_of_Z.
  assert (exists u, NilZero.string_of_int (Z.to_int n) = NilEmpty.string_of_uint u) as [u ->].
  { destruct n as [|p|p]; [by exists (Decimal.D0 Decimal.Nil)| |lia].
    cbn [Z.to_int NilZero.string_of_int]. unfold NilZero.string_of_uint.
    pose proof (DecimalPos.Unsigned.to_uint_nonnil p) as Hnil.
    exists (Pos.to_uint p). by destruct (Pos.to_uint p). }
  rewrite string_of_uint_no_dash.
  change (JSText.split "-" ("-" +:+ part)) with (EmptyString :: JSText.split "-" part).
  f_equal. induction (NilEmpty.string_of_uint u); [done|]. cbv [String.append]. fold String.append. by f_equal.
Qed.

Lemma month_day_parts m d :
  1 <= m <= 12 -> 1 <= d <= 31 ->
  JSText.Number <$> JSText.split "-" (JS.padStart2 (JS.str_of_Z m) +:+ "-" +:+ JS.padStart2 (JS.str_of_Z d))
    = [Some m; Some d].
Proof.
  intros Hm Hd.
  pose (P := fun m d => bool_decide (JSText.Number <$> JSText.split "-"
               (JS.padStart2 (JS.str_of_Z m) +:+ "-" +:+ JS.padStart2 (JS.str_of_Z d))
               = [Some m; Some d])).
  assert (P m d = true) as HP; [|by apply bool_decide_eq_true in HP].
  apply (forall_range (fun m => P m d) 1 12); [|lia].
  apply forallb_forall. intros k Hk.
  apply (forall_range (fun d => P (1 + Z.of_nat k) d) 1 31); [|lia].
  revert k Hk. apply forallb_forall. vm_compute. reflexivity.
Qed.

Section RoundTrip.
Import JSDate.

Lemma parseLocalDate_formatDateStr t :
  100 <= getFullYear t -> parseLocalDate (formatDateStr t) = Some t.
Proof.
  intros Hy.
  destruct (fields_of_day t) as (Hm & Hd & Ht).
  pose proof (daysInMonth_range (YearFromDay t) (MonthFromDay t)).
  unfold parseLocalDate. unfold getFullYear in *.
  assert (JS.truthy (Some (formatDateStr t)) = true) as ->.
  { unfold formatDateStr, JS.truthy.
    destruct (JS.str_of_Z (getFullYear t)) eqn:Hs; [|done].
    exfalso. pose proof (Number_str_of_Z (getFullYear t)) as Hnum.
    rewrite Hs in Hnum. unfold getFullYear in Hnum. cbn in Hnum. injection Hnum; [lia | lia]. }
  cbn [negb]. unfold formatDateStr.
  rewrite str_of_Z_split by (unfold getFullYear; lia).
  cbn [fmap list_fmap]. change (list_fmap _ _ JSText.Number) with (fmap (M:=list) JSText.Number).
  rewrite Number_str_of_Z by (unfold getFullYear; lia).
  rewrite month_day_parts by (unfold getMonth, getDate; lia).
  f_equal. unfold make, getFullYear, getMonth, getDate.
  replace ((0 <=? YearFromDay t) && (YearFromDay t <=? 99)) with false by lia.
  replace (MonthFromDay t + 1 - 1) with (MonthFromDay t) by lia. exact Ht.
Qed.

End RoundTrip.

(** X1. In month mode with a month from 0 to 11, the period has as many days
    as that month has in the year that the Date constructor takes (1900 + year
    for a year from 0 to 99, the year itself otherwise), and column d of the
    period is day d + 1 of that month and year. *)
Theorem month_mode_columns (st : AppState) (d : Z) :
  calendarStyle st = monthly ->
  0 <= month st <= 11 ->
  getDaysInPeriod st = daysInMonth (yearOfDate (year st)) (month st) /\
  (0 <= d < getDaysInPeriod st ->
   JSDate.getFullYear (getDateForDay st d) = yearOfDate (year st) /\
   JSDate.getMonth (getDateForDay st d) = month st /\
   JSDate.getDate (getDateForDay st d) = d + 1).
Proof.
  intros Hstyle Hmonth.
  assert (Hdays : getDaysInPeriod st = daysInMonth (yearOfDate (year st)) (month st)).
  { unfold getDaysInPeriod, JSDate.make, yearOfDate. rewrite Hstyle.
    by rewrite lastDayOfMonth. }
  split; [done|]. intros Hd. rewrite Hdays in Hd.
  unfold getDateForDay, JSDate.make. rewrite Hstyle. fold (yearOfDate (year st)).
  apply MakeDay_fields; [done | lia].
Qed.

Lemma month_mode_columns_witness :
  getDaysInPeriod februaryOfYear0 = daysInMonth 1900 1 /\
  (0 <= 27 < getDaysInPeriod februaryOfYear0 ->
   JSDate.getFullYear (getDateForDay februaryOfYear0 27) = 1900 /\
   JSDate.getMonth (getDateForDay februaryOfYear0 27) = 1 /\
   JSDate.getDate (getDateForDay februaryOfYear0 27) = 27 + 1).
Proof.
  apply (month_mode_columns februaryOfYear0 27).
  - reflexivity.
  - vm_compute. split; discriminate.
Defined.

(** X2. For dates whose years have four digits (1000 to 9999), the string
    comparison a <= b of two formatted dates gives the order of the dates, and
    two dates are formatted alike only when they are the same day. *)
Theorem formatDateStr_order (a b : Z) :
  1000 <= JSDate.getFullYear a <= 9999 ->
  1000 <= JSDate.getFullYear b <= 9999 ->
  JS.str_le (formatDateStr a) (formatDateStr b) = (a <=? b) /\
  (formatDateStr a = formatDateStr b <-> a = b).
Proof.
  intros Ha Hb. pose proof (formatDateStr_compare a b Ha Hb) as Hcmp. split.
  - by apply formatDateStr_le.
  - split; [|by intros ->]. intros Heq.
    apply Z.compare_eq. rewrite <- Hcmp, Heq.
    clear. induction (formatDateStr b) as [|c s IH]; [done|]. simpl.
    assert ((c ?= c)%char = Eq) as ->; [|done]. unfold Ascii.compare. apply N.compare_refl.
Qed.

Lemma formatDateStr_order_witness :
  JS.str_le (formatDateStr (JSDate.make 2025 4 9)) (formatDateStr (JSDate.make 2025 4 10))
    = (JSDate.make 2025 4 9 <=? JSDate.make 2025 4 10) /\
  (formatDateStr (JSDate.make 2025 4 9) = formatDateStr (JSDate.make 2025 4 10) <->
   JSDate.make 2025 4 9 = JSDate.make 2025 4 10).
Proof.
  apply (formatDateStr_order (JSDate.make 2025 4 9) (JSDate.make 2025 4 10)).
  - vm_compute. split; discriminate.
  - vm_compute. split; discriminate.
Defined.

(** Outside four-digit years the order of the strings is not that of the dates. *)
Example formatDateStr_order_year_10000 :
  JSDate.make 9999 11 31 < JSDate.make 10000 0 1 /\
  JS.str_le (formatDateStr (JSDate.make 10000 0 1)) (formatDateStr (JSDate.make 9999 11 31)) = true.
Proof. vm_compute. auto. Qed.

(** X3. parseLocalDate reads the string that formatDateStr writes for a date
    back as that date, for every date whose year is at least 100. *)
Theorem parseLocalDate_reads_formatDateStr (t : Z) :
  100 <= JSDate.getFullYear t -> parseLocalDate (formatDateStr t) = Some t.
Proof. apply parseLocalDate_formatDateStr. Qed.

Lemma parseLocalDate_reads_formatDateStr_witness :
  parseLocalDate (formatDateStr (JSDate.make 2025 4 1)) = Some (JSDate.make 2025 4 1).
Proof.
  apply (parseLocalDate_reads_formatDateStr (JSDate.make 2025 4 1)).
  vm_compute. discriminate.
Defined.

(** A two-digit year does not come back. *)
Example parseLocalDate_two_digit_year :
  JSDate.getFullYear (JSDate.MakeDay 25 4 1) = 25 /\
  formatDateStr (JSDate.MakeDay 25 4 1) = "25-05-01"%string /\
  parseLocalDate "25-05-01" = Some (JSDate.MakeDay 1925 4 1) /\
  parseLocalDate "" = None.
Proof. vm_compute. auto. Qed.

(* ====================================================================== *)
(** ** The pre-fill of the time off *)
(* ====================================================================== *)

Lemma truthy_Some s : JS.truthy (Some s) = true <-> s <> ""%string.
Proof. unfold JS.truthy. destruct (String.eqb_spec s ""); simpl; split; congruence. Qed.

Lemma prefillEntry_cell st sch emp u i d :
  rowsOk st sch -> emp ∈ allEmployees st ->
  getCell (prefillEntry st (id emp) sch u) i d =
    if decide (i = id emp /\ (d < numDays st)%nat /\ coversDay st u d = true)
    then Some (absenceCode (u_type u)) else getCell sch i d.
Proof.
  intros Hok Hemp. unfold prefillEntry, coversDay. cbv zeta.
  destruct (JS.truthy (u_startDate u)); cbn [negb andb].
  2: { rewrite decide_False; [done|]. by intros (_ & _ & ?). }
  set (startStr := default ""%string (u_startDate u)).
  set (endStr := if JS.truthy (u_endDate u) then default ""%string (u_endDate u) else startStr).
  pose (test := fun d : nat =>
    JS.str_le startStr (formatDateStr (getDateForDay st (Z.of_nat d))) &&
    JS.str_le (formatDateStr (getDateForDay st (Z.of_nat d))) endStr).
  change (foldl _ sch (days st)) with
    (foldl (fun sch d => if test d then setCell sch (id emp) d (Some (absenceCode (u_type u))) else sch) sch (days st)).
  change (JS.str_le _ _ && JS.str_le _ _) with (test d).
  assert (Hgen : forall l : list nat, (forall x, x ∈ l -> (x < numDays st)%nat) ->
    rowsOk st (foldl (fun sch d => if test d then setCell sch (id emp) d (Some (absenceCode (u_type u))) else sch) sch l) /\
    getCell (foldl (fun sch d => if test d then setCell sch (id emp) d (Some (absenceCode (u_type u))) else sch) sch l) i d =
      if decide (i = id emp /\ d ∈ l /\ test d = true)
      then Some (absenceCode (u_type u)) else getCell sch i d).
  { induction l as [|x l IH] using rev_ind; intros Hl.
    - simpl. split; [done|]. rewrite decide_False; [done|]. intros (_ & Hin & _). by apply elem_of_nil in Hin.
    - rewrite foldl_app. simpl.
      destruct IH as [IHok IH]. { intros y Hy. apply Hl, elem_of_app. by left. }
      assert (x < numDays st)%nat as Hx. { apply Hl, elem_of_app. right. by apply list_elem_of_singleton. }
      destruct (test x) eqn:Htx.
      + split; [by apply rowsOk_setCell|].
        destruct (decide ((id emp, x) = (i, d))) as [Heq|Hne].
        * injection Heq as <- <-.
          rewrite (getCell_setCell_eq_ok st) by done.
          rewrite decide_True; [done|]. split; [done|]. split; [|done].
          apply elem_of_app. right. by apply list_elem_of_singleton.
        * rewrite getCell_setCell_ne by done. rewrite IH.
          apply decide_ext. rewrite elem_of_app, list_elem_of_singleton.
          split; [intros (-> & Hin & Ht); auto|].
          intros (-> & [Hin| ->] & Ht); [done|]. congruence.
      + split; [done|]. rewrite IH. apply decide_ext.
        rewrite elem_of_app, list_elem_of_singleton.
        split; [intros (-> & Hin & Ht); auto|].
        intros (-> & [Hin| ->] & Ht); [done|]. congruence. }
  destruct (Hgen (days st)) as [_ ->].
  { intros x Hx. unfold days in Hx. apply elem_of_seq in Hx. lia. }
  apply decide_ext. unfold days. rewrite elem_of_seq. intuition lia.
Qed.

Lemma prefillEntries_cell st sch emp us i d :
  rowsOk st sch -> emp ∈ allEmployees st ->
  rowsOk st (foldl (prefillEntry st (id emp)) sch us) /\
  getCell (foldl (prefillEntry st (id emp)) sch us) i d =
    if decide (i = id emp /\ (d < numDays st)%nat)
    then match lastCovering st us d with
         | Some u => Some (absenceCode (u_type u))
         | None => getCell sch i d
         end
    else getCell sch i d.
Proof.
  intros Hok Hemp. unfold lastCovering.
  induction us as [|u us IH] using rev_ind.
  - simpl. split; [done|]. by destruct (decide _).
  - rewrite foldl_app. simpl. destruct IH as [IHok IH].
    split; [by apply rowsOk_prefillEntry|].
    rewrite prefillEntry_cell by done. rewrite IH.
    rewrite List.filter_app. simpl.
    destruct (decide (i = id emp /\ (d < numDays st)%nat)) as [[-> Hd]|Hn].
    + destruct (coversDay st u d) eqn:Hc.
      * rewrite decide_True by done. by rewrite last_snoc.
      * rewrite decide_False by (intros (_ & _ & ?); done). by rewrite app_nil_r.
    + rewrite decide_False; [done|]. intros (? & ? & _). by apply Hn.
Qed.

Lemma prefill_cell st emp d :
  emp ∈ allEmployees st -> (d < numDays st)%nat ->
  getCell (prefillUnavailability st (initSchedule st)) (id emp) d =
    (fun u => absenceCode (u_type u)) <$> lastCovering st (unavailability (m_emp emp)) d.
Proof.
  intros Hemp Hd. unfold prefillUnavailability.
  pose proof (NoDup_ids st) as Hnd.
  assert (Hgen : forall l sch, NoDup (id <$> l) -> (forall e, e ∈ l -> e ∈ allEmployees st) ->
    rowsOk st sch ->
    rowsOk st (foldl (fun sch emp => foldl (prefillEntry st (id emp)) sch (unavailability (m_emp emp))) sch l) /\
    getCell (foldl (fun sch emp => foldl (prefillEntry st (id emp)) sch (unavailability (m_emp emp))) sch l) (id emp) d =
      if decide (id emp ∈ id <$> l)
      then match lastCovering st (unavailability (m_emp emp)) d with
           | Some u => Some (absenceCode (u_type u))
           | None => getCell sch (id emp) d
           end
      else getCell sch (id emp) d).
  { induction l as [|e l IH] using rev_ind; intros sch Hndl Hl Hok.
    - split; [done|]. cbn [foldl fmap list_fmap].
      destruct (decide _) as [Hin|]; [by apply elem_of_nil in Hin | done].
    - rewrite foldl_app. simpl.
      rewrite fmap_app in Hndl. apply NoDup_app in Hndl as (Hnd1 & Hnd2 & _).
      destruct (IH sch Hnd1) as [IHok IHc]; [|done|].
      { intros y Hy. apply Hl, elem_of_app. by left. }
      assert (e ∈ allEmployees st) as He. { apply Hl, elem_of_app. right. by apply list_elem_of_singleton. }
      destruct (prefillEntries_cell st _ e (unavailability (m_emp e)) (id emp) d IHok He) as [Hok' ->].
      split; [done|]. rewrite IHc. rewrite fmap_app. simpl.
      destruct (decide (id emp = id e)) as [Heq|Hne].
      + assert (emp = e) as <- by (by apply (NoDup_fmap_eq id (allEmployees st))).
        rewrite decide_True by done.
        rewrite (decide_True (P := id emp ∈ (id <$> l) ++ [id emp])).
        2: { apply elem_of_app. right. by apply list_elem_of_singleton. }
        rewrite decide_False; [done|].
        intros Hin. apply (Hnd2 (id emp)); [done|].
        by apply list_elem_of_singleton.
      + rewrite decide_False by (intros [? _]; done).
        apply decide_ext. rewrite elem_of_app, list_elem_of_singleton.
        split; [by left|]. intros [?|?]; done. }
  destruct (Hgen (allEmployees st) (initSchedule st)) as [_ ->]; [done|done|apply rowsOk_initSchedule|].
  rewrite decide_True by (by apply list_elem_of_fmap_2). rewrite getCell_initSchedule.
  by destruct (lastCovering _ _ _).
Qed.

(** X4. Pre-filling one time-off entry whose start and end are formatted dates
    writes the absence code of the entry into the cell of the employee at a
    day of the period exactly when the date of the day lies between start and
    end, both included, and leaves the cell as it was otherwise (start, end
    and the date of the day with four-digit years). *)
Theorem entry_marks_its_window (st : AppState) (sch : Schedule) (emp : Member)
    (kind : AbsenceKind) (first last : Z) (d : nat) :
  rowsOk st sch ->
  emp ∈ allEmployees st ->
  (d < numDays st)%nat ->
  1000 <= JSDate.getFullYear first <= 9999 ->
  1000 <= JSDate.getFullYear last <= 9999 ->
  1000 <= JSDate.getFullYear (getDateForDay st (Z.of_nat d)) <= 9999 ->
  getCell (prefillEntry st (id emp) sch
             {| u_type := kind; u_startDate := Some (formatDateStr first);
                u_endDate := Some (formatDateStr last) |}) (id emp) d =
    if (first <=? getDateForDay st (Z.of_nat d)) && (getDateForDay st (Z.of_nat d) <=? last)
    then Some (absenceCode kind) else getCell sch (id emp) d.
Proof.
  intros Hok Hemp Hd Hfirst Hlast Hday.
  rewrite (prefillEntry_cell st sch emp _ (id emp) d Hok Hemp).
  assert (Htruthy : forall t, 100 <= JSDate.getFullYear t -> JS.truthy (Some (formatDateStr t)) = true).
  { intros t Ht. apply truthy_Some. intros Heq.
    pose proof (parseLocalDate_formatDateStr t Ht) as Hparse. by rewrite Heq in Hparse. }
  assert (Hcov : coversDay st {| u_type := kind; u_startDate := Some (formatDateStr first);
                                 u_endDate := Some (formatDateStr last) |} d =
                 (first <=? getDateForDay st (Z.of_nat d)) && (getDateForDay st (Z.of_nat d) <=? last)).
  { unfold coversDay. cbn [u_startDate u_endDate]. cbv zeta.
    rewrite !Htruthy by lia. cbn [andb default from_option]. cbv [Datatypes.id].
    by rewrite (formatDateStr_le _ _ Hfirst Hday), (formatDateStr_le _ _ Hday Hlast). }
  rewrite Hcov. cbn [u_type].
  destruct (_ && _); [rewrite decide_True | rewrite decide_False]; try done.
  by intros (_ & _ & ?).
Qed.

Lemma entry_marks_its_window_witness :
  getCell (prefillEntry scenarioB (0%nat, 1%nat) (initSchedule scenarioB)
             {| u_type := TAD; u_startDate := Some (formatDateStr (JSDate.make 2025 4 2));
                u_endDate := Some (formatDateStr (JSDate.make 2025 4 9)) |}) (0%nat, 1%nat) 1 =
    if (JSDate.make 2025 4 2 <=? getDateForDay scenarioB (Z.of_nat 1)) &&
       (getDateForDay scenarioB (Z.of_nat 1) <=? JSDate.make 2025 4 9)
    then Some (absenceCode TAD) else getCell (initSchedule scenarioB) (0%nat, 1%nat) 1.
Proof.
  apply (entry_marks_its_window scenarioB (initSchedule scenarioB) (memberOf 0 1 (free "Blake"))
           TAD (JSDate.make 2025 4 2) (JSDate.make 2025 4 9) 1).
  - apply rowsOk_initSchedule.
  - apply list_elem_of_In. vm_compute. auto.
  - vm_compute. lia.
  - vm_compute. split; discriminate.
  - vm_compute. split; discriminate.
  - vm_compute. split; discriminate.
Defined.

(** X5. After the pre-fill the cell of an employee at a day holds the absence
    code of the last entry of the employee's list that covers the day, and is
    empty when none does; the grid that the run stores still holds that code. *)
Theorem last_covering_entry_decides (Math_sin : Z -> Q) (st : AppState) (emp : Member) (d : nat) :
  emp ∈ allEmployees st ->
  (d < numDays st)%nat ->
  getCell (prefillUnavailability st (initSchedule st)) (id emp) d =
    (fun unavail => absenceCode (u_type unavail)) <$> lastCovering st (unavailability (m_emp emp)) d /\
  exists grid,
    schedule (runScheduler Math_sin st) = Some grid /\
    forall unavail,
      lastCovering st (unavailability (m_emp emp)) d = Some unavail ->
      getCell grid (id emp) d = Some (absenceCode (u_type unavail)).
Proof.
  intros Hemp Hd. pose proof (prefill_cell st emp d Hemp Hd) as Hpre.
  split; [done|].
  exists (r_schedule (finalRun Math_sin st)). split.
  { unfold runScheduler. destruct (allEmployees st); [by apply elem_of_nil in Hemp | done]. }
  intros u Hu. apply (finalRun_keeps Math_sin st). cbn [r_schedule initialRun].
  by rewrite Hpre, Hu.
Qed.

Lemma last_covering_entry_decides_witness :
  getCell (prefillUnavailability leaveThenTraining (initSchedule leaveThenTraining)) (0%nat, 0%nat) 1 =
    (fun unavail => absenceCode (u_type unavail)) <$>
      lastCovering leaveThenTraining
        (unavailability (m_emp (memberOf 0 0
           {| name := "Avery";
              unavailability :=
                [{| u_type := LEAVE; u_startDate := Some "2025-05-01"%string;
                    u_endDate := Some "2025-05-02"%string |};
                 {| u_type := TAD; u_startDate := Some "2025-05-02"%string;
                    u_endDate := Some "2025-05-02"%string |}] |}))) 1 /\
  exists grid,
    schedule (runScheduler sinZero leaveThenTraining) = Some grid /\
    forall unavail,
      lastCovering leaveThenTraining
        (unavailability (m_emp (memberOf 0 0
           {| name := "Avery";
              unavailability :=
                [{| u_type := LEAVE; u_startDate := Some "2025-05-01"%string;
                    u_endDate := Some "2025-05-02"%string |};
                 {| u_type := TAD; u_startDate := Some "2025-05-02"%string;
                    u_endDate := Some "2025-05-02"%string |}] |}))) 1 = Some unavail ->
      getCell grid (0%nat, 0%nat) 1 = Some (absenceCode (u_type unavail)).
Proof.
  apply (last_covering_entry_decides sinZero leaveThenTraining
           (memberOf 0 0
              {| name := "Avery";
                 unavailability :=
                   [{| u_type := LEAVE; u_startDate := Some "2025-05-01"%string;
                       u_endDate := Some "2025-05-02"%string |};
                    {| u_type := TAD; u_startDate := Some "2025-05-02"%string;
                       u_endDate := Some "2025-05-02"%string |}] |}) 1).
  - apply list_elem_of_In. vm_compute. auto.
  - vm_compute. lia.
Defined.

Example leaveThenTraining_run :
  (schedule (runScheduler sinZero leaveThenTraining) ≫= fun grid => grid !! (0%nat, 0%nat))
    = Some [Some "LEAVE"%string; Some "TAD"%string].
Proof. vm_compute. reflexivity. Qed.

(* ====================================================================== *)
(** ** The order of the working shifts *)
(* ====================================================================== *)

Section StableByKey.
Context {A S : Type}.
Variable compareFn : A -> A -> S -> Q * S.
Variable key : A -> Z.
Hypothesis compare_le : forall a b s, key a <= key b -> JS.Qltb 0 (fst (compareFn a b s)) = false.

Lemma insertSorted_keeps_order k x r s :
  List.filter (fun a => key a =? k) (fst (insertSorted compareFn x r s)) =
  List.filter (fun a => key a =? k) (x :: r).
Proof.
  revert s. induction r as [|y r IH]; intros s; [done|].
  cbn [insertSorted].
  destruct (compareFn y x s) as [c s1] eqn:Hc.
  destruct (JS.Qltb 0 c) eqn:Hpos; [|done].
  specialize (IH s1). destruct (insertSorted compareFn x r s1) as [r' s2].
  cbn [fst] in *. cbn [List.filter] in *. rewrite IH.
  assert (key x < key y) as Hlt.
  { destruct (Z.lt_ge_cases (key x) (key y)) as [|Hge]; [done|].
    pose proof (compare_le y x s ltac:(lia)) as Hfalse. rewrite Hc in Hfalse. simpl in Hfalse. congruence. }
  destruct (Z.eqb_spec (key y) k), (Z.eqb_spec (key x) k); try done. lia.
Qed.

Lemma Array_sort_stable k l s :
  List.filter (fun a => key a =? k) (fst (Array_sort compareFn l s)) =
  List.filter (fun a => key a =? k) l.
Proof.
  unfold Array_sort.
  assert (Hgen : forall acc,
    List.filter (fun a => key a =? k)
      (fst (foldl (fun acc x => insertSorted compareFn x (fst acc) (snd acc)) acc l)) =
    List.filter (fun a => key a =? k) (rev l ++ fst acc)).
  { induction l as [|x l IH]; intros acc; simpl; [done|].
    rewrite IH. rewrite !List.filter_app, insertSorted_keeps_order.
    rewrite <- app_assoc. f_equal. change (x :: fst acc) with ([x] ++ fst acc).
    by rewrite List.filter_app. }
  specialize (Hgen ([], s)). destruct (foldl _ _ l) as [r s']. cbn [fst] in *.
  rewrite app_nil_r in Hgen.
  by rewrite List.filter_rev, Hgen, List.filter_rev, rev_involutive.
Qed.

End StableByKey.

Lemma sorted_split {A} (key : A -> Z) (k : Z) (l : list A) :
  StronglySorted (fun a b => key a <= key b) l ->
  l = List.filter (fun a => key a <=? k) l ++ List.filter (fun a => negb (key a <=? k)) l.
Proof.
  induction l as [|x l IH]; intros Hs; [done|].
  apply StronglySorted_inv in Hs as [Hl Hx]. cbn [List.filter].
  destruct (Z.leb_spec (key x) k) as [Hle|Hgt]; cbn [negb].
  - simpl. f_equal. by apply IH.
  - assert (List.filter (fun a => key a <=? k) l = []) as ->.
    { clear IH Hl. induction l as [|y l IH]; [done|]. apply Forall_cons in Hx as [Hy Hx].
      cbn [List.filter]. destruct (Z.leb_spec (key y) k); [lia | by apply IH]. }
    simpl. f_equal.
    clear IH Hl. induction l as [|y l IH]; [done|]. apply Forall_cons in Hx as [Hy Hx].
    cbn [List.filter]. destruct (Z.leb_spec (key y) k); [lia|]. cbn [negb]. f_equal. by apply IH.
Qed.

Lemma filter_ext_Forall {A} (f g : A -> bool) (l : list A) :
  Forall (fun a => f a = g a) l -> List.filter f l = List.filter g l.
Proof.
  induction 1 as [|x l Hx Hl IH]; [done|]. cbn [List.filter]. by rewrite Hx, IH.
Qed.

Lemma filter_filter {A} (f g : A -> bool) (l : list A) :
  List.filter f (List.filter g l) = List.filter (fun a => g a && f a) l.
Proof.
  induction l as [|x l IH]; [done|]. cbn [List.filter].
  destruct (g x); cbn [List.filter andb]; [destruct (f x)|]; by rewrite IH.
Qed.

Lemma StronglySorted_filter {A} (R : A -> A -> Prop) (f : A -> bool) (l : list A) :
  StronglySorted R l -> StronglySorted R (List.filter f l).
Proof.
  induction 1 as [|x l Hl IH Hx]; [constructor|]. cbn [List.filter].
  destruct (f x); [|done]. constructor; [done|].
  rewrite Forall_forall in *. intros y Hy. apply Hx.
  apply list_elem_of_In, filter_In in Hy as [Hy _]. by apply list_elem_of_In.
Qed.

(** Working shifts in the order of the day loop. *)
Lemma shiftPriority_cases c :
  (shiftPriority c = 1 /\ c = "N"%string) \/
  (shiftPriority c = 2 /\ c = "E"%string) \/
  (shiftPriority c = 3 /\ c = "D"%string) \/
  (shiftPriority c = 10 /\ c <> "N"%string /\ c <> "E"%string /\ c <> "D"%string).
Proof.
  unfold shiftPriority.
  destruct (String.eqb_spec c "N"); [auto|].
  destruct (String.eqb_spec c "E"); [auto|].
  destruct (String.eqb_spec c "D"); [auto|]. auto 10.
Qed.

(** X6. The run takes the working shifts in this order: the shifts coded N,
    then those coded E, then those coded D, then all others, each group in the
    order of the catalogue. *)
Theorem workingShifts_priority_order (st : AppState) :
  let W := List.filter isWorking (shifts st) in
  workingShifts st =
    List.filter (fun s => String.eqb (code s) "N") W ++
    List.filter (fun s => String.eqb (code s) "E") W ++
    List.filter (fun s => String.eqb (code s) "D") W ++
    List.filter (fun s => otherCode (code s)) W.
Proof.
  intros W. unfold workingShifts. fold W.
  set (cmp := fun a b (_ : unit) => (inject_Z (shiftPriority (code a) - shiftPriority (code b)), tt)).
  set (key := fun s : Shift => shiftPriority (code s)).
  assert (Hle : forall a b s, key a <= key b -> JS.Qltb 0 (fst (cmp a b s)) = false).
  { intros a b s Hab. unfold cmp, key in Hab |- *. simpl. unfold JS.Qltb.
    destruct (Qcompare_spec 0 (inject_Z (shiftPriority (code a) - shiftPriority (code b)))) as [| Hlt |]; try done.
    exfalso. change 0%Q with (inject_Z 0) in Hlt. rewrite <- Zlt_Qlt in Hlt. lia. }
  assert (Hlt : forall a b s, key a < key b -> JS.Qltb 0 (fst (cmp a b s)) = false).
  { intros. apply Hle. lia. }
  assert (Hgt : forall a b s, key b < key a -> JS.Qltb 0 (fst (cmp a b s)) = true).
  { intros a b s Hab. unfold cmp, key in Hab |- *. simpl. unfold JS.Qltb.
    destruct (Qcompare_spec 0 (inject_Z (shiftPriority (code a) - shiftPriority (code b)))) as [Heq | | Hgt]; try done.
    - exfalso. unfold Qeq in Heq. simpl in Heq. lia.
    - exfalso. change 0%Q with (inject_Z 0) in Hgt. rewrite <- Zlt_Qlt in Hgt. lia. }
  pose proof (Array_sort_ascending cmp key Hlt Hgt W tt) as Hsorted.
  pose proof (fun k => Array_sort_stable cmp key Hle k W tt) as Hstable.
  set (sorted := fst (Array_sort cmp W tt)) in *.
  assert (Hkey : forall (l : list Shift) k (f : string -> bool),
            (forall c, f c = (shiftPriority c =? k)) ->
            List.filter (fun s => f (code s)) l = List.filter (fun s => key s =? k) l).
  { intros l k f Hf. apply filter_ext_Forall, Forall_forall. intros s _. apply Hf. }
  rewrite (Hkey W 1 (fun c => String.eqb c "N")), (Hkey W 2 (fun c => String.eqb c "E")),
    (Hkey W 3 (fun c => String.eqb c "D")), (Hkey W 10 otherCode).
  2-5: intros c; unfold otherCode; destruct (shiftPriority_cases c) as [[-> Hc]|[[-> Hc]|[[-> Hc]|[-> (H1 & H2 & H3)]]]];
    try subst c; try reflexivity;
    repeat match goal with H : _ <> _ |- _ => apply String.eqb_neq in H; rewrite H end; reflexivity.
  rewrite <- !Hstable.
  rewrite (sorted_split key 1 sorted Hsorted) at 1.
  f_equal.
  { apply filter_ext_Forall, Forall_forall. intros s _. unfold key.
    destruct (shiftPriority_cases (code s)) as [[-> _]|[[-> _]|[[-> _]|[-> _]]]]; reflexivity. }
  set (r1 := List.filter (fun a => negb (key a <=? 1)) sorted).
  assert (StronglySorted (fun a b => key a <= key b) r1) as Hs1 by (by apply StronglySorted_filter).
  rewrite (sorted_split key 2 r1 Hs1). unfold r1. rewrite !filter_filter.
  f_equal.
  { apply filter_ext_Forall, Forall_forall. intros s _. unfold key.
    destruct (shiftPriority_cases (code s)) as [[-> _]|[[-> _]|[[-> _]|[-> _]]]]; reflexivity. }
  set (r2 := List.filter (fun a => negb (key a <=? 1) && negb (key a <=? 2)) sorted).
  assert (StronglySorted (fun a b => key a <= key b) r2) as Hs2 by (by apply StronglySorted_filter).
  rewrite (sorted_split key 3 r2 Hs2). unfold r2. rewrite !filter_filter.
  f_equal.
  { apply filter_ext_Forall, Forall_forall. intros s _. unfold key.
    destruct (shiftPriority_cases (code s)) as [[-> _]|[[-> _]|[[-> _]|[-> _]]]]; reflexivity. }
  apply filter_ext_Forall, Forall_forall. intros s _. unfold key.
  destruct (shiftPriority_cases (code s)) as [[-> _]|[[-> _]|[[-> _]|[-> _]]]]; reflexivity.
Qed.

(* ====================================================================== *)
(** ** What the run writes *)
(* ====================================================================== *)

#[local] Instance writesOnly_refl ok : Reflexive (writesOnly ok).
Proof. intros s i d. by left. Qed.

#[local] Instance writesOnly_trans ok : Transitive (writesOnly ok).
Proof.
  intros s1 s2 s3 H12 H23 i d.
  destruct (H23 i d) as [H3 | (H2 & c & H3 & Hok)], (H12 i d) as [H1 | (H1 & c' & H2' & Hok')].
  - left. congruence.
  - right. split; [done|]. exists c'. split; [congruence | done].
  - right. split; [congruence|]. by exists c.
  - congruence.
Qed.

Section WritesOnly.
Variable ok : Id -> nat -> string -> Prop.

Lemma writesOnly_setCell s i d c :
  getCell s i d = None -> ok i d c -> writesOnly ok s (setCell s i d (Some c)).
Proof.
  intros Hnull Hok i' d'.
  destruct (decide ((i, d) = (i', d'))) as [[= <- <-]|Hne].
  - destruct (getCell_setCell_cases s i d (Some c) i d) as [H|H]; [|by left].
    right. split; [done|]. by exists c.
  - left. by apply getCell_setCell_ne.
Qed.

Lemma writesOnly_weaken (ok' : Id -> nat -> string -> Prop) s1 s2 :
  (forall i d c, ok i d c -> ok' i d c) -> writesOnly ok s1 s2 -> writesOnly ok' s1 s2.
Proof.
  intros Himp H i d. destruct (H i d) as [?|(? & c & ? & ?)]; [by left|].
  right. split; [done|]. exists c. auto.
Qed.

End WritesOnly.

#[local] Instance runWrites_refl ok : Reflexive (runWrites ok).
Proof. intros r. apply writesOnly_refl. Qed.

#[local] Instance runWrites_trans ok : Transitive (runWrites ok).
Proof. intros r1 r2 r3. apply writesOnly_trans. Qed.

Section Writes.
Variable Math_sin : Z -> Q.
Variable st : AppState.

Lemma scheduleShift_writes d run shift :
  shift ∈ workingShifts st ->
  runWrites (assignable st working) run (scheduleShift Math_sin st d run shift).
Proof.
  intros Hshift. unfold runWrites. rewrite scheduleShift_schedule.
  assert (Hav : forall emp, emp ∈ chosen Math_sin st d run shift ->
            getCell (r_schedule run) (id emp) d = None /\ shouldWorkOnDay st (id emp) d = true).
  { intros emp He. apply chosen_available in He as [_ Hav].
    split; [by apply isAvailable_null in Hav|].
    unfold isAvailable in Hav.
    destruct (negb (bool_decide _)); [done|].
    by destruct (shouldWorkOnDay st (id emp) d). }
  revert Hav. generalize (chosen Math_sin st d run shift). intros l.
  induction l as [|emp l IH] using rev_ind; intros Hav; [reflexivity|].
  rewrite foldl_app. simpl.
  etransitivity; [apply IH; intros e He; apply Hav, elem_of_app; by left|].
  destruct (Hav emp) as [Hnull Hon]. { apply elem_of_app. right. by apply list_elem_of_singleton. }
  set (s' := foldl _ _ l).
  destruct (decide (getCell s' (id emp) d = None)) as [Hn|Hn].
  - apply writesOnly_setCell; [done|]. split; [done|].
    apply workingShifts_elem in Hshift as [Hin Hw]. exists shift.
    split; [done|]. split; [by apply isWorking_type | done].
  - intros i' d'. left.
    destruct (decide ((id emp, d) = (i', d'))) as [[= <- <-]|Hne]; [|by apply getCell_setCell_ne].
    destruct (getCell_foldl_setCell_cases (r_schedule run) l d (Some (code shift)) (id emp) d) as [H|H].
    + fold s' in H. destruct (getCell_setCell_cases s' (id emp) d (Some (code shift)) (id emp) d) as [H'|H'];
        congruence.
    + fold s' in H. congruence.
Qed.

Lemma workingPass_writes :
  runWrites (assignable st working) (initialRun st) (workingPass Math_sin st (initialRun st)).
Proof.
  unfold workingPass. apply (foldl_related (runWrites _)).
  intros run d _. unfold scheduleDay.
  change (runWrites (assignable st working) run
            (foldl (scheduleShift Math_sin st d) run (workingShifts st))).
  apply (foldl_related (runWrites _)).
  intros r shift Hin. by apply scheduleShift_writes.
Qed.

Lemma backupPass_writes run :
  runWrites (assignable st backup) run (backupPass Math_sin st run).
Proof.
  unfold backupPass.
  destruct (List.find _ _) as [b|] eqn:Hfind; [|reflexivity].
  assert (b ∈ shifts st /\ type b = backup) as [Hb Ht].
  { apply find_some in Hfind as [Hin Ht]. split; [by apply list_elem_of_In|]. by destruct (type b). }
  apply (foldl_related (runWrites _)). intros r d _.
  apply (foldl_related (runWrites _)). intros r' emp _.
  unfold backupStep.
  case_bool_decide as Hnull; simpl; [|reflexivity].
  destruct (shouldWorkOnDay st (id emp) d) eqn:Hon; simpl; [|reflexivity].
  destruct (JS.Qltb _ _); simpl; [|reflexivity].
  destruct (JS.Qltb _ _); simpl; [|by intros i' d'; left].
  apply writesOnly_setCell; [done|]. split; [done|]. by exists b.
Qed.

Lemma adminPass_writes run :
  runWrites (assignable st admin) run (adminPass Math_sin st run).
Proof.
  unfold adminPass.
  destruct (List.find _ _) as [a|] eqn:Hfind; [|reflexivity].
  assert (a ∈ shifts st /\ type a = admin) as [Ha Ht].
  { apply find_some in Hfind as [Hin Ht]. split; [by apply list_elem_of_In|]. by destruct (type a). }
  apply (foldl_related (runWrites _)). intros r d _.
  apply (foldl_related (runWrites _)). intros r' emp _.
  unfold adminStep.
  case_bool_decide as Hnull; simpl; [|reflexivity].
  destruct (shouldWorkOnDay st (id emp) d) eqn:Hon; simpl; [|reflexivity].
  destruct (JS.Qltb _ _); simpl; [|by intros i' d'; left].
  apply writesOnly_setCell; [done|]. split; [done|]. by exists a.
Qed.

Lemma finalRun_writes :
  writesOnly (fun i d c => exists t, assignable st t i d c)
    (prefillUnavailability st (initSchedule st)) (r_schedule (finalRun Math_sin st)).
Proof.
  unfold finalRun. rewrite auditPass_schedule.
  change (prefillUnavailability st (initSchedule st)) with (r_schedule (initialRun st)).
  etransitivity; [|etransitivity].
  - eapply writesOnly_weaken; [|apply workingPass_writes]. intros i d c H. by exists working.
  - eapply writesOnly_weaken; [|apply backupPass_writes]. intros i d c H. by exists backup.
  - eapply writesOnly_weaken; [|apply adminPass_writes]. intros i d c H. by exists admin.
Qed.

End Writes.

#[local] Instance sameShape_refl : Reflexive sameShape.
Proof. by intros s i. Qed.

#[local] Instance sameShape_trans : Transitive sameShape.
Proof. intros s1 s2 s3 H12 H23 i. by rewrite H23, H12. Qed.

#[local] Instance runShape_refl : Reflexive runShape.
Proof. intros r. apply sameShape_refl. Qed.

#[local] Instance runShape_trans : Transitive runShape.
Proof. intros r1 r2 r3. apply sameShape_trans. Qed.

Lemma sameShape_setCell s i d v : sameShape s (setCell s i d v).
Proof.
  intros j. unfold setCell. destruct (decide (i = j)) as [->|Hne].
  - rewrite lookup_alter_eq. destruct (s !! j); simpl; [|done]. by rewrite length_insert.
  - by rewrite lookup_alter_ne.
Qed.

Lemma sameShape_foldl_setCell s (l : list Member) d v :
  sameShape s (foldl (fun sch emp => setCell sch (id emp) d v) s l).
Proof.
  apply (foldl_related sameShape). intros s' emp _. apply sameShape_setCell.
Qed.

Section Shape.
Variable Math_sin : Z -> Q.
Variable st : AppState.

Lemma initSchedule_shape i :
  length <$> (initSchedule st !! i) =
    if decide (i ∈ id <$> allEmployees st) then Some (numDays st) else None.
Proof.
  unfold initSchedule. case_decide as Hin.
  - apply list_elem_of_fmap in Hin as (emp & -> & Hemp).
    rewrite (lookup_foldl_insert id (fun _ => replicate (numDays st) None)
               (allEmployees st) ∅ emp); [|apply NoDup_ids | done].
    simpl. by rewrite length_replicate.
  - rewrite (lookup_foldl_insert_notin id (fun _ => replicate (numDays st) None)) by done.
    by rewrite lookup_empty.
Qed.

Lemma prefill_shape : sameShape (initSchedule st) (prefillUnavailability st (initSchedule st)).
Proof.
  unfold prefillUnavailability.
  apply (foldl_related sameShape). intros s emp _.
  apply (foldl_related sameShape). intros s' u _.
  unfold prefillEntry. destruct (negb _); [reflexivity|].
  apply (foldl_related sameShape). intros s'' d _.
  destruct (_ && _); [apply sameShape_setCell | reflexivity].
Qed.

Lemma finalRun_shape : sameShape (initSchedule st) (r_schedule (finalRun Math_sin st)).
Proof.
  etransitivity; [apply prefill_shape|].
  change (runShape (initialRun st) (finalRun Math_sin st)).
  unfold finalRun.
  transitivity (workingPass Math_sin st (initialRun st)).
  { unfold workingPass. apply (foldl_related runShape). intros r d _.
    unfold scheduleDay.
    change (runShape r (foldl (scheduleShift Math_sin st d) r (workingShifts st))).
    apply (foldl_related runShape). intros r' shift _.
    unfold runShape. rewrite scheduleShift_schedule. apply sameShape_foldl_setCell. }
  transitivity (backupPass Math_sin st (workingPass Math_sin st (initialRun st))).
  { unfold backupPass. destruct (List.find _ _); [|reflexivity].
    apply (foldl_related runShape). intros r d _.
    apply (foldl_related runShape). intros r' emp _.
    unfold backupStep. destruct (_ && _ && _); [|reflexivity].
    destruct (JS.Qltb _ _); [apply sameShape_setCell | by intros i]. }
  transitivity (adminPass Math_sin st (backupPass Math_sin st (workingPass Math_sin st (initialRun st)))).
  { unfold adminPass. destruct (List.find _ _); [|reflexivity].
    apply (foldl_related runShape). intros r d _.
    apply (foldl_related runShape). intros r' emp _.
    unfold adminStep. destruct (_ && _); [|reflexivity].
    destruct (JS.Qltb _ _); [apply sameShape_setCell | by intros i]. }
  unfold runShape. rewrite auditPass_schedule. reflexivity.
Qed.

End Shape.

(** X7. For a roster that is not empty the stored grid has one row of exactly
    as many cells as the period has days for every employee id of the roster,
    and no row for any other id. *)
Theorem grid_has_one_row_per_employee (Math_sin : Z -> Q) (st : AppState) :
  allEmployees st <> [] ->
  exists grid,
    schedule (runScheduler Math_sin st) = Some grid /\
    forall i,
      (i ∈ id <$> allEmployees st -> exists row, grid !! i = Some row /\ length row = numDays st) /\
      (i ∉ id <$> allEmployees st -> grid !! i = None).
Proof.
  intros Hroster. exists (r_schedule (finalRun Math_sin st)). split.
  { unfold runScheduler. by destruct (allEmployees st). }
  intros i. pose proof (finalRun_shape Math_sin st i) as Hshape.
  rewrite initSchedule_shape in Hshape. split; intros Hi.
  - rewrite decide_True in Hshape by done.
    destruct (r_schedule (finalRun Math_sin st) !! i) as [row|]; [|done].
    exists row. split; [done|]. by injection Hshape.
  - rewrite decide_False in Hshape by done.
    by destruct (r_schedule (finalRun Math_sin st) !! i).
Qed.

Lemma grid_has_one_row_per_employee_witness :
  exists grid,
    schedule (runScheduler sinZero scenarioB) = Some grid /\
    forall i,
      (i ∈ id <$> allEmployees scenarioB ->
         exists row, grid !! i = Some row /\ length row = numDays scenarioB) /\
      (i ∉ id <$> allEmployees scenarioB -> grid !! i = None).
Proof.
  apply (grid_has_one_row_per_employee sinZero scenarioB).
  vm_compute. discriminate.
Defined.

(** X8. Every cell of the stored grid either holds what the pre-fill of the
    time off left there, or was empty after the pre-fill and holds the code of
    a shift of the catalogue on a day on which the rotation pattern has the
    employee on cycle. *)
Theorem run_writes_catalogue_codes_on_cycle (Math_sin : Z -> Q) (st : AppState) :
  allEmployees st <> [] ->
  exists grid,
    schedule (runScheduler Math_sin st) = Some grid /\
    forall i d,
      getCell grid i d = getCell (prefillUnavailability st (initSchedule st)) i d \/
      (getCell (prefillUnavailability st (initSchedule st)) i d = None /\
       shouldWorkOnDay st i d = true /\
       exists s, s ∈ shifts st /\ getCell grid i d = Some (code s)).
Proof.
  intros Hroster. exists (r_schedule (finalRun Math_sin st)). split.
  { unfold runScheduler. by destruct (allEmployees st). }
  intros i d.
  destruct (finalRun_writes Math_sin st i d) as [Heq|(Hnull & c & Hc & t & Hon & s & Hs & _ & Hcs)];
    [by left|].
  right. split; [done|]. split; [done|]. exists s. split; [done|]. congruence.
Qed.

Lemma run_writes_catalogue_codes_on_cycle_witness :
  exists grid,
    schedule (runScheduler sinZero scenarioC) = Some grid /\
    forall i d,
      getCell grid i d = getCell (prefillUnavailability scenarioC (initSchedule scenarioC)) i d \/
      (getCell (prefillUnavailability scenarioC (initSchedule scenarioC)) i d = None /\
       shouldWorkOnDay scenarioC i d = true /\
       exists s, s ∈ shifts scenarioC /\ getCell grid i d = Some (code s)).
Proof.
  apply (run_writes_catalogue_codes_on_cycle sinZero scenarioC).
  vm_compute. discriminate.
Defined.

(** X9. With a rotation pattern every employee of the roster has an offset;
    the offsets are not negative, do not decrease along the roster and, for a
    pattern that is not empty, stay below its length, and shouldWorkOnDay
    repeats with the length of the pattern as its period. *)
Theorem rotation_stagger (st : AppState) (pattern : list Z) (i j : nat) (emp emp' : Member) (d : nat) :
  rotationPattern st = Some pattern ->
  allEmployees st !! i = Some emp ->
  allEmployees st !! j = Some emp' ->
  (i <= j)%nat ->
  exists offset offset',
    employeePatternOffsets st !! id emp = Some offset /\
    employeePatternOffsets st !! id emp' = Some offset' /\
    0 <= offset <= offset' /\
    (pattern <> [] -> offset' < Z.of_nat (length pattern)) /\
    shouldWorkOnDay st (id emp) (d + length pattern) = shouldWorkOnDay st (id emp) d.
Proof.
  intros Hp Hi Hj Hij.
  pose proof (employeePatternOffsets_lookup st pattern i emp Hp Hi) as Ho.
  pose proof (employeePatternOffsets_lookup st pattern j emp' Hp Hj) as Ho'.
  apply lookup_lt_Some in Hj as Hlen.
  eexists _, _. split; [exact Ho|]. split; [exact Ho'|].
  set (L := Z.of_nat (length pattern)) in *.
  set (E := Z.of_nat (length (allEmployees st))) in *.
  assert (0 <= L) by lia. assert (0 < E) by lia.
  split; [|split].
  - split; [apply Z.div_pos; lia|]. apply Z.div_le_mono; [lia|]. nia.
  - intros Hne. assert (0 < L) by (destruct pattern; [done | simpl in *; lia]).
    apply Z.div_lt_upper_bound; [lia|]. nia.
  - unfold shouldWorkOnDay. rewrite Hp, Ho. simpl. fold L.
    destruct (Z.eqb_spec L 0) as [|Hne]; [done|].
    replace (Z.of_nat (d + length pattern) + Z.of_nat i * L / E)
      with (Z.of_nat d + Z.of_nat i * L / E + 1 * L) by lia.
    by rewrite Z.mod_add.
Qed.

Lemma rotation_stagger_witness :
  exists offset offset',
    employeePatternOffsets scenarioC !! (0%nat, 0%nat) = Some offset /\
    employeePatternOffsets scenarioC !! (0%nat, 1%nat) = Some offset' /\
    0 <= offset <= offset' /\
    ([1; 1; 1; 1; 0; 0; 0; 0] <> [] -> offset' < 8) /\
    shouldWorkOnDay scenarioC (0%nat, 0%nat) (3 + 8) = shouldWorkOnDay scenarioC (0%nat, 0%nat) 3.
Proof.
  apply (rotation_stagger scenarioC [1; 1; 1; 1; 0; 0; 0; 0] 0 1
           (memberOf 0 0 (free "Avery")) (memberOf 0 1 (free "Blake")) 3).
  - reflexivity.
  - reflexivity.
  - reflexivity.
  - lia.
Defined.

(* ====================================================================== *)
(** ** Staffing *)
(* ====================================================================== *)

Section Provenance.
Variable Math_sin : Z -> Q.
Variable st : AppState.

(** A shift of the day loop touches the cells of its own day only. *)
Lemma scheduleShift_other_day d run shift i d' :
  d' <> d ->
  getCell (r_schedule (scheduleShift Math_sin st d run shift)) i d' = getCell (r_schedule run) i d'.
Proof. intros Hne. rewrite scheduleShift_schedule. by apply getCell_foldl_setCell_other. Qed.

Lemma stateAt_other_day d k i d' :
  d' <> d ->
  getCell (r_schedule (stateAt Math_sin st d k)) i d' =
  getCell (r_schedule (dayStart Math_sin st d)) i d'.
Proof.
  intros Hne. unfold stateAt.
  apply (foldl_invariant (fun run => getCell (r_schedule run) i d' =
                                      getCell (r_schedule (dayStart Math_sin st d)) i d')); [done|].
  intros run shift _ Hrun. by rewrite scheduleShift_other_day.
Qed.

Lemma dayStart_later_day d i d' :
  (d <= d')%nat ->
  getCell (r_schedule (dayStart Math_sin st d)) i d' = getCell (r_schedule (initialRun st)) i d'.
Proof.
  induction d as [|d IH]; intros Hd; [done|].
  rewrite dayStart_S, updateConsecutive_schedule, stateAt_other_day by lia. apply IH. lia.
Qed.

Lemma dayStart_earlier_day d i d' :
  (d' < d)%nat ->
  getCell (r_schedule (dayStart Math_sin st d)) i d' =
  getCell (r_schedule (stateAt Math_sin st d' (length (workingShifts st)))) i d'.
Proof.
  induction d as [|d IH]; intros Hd; [lia|].
  rewrite dayStart_S, updateConsecutive_schedule.
  destruct (decide (d' = d)) as [->|Hne]; [done|].
  rewrite stateAt_other_day by done. apply IH. lia.
Qed.

Lemma stateAt_overshoot d k :
  (length (workingShifts st) <= k)%nat ->
  stateAt Math_sin st d k = stateAt Math_sin st d (length (workingShifts st)).
Proof. intros Hk. unfold stateAt. by rewrite !take_ge by lia. Qed.

Lemma chosen_id d run shift emp :
  emp ∈ allEmployees st ->
  id emp ∈ id <$> chosen Math_sin st d run shift <-> emp ∈ chosen Math_sin st d run shift.
Proof.
  intros Hemp. split; [|apply list_elem_of_fmap_2].
  intros (emp' & Hid & Hin)%list_elem_of_fmap.
  assert (emp = emp') as ->; [|done].
  apply (NoDup_fmap_eq id (allEmployees st)); [apply NoDup_ids|done| |done].
  by apply chosen_available in Hin as [? _].
Qed.

Lemma stateAt_step_cell d k shift i :
  (d < numDays st)%nat ->
  workingShifts st !! k = Some shift ->
  getCell (r_schedule (stateAt Math_sin st d (S k))) i d =
    if decide (i ∈ id <$> chosen Math_sin st d (stateAt Math_sin st d k) shift)
    then Some (code shift)
    else getCell (r_schedule (stateAt Math_sin st d k)) i d.
Proof.
  intros Hd Hk. rewrite (stateAt_S _ _ _ _ _ Hk), scheduleShift_schedule.
  rewrite (getCell_foldl_setCell st); [|by apply rowsOk_stateAt| |done].
  2: { intros e He. by apply chosen_available in He as [? _]. }
  apply decide_ext. intuition.
Qed.

(** Where the cell of day [d] comes from when [k] shifts of the day are
    done: from the pre-fill, or from one of these shifts. *)
Lemma stateAt_provenance d k i :
  (d < numDays st)%nat ->
  getCell (r_schedule (stateAt Math_sin st d k)) i d = getCell (r_schedule (initialRun st)) i d \/
  exists k' shift, (k' < k)%nat /\ workingShifts st !! k' = Some shift /\
    i ∈ id <$> chosen Math_sin st d (stateAt Math_sin st d k') shift /\
    getCell (r_schedule (stateAt Math_sin st d k)) i d = Some (code shift).
Proof.
  intros Hd. induction k as [|k IH].
  - left. unfold stateAt. rewrite take_0. simpl. by apply dayStart_later_day.
  - destruct (workingShifts st !! k) as [shift|] eqn:Hk.
    + rewrite (stateAt_step_cell d k shift i Hd Hk). case_decide as Hin.
      * right. exists k, shift. split; [lia|]. done.
      * destruct IH as [IH|(k' & shift' & Hlt & Hk' & Hin' & Hc)]; [by left|].
        right. exists k', shift'. split; [lia|]. done.
    + apply lookup_ge_None in Hk.
      rewrite (stateAt_overshoot d (S k)) by lia. rewrite <- (stateAt_overshoot d k) by lia.
      destruct IH as [IH|(k' & shift' & Hlt & Hk' & Hin' & Hc)]; [by left|].
      right. exists k', shift'. split; [lia|]. done.
Qed.

Lemma stateAt_keeps_to_end d k :
  (d < numDays st)%nat ->
  keepsCells (r_schedule (stateAt Math_sin st d k))
             (r_schedule (workingPass Math_sin st (initialRun st))).
Proof.
  intros Hd.
  change (runKeeps (stateAt Math_sin st d k) (workingPass Math_sin st (initialRun st))).
  transitivity (stateAt Math_sin st d (length (workingShifts st))).
  { unfold stateAt. rewrite firstn_all.
    rewrite <- (take_drop k (workingShifts st)) at 2. rewrite foldl_app.
    apply (foldl_related runKeeps). intros r s _. apply scheduleShift_keeps. }
  transitivity (dayStart Math_sin st (S d)).
  { rewrite dayStart_S. unfold runKeeps. rewrite updateConsecutive_schedule. reflexivity. }
  unfold workingPass, dayStart, days.
  replace (numDays st) with (S d + (numDays st - S d))%nat by lia.
  rewrite seq_app, foldl_app.
  apply (foldl_related runKeeps). intros r d' _. apply scheduleDay_keeps.
Qed.

Lemma workingPass_keeps_to_final :
  keepsCells (r_schedule (workingPass Math_sin st (initialRun st)))
             (r_schedule (finalRun Math_sin st)).
Proof.
  unfold finalRun. rewrite auditPass_schedule.
  etransitivity; [apply backupPass_keeps | apply adminPass_keeps].
Qed.

Lemma workingPass_cell d i :
  (d < numDays st)%nat ->
  getCell (r_schedule (workingPass Math_sin st (initialRun st))) i d =
  getCell (r_schedule (stateAt Math_sin st d (length (workingShifts st)))) i d.
Proof. intros Hd. rewrite workingPass_dayStart. by apply dayStart_earlier_day. Qed.

Lemma NoDup_workingShifts : codesUnique st -> NoDup (code <$> workingShifts st).
Proof.
  intros Hu. unfold workingShifts.
  rewrite Array_sort_perm.
  eapply sublist_NoDup; [exact Hu|]. apply fmap_sublist, sublist_List_filter.
Qed.

(** In the stored grid, the employees who hold the code of a working shift
    on a day are those who received it in the day loop. *)
Lemma final_working_cell d k shift emp :
  codesUnique st -> codesNotReserved st ->
  (d < numDays st)%nat ->
  workingShifts st !! k = Some shift ->
  emp ∈ allEmployees st ->
  getCell (r_schedule (finalRun Math_sin st)) (id emp) d = Some (code shift) <->
  emp ∈ chosen Math_sin st d (stateAt Math_sin st d k) shift.
Proof.
  intros Hu Hres Hd Hk Hemp.
  assert (Hshift : shift ∈ shifts st /\ type shift = working).
  { apply list_elem_of_lookup_2, workingShifts_elem in Hk as [? ?]. split; [done|]. by apply isWorking_type. }
  destruct Hshift as [Hshift Htype].
  split.
  - intros Hfinal.
    assert (Hwp : getCell (r_schedule (workingPass Math_sin st (initialRun st))) (id emp) d = Some (code shift)).
    { pose proof (backupPass_writes Math_sin st (workingPass Math_sin st (initialRun st))) as Hb.
      pose proof (adminPass_writes Math_sin st (backupPass Math_sin st (workingPass Math_sin st (initialRun st)))) as Ha.
      unfold finalRun in Hfinal. rewrite auditPass_schedule in Hfinal.
      destruct (Ha (id emp) d) as [Heq|(Hnull & c & Hc & _ & s & Hs & Hts & Hcs)].
      2: { exfalso. rewrite Hfinal in Hc. injection Hc as <-.
           assert (s = shift) as -> by (apply (NoDup_fmap_eq code (shifts st)); done).
           congruence. }
      rewrite Hfinal in Heq.
      destruct (Hb (id emp) d) as [Heq'|(Hnull & c & Hc & _ & s & Hs & Hts & Hcs)]; [congruence|].
      exfalso. rewrite <- Heq in Hc. injection Hc as <-.
      assert (s = shift) as -> by (apply (NoDup_fmap_eq code (shifts st)); done).
      congruence. }
    rewrite workingPass_cell in Hwp by done.
    destruct (stateAt_provenance d (length (workingShifts st)) (id emp) Hd)
      as [Hpre|(k' & shift' & Hlt & Hk' & Hin & Hc)].
    + exfalso. rewrite Hwp in Hpre. symmetry in Hpre.
      destruct (prefill_cells st (id emp) d) as [Hn|[a Hm]]; simpl in Hpre; [congruence|].
      rewrite Hm in Hpre. injection Hpre as Hpre.
      unfold codesNotReserved in Hres. rewrite Forall_forall in Hres.
      destruct (Hres shift Hshift) as [H1 H2]. destruct a; simpl in Hpre; congruence.
    + rewrite Hwp in Hc. injection Hc as Hc.
      assert (k' = k) as ->.
      { eapply NoDup_lookup; [apply (NoDup_workingShifts Hu)| |].
        - rewrite list_lookup_fmap, Hk'. simpl. reflexivity.
        - rewrite list_lookup_fmap, Hk. simpl. by rewrite Hc. }
      assert (shift' = shift) as -> by congruence.
      by apply chosen_id in Hin.
  - intros Hin.
    apply workingPass_keeps_to_final, (stateAt_keeps_to_end d (S k) Hd).
    rewrite (stateAt_step_cell d k shift _ Hd Hk).
    rewrite decide_True; [done|]. by apply list_elem_of_fmap_2.
Qed.

End Provenance.

Section Staffing.
Variable Math_sin : Z -> Q.
Variable st : AppState.

Lemma workingPass_warning_origin :
  Forall (fun w => exists day c a r, w = Understaffed day c a r /\ a < r)
         (r_warnings (workingPass Math_sin st (initialRun st))).
Proof.
  rewrite workingPass_dayStart.
  apply (dayLoop_invariant Math_sin st (fun _ run =>
    Forall (fun w => exists day c a r, w = Understaffed day c a r /\ a < r) (r_warnings run))); [| | |done].
  - constructor.
  - intros d run shift _ _ Hrun. rewrite scheduleShift_warnings.
    apply Forall_app. split; [done|]. unfold shortfall.
    destruct (Z.ltb_spec (Z.of_nat (length (chosen Math_sin st d run shift))) (requiredCount st d shift));
      repeat constructor. eauto 10.
  - done.
Qed.

Lemma holders_chosen d k shift :
  codesUnique st -> codesNotReserved st ->
  (d < numDays st)%nat ->
  workingShifts st !! k = Some shift ->
  holders st (r_schedule (finalRun Math_sin st)) d (code shift) ≡ₚ
    chosen Math_sin st d (stateAt Math_sin st d k) shift.
Proof.
  intros Hu Hres Hd Hk.
  pose proof (NoDup_ids st) as Hids.
  apply NoDup_Permutation.
  - eapply sublist_NoDup; [|apply sublist_List_filter]. by apply (NoDup_fmap_1 id).
  - apply (NoDup_fmap_1 id), chosen_NoDup.
  - intros emp. unfold holders.
    rewrite list_elem_of_In, filter_In, <- list_elem_of_In, bool_decide_eq_true.
    split.
    + intros [Hemp Hc]. by apply (final_working_cell Math_sin st d k shift emp Hu Hres Hd Hk Hemp).
    + intros Hin. pose proof (chosen_available _ _ _ _ _ _ Hin) as [Hemp _].
      split; [done|]. by apply (final_working_cell Math_sin st d k shift emp Hu Hres Hd Hk Hemp).
Qed.

Lemma chosen_warned d k shift :
  (d < numDays st)%nat ->
  workingShifts st !! k = Some shift ->
  let n := Z.of_nat (length (chosen Math_sin st d (stateAt Math_sin st d k) shift)) in
  n < requiredCount st d shift <->
  Understaffed (Z.of_nat d + 1) (code shift) n (requiredCount st d shift)
    ∈ r_warnings (finalRun Math_sin st).
Proof.
  intros Hd Hk n. split.
  - intros Hlt. rewrite finalRun_warnings. apply elem_of_app. left.
    pose proof (stateAt_grows_to_end Math_sin st d (S k) Hd) as Hgrow.
    eapply elem_of_prefix; [|exact Hgrow].
    rewrite (stateAt_S _ _ _ _ _ Hk), scheduleShift_warnings. apply elem_of_app. right.
    unfold shortfall. apply Z.ltb_lt in Hlt. fold n. rewrite Hlt. by apply list_elem_of_singleton.
  - intros Hin. rewrite finalRun_warnings in Hin. apply elem_of_app in Hin as [Hin|Hin].
    + pose proof (workingPass_warning_origin) as Hall.
      rewrite Forall_forall in Hall. destruct (Hall _ Hin) as (day & c & a & r & Heq & Hlt).
      injection Heq as <- <- <- <-. done.
    + exfalso. apply list_elem_of_In, in_flat_map in Hin as (emp & _ & Hin).
      unfold auditWarning in Hin. destruct (_ <? _); simpl in Hin; [|done].
      by destruct Hin.
Qed.

End Staffing.

(** X10. With unique shift codes none of which is LEAVE or TAD, after a run
    the number of employees that hold the code of a working shift on a day is
    at most the required count of that day (none when it is negative), and it
    is below the required count exactly when the run logged the understaffed
    warning of that day and shift with these two numbers. *)
Theorem never_overstaffed (Math_sin : Z -> Q) (st : AppState) (d k : nat) (shift : Shift) :
  codesUnique st ->
  codesNotReserved st ->
  allEmployees st <> [] ->
  (d < numDays st)%nat ->
  workingShifts st !! k = Some shift ->
  exists grid,
    schedule (runScheduler Math_sin st) = Some grid /\
    let n := Z.of_nat (length (holders st grid d (code shift))) in
    let required := requiredCount st d shift in
    n <= Z.max 0 required /\
    (n < required <->
     Understaffed (Z.of_nat d + 1) (code shift) n required ∈ warnings (runScheduler Math_sin st)).
Proof.
  intros Hu Hres Hroster Hd Hk.
  exists (r_schedule (finalRun Math_sin st)).
  assert (Hrun : schedule (runScheduler Math_sin st) = Some (r_schedule (finalRun Math_sin st)) /\
                 warnings (runScheduler Math_sin st) = r_warnings (finalRun Math_sin st)).
  { unfold runScheduler. by destruct (allEmployees st). }
  destruct Hrun as [Hgrid Hwarn]. split; [done|]. rewrite Hwarn. cbv zeta.
  rewrite (holders_chosen Math_sin st d k shift Hu Hres Hd Hk).
  split.
  - unfold chosen. rewrite length_take. lia.
  - by apply chosen_warned.
Qed.

Lemma never_overstaffed_witness :
  exists grid,
    schedule (runScheduler sinZero scenarioD) = Some grid /\
    let n := Z.of_nat (length (holders scenarioD grid 2 "D")) in
    n <= Z.max 0 1 /\
    (n < 1 <-> Understaffed 3 "D" n 1 ∈ warnings (runScheduler sinZero scenarioD)).
Proof.
  apply (never_overstaffed sinZero scenarioD 2 0 dayShift).
  - unfold codesUnique. compute_done.
  - unfold codesNotReserved. compute_done.
  - vm_compute. discriminate.
  - vm_compute. lia.
  - vm_compute. reflexivity.
Defined.

Section Footer.
Variable Math_sin : Z -> Q.
Variable st : AppState.

Lemma length_filter_perm {A} (P : A -> bool) (l1 l2 : list A) :
  l1 ≡ₚ l2 -> length (List.filter P l1) = length (List.filter P l2).
Proof.
  induction 1 as [|x l1 l2 _ IH|x y l|l1 l2 l3 _ IH1 _ IH2]; simpl.
  - done.
  - destruct (P x); simpl; by rewrite IH.
  - by destruct (P x), (P y).
  - by rewrite IH1.
Qed.

Lemma length_filter_fmap {A B} (f : A -> B) (P : A -> bool) (Q : B -> bool) (l : list A) :
  Forall (fun a => P a = Q (f a)) l ->
  length (List.filter P l) = length (List.filter Q (f <$> l)).
Proof.
  induction 1 as [|a l Ha _ IH]; simpl; [done|].
  rewrite Ha. destruct (Q (f a)); simpl; by rewrite IH.
Qed.

(** The rows of the stored grid are those of the employees of the roster. *)
Lemma grid_keys :
  (map_to_list (r_schedule (finalRun Math_sin st))).*1 ≡ₚ id <$> allEmployees st.
Proof.
  set (grid := r_schedule (finalRun Math_sin st)).
  apply NoDup_Permutation.
  - apply NoDup_fst_map_to_list.
  - apply NoDup_ids.
  - intros i. pose proof (finalRun_shape Math_sin st i) as Hshape.
    rewrite initSchedule_shape in Hshape. fold grid in Hshape.
    rewrite list_elem_of_fmap. split.
    + intros ([j row] & -> & Hin). apply elem_of_map_to_list in Hin. simpl in *.
      destruct (decide (j ∈ id <$> allEmployees st)) as [|Hout]; [done|].
      by rewrite Hin in Hshape.
    + intros Hin. rewrite decide_True in Hshape by done.
      destruct (grid !! i) as [row|] eqn:Hrow; [|done].
      exists (i, row). split; [done|]. by apply elem_of_map_to_list.
Qed.

Lemma footerAssigned_holders d shift :
  footerAssigned (r_schedule (finalRun Math_sin st)) d shift =
    Z.of_nat (length (holders st (r_schedule (finalRun Math_sin st)) d (code shift))).
Proof.
  set (grid := r_schedule (finalRun Math_sin st)).
  unfold footerAssigned, holders. fold grid. f_equal.
  rewrite (length_filter_fmap fst _ (fun i => bool_decide (getCell grid i d = Some (code shift)))).
  2:{ apply Forall_forall. intros [i row] Hin. apply elem_of_map_to_list in Hin.
      unfold getCell. simpl. by rewrite Hin. }
  rewrite (length_filter_perm _ _ _ grid_keys).
  symmetry. by apply length_filter_fmap, Forall_forall.
Qed.

Lemma workingPass_warning_shift :
  Forall (fun w => exists d shift a,
            w = Understaffed (Z.of_nat d + 1) (code shift) a (requiredCount st d shift) /\
            shift ∈ workingShifts st /\ 0 <= a < requiredCount st d shift)
         (r_warnings (workingPass Math_sin st (initialRun st))).
Proof.
  rewrite workingPass_dayStart.
  apply (dayLoop_invariant Math_sin st (fun _ run =>
    Forall (fun w => exists d shift a,
              w = Understaffed (Z.of_nat d + 1) (code shift) a (requiredCount st d shift) /\
              shift ∈ workingShifts st /\ 0 <= a < requiredCount st d shift)
           (r_warnings run))); [| | |done].
  - constructor.
  - intros d run shift _ Hshift Hrun. rewrite scheduleShift_warnings.
    apply Forall_app. split; [done|]. unfold shortfall.
    destruct (Z.ltb_spec (Z.of_nat (length (chosen Math_sin st d run shift))) (requiredCount st d shift));
      repeat constructor.
    exists d, shift, (Z.of_nat (length (chosen Math_sin st d run shift))).
    repeat split; [done | lia | done].
  - done.
Qed.

Lemma code_inj (s1 s2 : Shift) :
  codesUnique st -> s1 ∈ shifts st -> s2 ∈ shifts st -> code s1 = code s2 -> s1 = s2.
Proof.
  intros Hu H1 H2 Heq.
  apply list_elem_of_lookup in H1 as [i Hi]. apply list_elem_of_lookup in H2 as [j Hj].
  assert (i = j) as ->; [|congruence].
  eapply NoDup_lookup; [exact Hu| |]; rewrite list_lookup_fmap.
  - by rewrite Hi.
  - rewrite Hj. simpl. by rewrite Heq.
Qed.

End Footer.

(** X11. Under the 8x5 preset, with unique shift codes none of which is LEAVE
    or TAD, no employee holds the code of a working shift on a Saturday or
    Sunday after the run, and no understaffed warning names that day and
    shift. *)
Theorem weekend_off_under_8x5 (Math_sin : Z -> Q) (st : AppState) (d : nat) (shift : Shift) :
  codesUnique st ->
  codesNotReserved st ->
  allEmployees st <> [] ->
  coveragePreset st = preset_8x5 ->
  (d < numDays st)%nat ->
  isWeekend st d = true ->
  shift ∈ shifts st ->
  type shift = working ->
  exists grid,
    schedule (runScheduler Math_sin st) = Some grid /\
    holders st grid d (code shift) = [] /\
    forall n r, Understaffed (Z.of_nat d + 1) (code shift) n r ∉ warnings (runScheduler Math_sin st).
Proof.
  intros Hu Hres Hroster Hpreset Hd Hweekend Hshift Htype.
  exists (r_schedule (finalRun Math_sin st)).
  assert (Hrun : schedule (runScheduler Math_sin st) = Some (r_schedule (finalRun Math_sin st)) /\
                 warnings (runScheduler Math_sin st) = r_warnings (finalRun Math_sin st)).
  { unfold runScheduler. by destruct (allEmployees st). }
  destruct Hrun as [Hgrid Hwarn]. split; [done|]. rewrite Hwarn.
  assert (Hworking : shift ∈ workingShifts st).
  { apply workingShifts_elem. split; [done|]. unfold isWorking. by rewrite Htype. }
  assert (Hreq : requiredCount st d shift = 0).
  { unfold requiredCount. by rewrite Hpreset, Hweekend. }
  split.
  - apply list_elem_of_lookup in Hworking as [k Hk].
    pose proof (holders_chosen Math_sin st d k shift Hu Hres Hd Hk) as Hperm.
    apply Permutation_length in Hperm. unfold chosen in Hperm.
    rewrite Hreq in Hperm. simpl in Hperm.
    by destruct (holders _ _ _ _).
  - intros n r Hin. rewrite finalRun_warnings in Hin. apply elem_of_app in Hin as [Hin|Hin].
    + pose proof (workingPass_warning_shift Math_sin st) as Hall.
      rewrite Forall_forall in Hall. destruct (Hall _ Hin) as (d' & s & a & Heq & Hs & Ha).
      injection Heq as Hday Hcode _ _.
      assert (d' = d) as -> by lia.
      assert (s = shift) as ->.
      { apply workingShifts_elem in Hs as [Hs _]. by apply (code_inj st). }
      lia.
    + apply list_elem_of_In, in_flat_map in Hin as (emp & _ & Hin).
      unfold auditWarning in Hin. destruct (_ <? _); simpl in Hin; [|done].
      by destruct Hin.
Qed.

Lemma weekend_off_under_8x5_witness :
  exists grid,
    schedule (runScheduler sinZero weekendState) = Some grid /\
    holders weekendState grid 1 (code dayShift) = [] /\
    forall n r, Understaffed (Z.of_nat 1 + 1) (code dayShift) n r
                  ∉ warnings (runScheduler sinZero weekendState).
Proof.
  apply (weekend_off_under_8x5 sinZero weekendState 1 dayShift).
  - unfold codesUnique. compute_done.
  - unfold codesNotReserved. compute_done.
  - vm_compute. discriminate.
  - reflexivity.
  - vm_compute. lia.
  - vm_compute. reflexivity.
  - apply list_elem_of_In. vm_compute. auto.
  - reflexivity.
Defined.

Example weekendState_run :
  (schedule (runScheduler sinZero weekendState) ≫= fun grid => grid !! (0%nat, 0%nat))
    = Some [Some "D"%string; None; None] /\
  warnings (runScheduler sinZero weekendState) = [].
Proof. vm_compute. auto. Qed.

(** X12. With unique shift codes none of which is LEAVE or TAD and working
    shifts coded N and D, the stored grid has no employee with N on one day
    and D on the next. *)
Theorem no_day_shift_after_night (Math_sin : Z -> Q) (st : AppState) (emp : Member) (d : nat)
    (sN sD : Shift) :
  codesUnique st ->
  codesNotReserved st ->
  sN ∈ shifts st -> code sN = "N"%string -> type sN = working ->
  sD ∈ shifts st -> code sD = "D"%string -> type sD = working ->
  emp ∈ allEmployees st ->
  (S d < numDays st)%nat ->
  exists grid,
    schedule (runScheduler Math_sin st) = Some grid /\
    ~ (getCell grid (id emp) d = Some "N"%string /\ getCell grid (id emp) (S d) = Some "D"%string).
Proof.
  intros Hu Hres HsN HcN HtN HsD HcD HtD Hemp Hd.
  exists (r_schedule (finalRun Math_sin st)). split.
  { unfold runScheduler. destruct (allEmployees st); [by apply elem_of_nil in Hemp | done]. }
  intros [HN HD].
  assert (exists kN, workingShifts st !! kN = Some sN) as [kN HkN].
  { apply list_elem_of_lookup_1, workingShifts_elem. split; [done|]. by apply isWorking_type. }
  assert (exists kD, workingShifts st !! kD = Some sD) as [kD HkD].
  { apply list_elem_of_lookup_1, workingShifts_elem. split; [done|]. by apply isWorking_type. }
  rewrite <- HcN in HN. rewrite <- HcD in HD.
  apply (final_working_cell Math_sin st d kN sN emp Hu Hres ltac:(lia) HkN Hemp) in HN.
  apply (final_working_cell Math_sin st (S d) kD sD emp Hu Hres Hd HkD Hemp) in HD.
  apply chosen_available in HD as [_ Hav].
  assert (Hprev : getCell (r_schedule (stateAt Math_sin st (S d) kD)) (id emp) d = Some (code sN)).
  { rewrite stateAt_other_day by lia. rewrite dayStart_earlier_day by lia.
    assert (Hend : keepsCells (r_schedule (stateAt Math_sin st d (S kN)))
                     (r_schedule (stateAt Math_sin st d (length (workingShifts st))))).
    { intros i d' c Hc.
      destruct (decide (d' = d)) as [->|Hne].
      - rewrite <- workingPass_cell by lia. apply (stateAt_keeps_to_end Math_sin st d (S kN)); [lia | done].
      - rewrite stateAt_other_day in Hc |- * by done. done. }
    apply Hend. rewrite (stateAt_step_cell Math_sin st d kN sN) by (done || lia).
    rewrite decide_True; [done|]. by apply list_elem_of_fmap_2. }
  unfold isAvailable in Hav.
  destruct (negb (bool_decide _)); [done|].
  destruct (negb (shouldWorkOnDay _ _ _)); [done|].
  replace (S d - 1)%nat with d in Hav by lia.
  rewrite Hprev in Hav.
  rewrite (find_code st sN Hu HsN) in Hav.
  rewrite HcN, HcD in Hav. simpl in Hav.
  assert (isWorking sN = true) as Hw by (by apply isWorking_type).
  rewrite Hw in Hav. simpl in Hav. done.
Qed.

Lemma no_day_shift_after_night_witness :
  exists grid,
    schedule (runScheduler sinZero nightThenDay) = Some grid /\
    ~ (getCell grid (0%nat, 0%nat) 0 = Some "N"%string /\
       getCell grid (0%nat, 0%nat) 1 = Some "D"%string).
Proof.
  apply (no_day_shift_after_night sinZero nightThenDay (memberOf 0 0 (free "Avery")) 0
           nightShift dayShift).
  - unfold codesUnique. compute_done.
  - unfold codesNotReserved. compute_done.
  - apply list_elem_of_In. vm_compute. auto.
  - reflexivity.
  - reflexivity.
  - apply list_elem_of_In. vm_compute. auto.
  - reflexivity.
  - reflexivity.
  - apply list_elem_of_In. vm_compute. auto.
  - vm_compute. lia.
Defined.

(* ====================================================================== *)
(** ** The limit on consecutive days *)
(* ====================================================================== *)

Section Cap.
Variable Math_sin : Z -> Q.
Variable st : AppState.
Hypothesis Hcap : 0 <= maxConsecutiveDays (constraints st).

Lemma rowBefore_stateAt d k i :
  rowBefore (r_schedule (stateAt Math_sin st d k)) i d =
  rowBefore (r_schedule (dayStart Math_sin st d)) i d.
Proof.
  unfold rowBefore. apply map_ext_in. intros d' Hd'. apply in_seq in Hd'.
  apply stateAt_other_day. lia.
Qed.

Lemma available_below_cap d run shift emp :
  isAvailable st run d shift emp = true ->
  getConsecutive (r_consecutiveDays run) (id emp) < maxConsecutiveDays (constraints st).
Proof.
  unfold isAvailable.
  destruct (negb (bool_decide _)); [done|].
  destruct (negb (shouldWorkOnDay _ _ _)); [done|].
  destruct (_ && _ && _); [done|].
  destruct (Z.leb_spec (maxConsecutiveDays (constraints st))
              (getConsecutive (r_consecutiveDays run) (id emp))); [done | lia].
Qed.

(** The day loop keeps every run of worked days within the limit. *)
Lemma dayStart_runs d emp :
  (d <= numDays st)%nat -> emp ∈ allEmployees st ->
  snd (scanWith countsAsWorked (rowBefore (r_schedule (dayStart Math_sin st d)) (id emp) d))
    <= maxConsecutiveDays (constraints st).
Proof.
  intros Hd Hemp. induction d as [|d IH]; [done|].
  rewrite dayStart_S, updateConsecutive_schedule, rowBefore_S, scanWith_snoc, rowBefore_stateAt.
  cbv zeta. specialize (IH ltac:(lia)).
  destruct (countsAsWorked _) eqn:Hworked; simpl; [|done].
  apply Z.max_lub; [done|].
  destruct (stateAt_provenance Math_sin st d (length (workingShifts st)) (id emp) ltac:(lia))
    as [Hpre|(k' & shift' & Hlt & Hk' & Hin & Hc)].
  - exfalso. rewrite Hpre in Hworked.
    destruct (prefill_cells st (id emp) d) as [Hn|[a Hm]]; simpl in Hworked.
    + by rewrite Hn in Hworked.
    + rewrite Hm in Hworked. by destruct a.
  - apply chosen_id in Hin; [|done]. apply chosen_available in Hin as [_ Hav].
    apply available_below_cap in Hav.
    rewrite (stateAt_counter Math_sin st d k' ltac:(lia) emp Hemp), rowBefore_stateAt in Hav. lia.
Qed.

Lemma rowBefore_rowOf sch i : rowBefore sch i (numDays st) = rowOf st sch i.
Proof. reflexivity. Qed.

Lemma workingPass_runs emp :
  emp ∈ allEmployees st ->
  snd (scanWith countsAsWorked (rowOf st (r_schedule (workingPass Math_sin st (initialRun st))) (id emp)))
    <= maxConsecutiveDays (constraints st).
Proof.
  intros Hemp. rewrite workingPass_dayStart, <- rowBefore_rowOf. by apply dayStart_runs.
Qed.

End Cap.

Lemma scanWith_map_ext {A} (P Q : Cell -> bool) (f g : A -> Cell) (l : list A) :
  (forall x, x ∈ l -> P (f x) = Q (g x)) -> scanWith P (map f l) = scanWith Q (map g l).
Proof.
  induction l as [|x l IH] using rev_ind; intros Hall; [done|].
  rewrite !map_app. simpl. rewrite !scanWith_snoc, IH.
  - rewrite (Hall x); [done|]. apply elem_of_app. right. by apply list_elem_of_singleton.
  - intros y Hy. apply Hall, elem_of_app. by left.
Qed.

(** X13. With unique, non-empty, non-reserved shift codes and a
    maxConsecutiveDays that is not negative, the longest run of consecutive
    working-shift cells in the stored row of any employee is at most
    maxConsecutiveDays. *)
Theorem working_run_within_cap (Math_sin : Z -> Q) (st : AppState) (emp : Member) :
  catalogueOk st ->
  0 <= maxConsecutiveDays (constraints st) ->
  emp ∈ allEmployees st ->
  exists grid n,
    schedule (runScheduler Math_sin st) = Some grid /\
    longestRun (holdsCategory (shifts st) working) (rowOf st grid (id emp)) n /\
    n <= maxConsecutiveDays (constraints st).
Proof.
  intros Hcat Hcap Hemp.
  exists (r_schedule (finalRun Math_sin st)),
         (snd (scanWith (holdsCategory (shifts st) working)
                 (rowOf st (r_schedule (finalRun Math_sin st)) (id emp)))).
  split. { unfold runScheduler. destruct (allEmployees st); [by apply elem_of_nil in Hemp | done]. }
  split; [apply scanWith_spec|].
  assert (Hu : codesUnique st) by apply Hcat.
  replace (scanWith (holdsCategory (shifts st) working) (rowOf st (r_schedule (finalRun Math_sin st)) (id emp)))
    with (scanWith countsAsWorked (rowOf st (r_schedule (workingPass Math_sin st (initialRun st))) (id emp))).
  { by apply workingPass_runs. }
  unfold rowOf. apply scanWith_map_ext. intros d Hd%days_lt.
  set (wp := workingPass Math_sin st (initialRun st)).
  assert (Hcell : workingPassCell st (getCell (r_schedule wp) (id emp) d)).
  { unfold wp. rewrite workingPass_cell by done. by apply stateAt_cells. }
  rewrite (countsAsWorked_working st _ Hcat Hcell).
  pose proof (backupPass_writes Math_sin st wp) as Hb.
  pose proof (adminPass_writes Math_sin st (backupPass Math_sin st wp)) as Ha.
  unfold finalRun. rewrite auditPass_schedule. fold wp.
  destruct (Ha (id emp) d) as [Heq|(Hnull & c & Hc & _ & s & Hs & Hts & Hcs)].
  - rewrite Heq.
    destruct (Hb (id emp) d) as [Heq'|(Hnull & c & Hc & _ & s & Hs & Hts & Hcs)]; [by rewrite Heq'|].
    rewrite Hc, Hnull, <- Hcs. simpl. symmetry.
    apply (holdsCategory_other st s working Hu Hs). congruence.
  - rewrite Hc, <- Hcs.
    destruct (Hb (id emp) d) as [Heq'|(Hnull' & c' & Hc' & _)]; [|congruence].
    rewrite <- Heq', Hnull. symmetry.
    apply (holdsCategory_other st s working Hu Hs). congruence.
Qed.

Lemma working_run_within_cap_witness :
  exists grid n,
    schedule (runScheduler sinZero adminFillState) = Some grid /\
    longestRun (holdsCategory (shifts adminFillState) working)
               (rowOf adminFillState grid (0%nat, 0%nat)) n /\
    n <= 1.
Proof.
  apply (working_run_within_cap sinZero adminFillState (memberOf 0 0 (free "Avery"))).
  - unfold catalogueOk. compute_done.
  - vm_compute. discriminate.
  - apply list_elem_of_In. vm_compute. auto.
Defined.

(** X14. When every shift of the catalogue is a working shift and
    maxConsecutiveDays is not negative, the run logs no consecutive-days
    warning: every warning is an understaffed warning. *)
Theorem no_consecutive_warning_without_fill (Math_sin : Z -> Q) (st : AppState) :
  Forall (fun s => type s = working) (shifts st) ->
  0 <= maxConsecutiveDays (constraints st) ->
  Forall isShortfall (warnings (runScheduler Math_sin st)).
Proof.
  intros Hall Hcap. unfold runScheduler.
  destruct (allEmployees st) as [|e l] eqn:Hroster; [constructor|]. cbn [warnings].
  rewrite finalRun_warnings. apply Forall_app. split; [apply workingPass_shortfalls|].
  assert (Hsch : r_schedule (finalRun Math_sin st) = r_schedule (workingPass Math_sin st (initialRun st))).
  { unfold finalRun. rewrite auditPass_schedule. unfold adminPass, backupPass.
    assert (Hnone : forall f, (forall s, type s = working -> f s = false) ->
              List.find f (shifts st) = None).
    { intros f Hf. induction Hall as [|s ss Hs Hss IH]; [done|]. simpl. by rewrite (Hf s Hs). }
    rewrite !Hnone; [done| |]; by intros s ->. }
  rewrite Hsch. apply Forall_forall. intros w Hw.
  apply list_elem_of_In, in_flat_map in Hw as (emp & Hemp & Hin). exfalso.
  apply list_elem_of_In in Hemp, Hin.
  apply elem_of_auditWarning in Hin as [Hlt _].
  rewrite scanRow_scanWith in Hlt.
  pose proof (workingPass_runs Math_sin st Hcap emp Hemp). lia.
Qed.

Lemma no_consecutive_warning_without_fill_witness :
  Forall isShortfall (warnings (runScheduler sinZero scenarioD)).
Proof.
  apply (no_consecutive_warning_without_fill sinZero scenarioD).
  - unfold scenarioD, exampleState. simpl. repeat constructor.
  - vm_compute. discriminate.
Defined.

(* ====================================================================== *)
(** ** The backup pass and the warnings *)
(* ====================================================================== *)

Section Backup.
Variable Math_sin : Z -> Q.
Variable st : AppState.

Lemma backupStep_toppedUp wp b d run emp0 :
  emp0 ∈ allEmployees st ->
  toppedUpOrUntouched st wp run -> toppedUpOrUntouched st wp (backupStep Math_sin st b d run emp0).
Proof.
  intros Hemp0 Hinv. unfold backupStep.
  destruct (bool_decide _ && shouldWorkOnDay _ _ _) eqn:Hguard; cbn [andb]; [|done].
  destruct (JS.Qltb (inject_Z _) _) eqn:Hlow; [|done].
  destruct (JS.Qltb (seededRandom _ _) _); [|done].
  intros emp Hemp. cbn [r_shiftCounts r_schedule].
  destruct (decide (id emp0 = id emp)) as [Heq|Hne].
  - left. rewrite Heq, getCounts_insert_eq. cbn [total]. rewrite <- Heq.
    apply Qltb_true in Hlow.
    pose proof (Qle_ceiling (inject_Z (targetShiftsPerPerson (constraints st)) * (8 # 10))) as Hceil.
    fold (backupCeiling st) in Hceil.
    assert (inject_Z (total (getCounts (r_shiftCounts run) (id emp0))) < inject_Z (backupCeiling st))%Q as Hlt.
    { eapply Qlt_le_trans; [exact Hlow | exact Hceil]. }
    rewrite <- Zlt_Qlt in Hlt. lia.
  - rewrite getCounts_insert_ne by done.
    destruct (Hinv emp Hemp) as [Hle|Hsame]; [by left|]. right.
    intros d'. rewrite getCell_setCell_ne; [done|]. congruence.
Qed.

Lemma backupPass_toppedUp wp :
  toppedUpOrUntouched st wp (backupPass Math_sin st wp).
Proof.
  unfold backupPass. destruct (List.find _ _) as [b|]; [|by right].
  apply (foldl_invariant (toppedUpOrUntouched st wp)); [by right|].
  intros r d _ Hr.
  apply (foldl_invariant (toppedUpOrUntouched st wp)); [done|].
  intros r' emp Hemp Hr'. by apply backupStep_toppedUp.
Qed.

Lemma adminPass_shiftCounts run : r_shiftCounts (adminPass Math_sin st run) = r_shiftCounts run.
Proof.
  unfold adminPass. destruct (List.find _ _) as [a|]; [|done].
  apply (foldl_invariant (fun r => r_shiftCounts r = r_shiftCounts run)); [done|].
  intros r d _ Hr.
  apply (foldl_invariant (fun r => r_shiftCounts r = r_shiftCounts run)); [done|].
  intros r' emp _ Hr'. unfold adminStep.
  destruct (_ && _); [|done]. by destruct (JS.Qltb _ _).
Qed.

End Backup.

(** X15. With unique shift codes none of which is LEAVE or TAD, an employee
    who holds a backup shift in the stored grid ends the run with a total of
    at most the ceiling of 0.8 times targetShiftsPerPerson. *)
Theorem backup_only_below_target (Math_sin : Z -> Q) (st : AppState) (emp : Member) (d : nat) :
  codesUnique st ->
  codesNotReserved st ->
  emp ∈ allEmployees st ->
  (d < numDays st)%nat ->
  exists grid counts,
    schedule (runScheduler Math_sin st) = Some grid /\
    shiftCounts (runScheduler Math_sin st) = Some counts /\
    (holdsCategory (shifts st) backup (getCell grid (id emp) d) = true ->
     total (getCounts counts (id emp)) <= backupCeiling st).
Proof.
  intros Hu Hres Hemp Hd.
  exists (r_schedule (finalRun Math_sin st)), (r_shiftCounts (finalRun Math_sin st)).
  split. { unfold runScheduler. destruct (allEmployees st); [by apply elem_of_nil in Hemp | done]. }
  split. { unfold runScheduler. destruct (allEmployees st); [by apply elem_of_nil in Hemp | done]. }
  intros Hholds.
  set (wp := workingPass Math_sin st (initialRun st)).
  unfold finalRun in *. rewrite auditPass_schedule in Hholds.
  rewrite auditPass_shiftCounts, adminPass_shiftCounts. fold wp in Hholds |- *.
  destruct (backupPass_toppedUp Math_sin st wp emp Hemp) as [Hle|Hsame]; [done|]. exfalso.
  pose proof (adminPass_writes Math_sin st (backupPass Math_sin st wp)) as Ha.
  destruct (Ha (id emp) d) as [Heq|(Hnull & c & Hc & _ & s & Hs & Hts & Hcs)].
  - rewrite Heq, Hsame in Hholds.
    assert (Hcell : workingPassCell st (getCell (r_schedule wp) (id emp) d)).
    { unfold wp. rewrite workingPass_cell by done. by apply stateAt_cells. }
    destruct Hcell as [Hn|[(a & Hm)|Hw]].
    + by rewrite Hn in Hholds.
    + rewrite Hm, holdsCategory_absence in Hholds; done.
    + destruct (getCell (r_schedule wp) (id emp) d) as [c|]; [|done].
      apply holdsCategory_elim in Hw as (s & Hs & Hts & <-).
      rewrite (holdsCategory_other st s backup Hu Hs) in Hholds; [done | congruence].
  - rewrite Hc, <- Hcs in Hholds.
    rewrite (holdsCategory_other st s backup Hu Hs) in Hholds; [done | congruence].
Qed.

Lemma backup_only_below_target_witness :
  exists grid counts,
    schedule (runScheduler sinZero backupFillState) = Some grid /\
    shiftCounts (runScheduler sinZero backupFillState) = Some counts /\
    (holdsCategory (shifts backupFillState) backup (getCell grid (0%nat, 0%nat) 0) = true ->
     total (getCounts counts (0%nat, 0%nat)) <= backupCeiling backupFillState).
Proof.
  apply (backup_only_below_target sinZero backupFillState (memberOf 0 0 (free "Avery")) 0).
  - unfold codesUnique. compute_done.
  - unfold codesNotReserved. compute_done.
  - apply list_elem_of_In. vm_compute. auto.
  - vm_compute. lia.
Defined.

Section WarningOrder.
Variable Math_sin : Z -> Q.
Variable st : AppState.

Lemma StronglySorted_snoc {A} (R : A -> A -> Prop) (l : list A) (x : A) :
  StronglySorted R l -> Forall (fun y => R y x) l -> StronglySorted R (l ++ [x]).
Proof.
  intros Hl Hx. apply StronglySorted_app_2; [|done|repeat constructor].
  intros a b Ha Hb. apply list_elem_of_singleton in Hb as ->.
  rewrite Forall_forall in Hx. by apply Hx.
Qed.

Lemma stateAt_warnings_sorted d k :
  (d < numDays st)%nat ->
  StronglySorted (fun a b => warningDay a <= warningDay b) (r_warnings (stateAt Math_sin st d k)) /\
  Forall (fun w => isShortfall w /\ 1 <= warningDay w <= Z.of_nat d + 1)
         (r_warnings (stateAt Math_sin st d k)).
Proof.
  revert d k.
  apply (dayLoop_invariant Math_sin st (fun d run =>
    StronglySorted (fun a b => warningDay a <= warningDay b) (r_warnings run) /\
    Forall (fun w => isShortfall w /\ 1 <= warningDay w <= Z.of_nat d + 1) (r_warnings run))).
  - split; constructor.
  - intros d run shift _ _ [Hs Hb]. rewrite scheduleShift_warnings. unfold shortfall.
    destruct (_ <? _); [|by rewrite app_nil_r]. split.
    + apply StronglySorted_snoc; [done|]. eapply Forall_impl; [exact Hb|]. simpl. intros w [_ ?]. lia.
    + apply Forall_app. split; [done|]. repeat constructor; simpl; lia.
  - intros d run _ [Hs Hb]. split; [done|].
    eapply Forall_impl; [exact Hb|]. simpl. intros w [? ?]. split; [done|]. lia.
Qed.

Lemma workingPass_warnings_sorted :
  StronglySorted (fun a b => warningDay a <= warningDay b)
    (r_warnings (workingPass Math_sin st (initialRun st))) /\
  Forall (fun w => isShortfall w /\ 1 <= warningDay w <= Z.of_nat (numDays st))
         (r_warnings (workingPass Math_sin st (initialRun st))).
Proof.
  rewrite workingPass_dayStart.
  destruct (numDays st) as [|n] eqn:Hn; [split; constructor|].
  rewrite dayStart_S.
  change (r_warnings (updateConsecutive st n ?r)) with (r_warnings r).
  destruct (stateAt_warnings_sorted n (length (workingShifts st)) ltac:(lia)) as [Hs Hb].
  split; [done|]. eapply Forall_impl; [exact Hb|]. simpl. intros w [? ?]. split; [done|]. lia.
Qed.

Lemma audit_warnings sch (l : list Member) :
  exists flagged, flagged `sublist_of` l /\
    flat_map (auditWarning st sch) l =
      (fun emp => TooManyConsecutive (name (m_emp emp)) (snd (scanRow (rowOf st sch (id emp))))
                    (maxConsecutiveDays (constraints st))) <$> flagged.
Proof.
  induction l as [|emp l (flagged & Hsub & Heq)]; [by exists []|].
  simpl. unfold auditWarning at 1. cbv zeta.
  destruct (_ <? _).
  - exists (emp :: flagged). split; [by apply sublist_skip|]. simpl. by rewrite Heq.
  - exists flagged. split; [by apply sublist_cons|]. done.
Qed.

End WarningOrder.

(** X16. The warnings of a run are the understaffed warnings, with days from 1
    to the number of days in non-decreasing order, followed by the
    consecutive-days warnings in the order of the roster, at most one per
    employee, each with the count of the employee's stored row. *)
Theorem warnings_in_order (Math_sin : Z -> Q) (st : AppState) :
  exists shortfalls flagged grid,
    (allEmployees st <> [] -> schedule (runScheduler Math_sin st) = Some grid) /\
    warnings (runScheduler Math_sin st) =
      shortfalls ++
      ((fun emp => TooManyConsecutive (name (m_emp emp)) (snd (scanRow (rowOf st grid (id emp))))
                     (maxConsecutiveDays (constraints st))) <$> flagged) /\
    Forall (fun w => isShortfall w /\ 1 <= warningDay w <= Z.of_nat (numDays st)) shortfalls /\
    StronglySorted (fun a b => warningDay a <= warningDay b) shortfalls /\
    flagged `sublist_of` allEmployees st.
Proof.
  unfold runScheduler. destruct (allEmployees st) as [|e l] eqn:Hroster.
  - exists [], [], ∅. cbn [warnings]. repeat split; try constructor. done.
  - cbn [warnings schedule]. rewrite finalRun_warnings.
    destruct (audit_warnings st (r_schedule (finalRun Math_sin st)) (allEmployees st))
      as (flagged & Hsub & Heq).
    destruct (workingPass_warnings_sorted Math_sin st) as [Hs Hb].
    exists (r_warnings (workingPass Math_sin st (initialRun st))), flagged,
           (r_schedule (finalRun Math_sin st)).
    rewrite Heq. rewrite Hroster in Hsub. done.
Qed.

(* ====================================================================== *)
(** ** The coverage footer after a run *)
(* ====================================================================== *)

(** X17. Right after a run with unique shift codes none of which is LEAVE or
    TAD, for a working shift and a day of the period the coverage footer
    requires what the run required, counts as assigned the employees of the
    roster that hold the code, never classes the cell as over, and classes it
    as under exactly when the run logged the understaffed warning with these
    two numbers. *)
Theorem footer_after_run (Math_sin : Z -> Q) (st : AppState) (d : nat) (shift : Shift) :
  codesUnique st ->
  codesNotReserved st ->
  allEmployees st <> [] ->
  (d < numDays st)%nat ->
  shift ∈ shifts st ->
  type shift = working ->
  exists grid,
    schedule (runScheduler Math_sin st) = Some grid /\
    footerRequired (runScheduler Math_sin st) d shift = requiredCount st d shift /\
    footerAssigned grid d shift = Z.of_nat (length (holders st grid d (code shift))) /\
    footerCellClass (runScheduler Math_sin st) grid d shift
      <> "coverage-required coverage-over"%string /\
    (footerCellClass (runScheduler Math_sin st) grid d shift
       = "coverage-required coverage-under"%string <->
     Understaffed (Z.of_nat d + 1) (code shift) (footerAssigned grid d shift)
                  (footerRequired (runScheduler Math_sin st) d shift)
       ∈ warnings (runScheduler Math_sin st)).
Proof.
  intros Hu Hres Hroster Hd Hshift Htype. set (st' := runScheduler Math_sin st).
  exists (r_schedule (finalRun Math_sin st)).
  assert (Hrun : schedule st' = Some (r_schedule (finalRun Math_sin st)) /\
                 warnings st' = r_warnings (finalRun Math_sin st) /\
                 footerRequired st' d shift = footerRequired st d shift).
  { unfold st', runScheduler. by destruct (allEmployees st). }
  destruct Hrun as (Hgrid & Hwarn & Hsame).
  assert (Hreq : footerRequired st d shift = requiredCount st d shift).
  { unfold footerRequired, requiredCount, isWorking. rewrite Htype, andb_true_r.
    destruct (coveragePreset st); try done. }
  assert (Hworking : shift ∈ workingShifts st).
  { apply workingShifts_elem. split; [done|]. unfold isWorking. by rewrite Htype. }
  apply list_elem_of_lookup in Hworking as [k Hk].
  pose proof (footerAssigned_holders Math_sin st d shift) as Hassigned.
  pose proof (holders_chosen Math_sin st d k shift Hu Hres Hd Hk) as Hperm.
  apply Permutation_length in Hperm.
  pose proof (chosen_warned Math_sin st d k shift Hd Hk) as Hwarned. cbv zeta in Hwarned.
  rewrite <- Hperm, <- Hassigned in Hwarned.
  assert (Hbound : 0 <= footerAssigned (r_schedule (finalRun Math_sin st)) d shift
                     <= Z.max 0 (requiredCount st d shift)).
  { rewrite Hassigned, Hperm. unfold chosen. rewrite length_take. lia. }
  rewrite Hwarn, Hsame, Hreq. repeat split; try done.
  - unfold footerCellClass. rewrite Hsame, Hreq.
    repeat case_match; try done. lia.
  - unfold footerCellClass. rewrite Hsame, Hreq. intros Hclass. apply Hwarned.
    repeat case_match; try done. lia.
  - intros Hin. apply Hwarned in Hin. unfold footerCellClass. rewrite Hsame, Hreq.
    repeat case_match; try done; lia.
Qed.

Lemma footer_after_run_witness :
  exists grid,
    schedule (runScheduler sinZero scenarioD) = Some grid /\
    footerRequired (runScheduler sinZero scenarioD) 2 dayShift = requiredCount scenarioD 2 dayShift /\
    footerAssigned grid 2 dayShift = Z.of_nat (length (holders scenarioD grid 2 (code dayShift))) /\
    footerCellClass (runScheduler sinZero scenarioD) grid 2 dayShift
      <> "coverage-required coverage-over"%string /\
    (footerCellClass (runScheduler sinZero scenarioD) grid 2 dayShift
       = "coverage-required coverage-under"%string <->
     Understaffed (Z.of_nat 2 + 1) (code dayShift) (footerAssigned grid 2 dayShift)
                  (footerRequired (runScheduler sinZero scenarioD) 2 dayShift)
       ∈ warnings (runScheduler sinZero scenarioD)).
Proof.
  apply (footer_after_run sinZero scenarioD 2 dayShift).
  - unfold codesUnique. compute_done.
  - unfold codesNotReserved. compute_done.
  - vm_compute. discriminate.
  - vm_compute. lia.
  - apply list_elem_of_In. vm_compute. auto.
  - reflexivity.
Defined.

(** The classes of the four days of scenario D. *)
Example footer_scenarioD :
  (schedule (runScheduler sinZero scenarioD) ≫= fun grid =>
     Some ((fun d => footerCellClass (runScheduler sinZero scenarioD) grid d dayShift) <$> [0; 1; 2; 3]%nat))
    = Some ["coverage-required coverage-met"; "coverage-required coverage-met";
            "coverage-required coverage-under"; "coverage-required coverage-met"]%string.
Proof. vm_compute. reflexivity. Qed.

(* ====================================================================== *)
(** ** Editing the roster and the time off *)
(* ====================================================================== *)

Lemma elem_of_allEmployees st m :
  m ∈ allEmployees st <->
  exists G E, groups st !! groupIndex m = Some G /\ employees G !! empIndex m = Some E /\
    m = {| m_emp := E; groupIndex := groupIndex m; groupName := g_name G;
           empIndex := empIndex m; id := (groupIndex m, empIndex m) |}.
Proof.
  unfold allEmployees. rewrite elem_of_concat. split.
  - intros (row & Hm & Hrow).
    apply elem_of_lookup_imap in Hrow as (g & G & -> & Hg).
    apply elem_of_lookup_imap in Hm as (e & E & -> & He). simpl. by exists G, E.
  - intros (G & E & HG & HE & Hm).
    exists (imap (fun eIndex emp =>
      {| m_emp := emp; groupIndex := groupIndex m; groupName := g_name G;
         empIndex := eIndex; id := (groupIndex m, eIndex) |}) (employees G)).
    split.
    + apply elem_of_lookup_imap. exists (empIndex m), E. split; [exact Hm | exact HE].
    + apply (elem_of_lookup_imap (fun gIndex group => imap (fun eIndex emp =>
        {| m_emp := emp; groupIndex := gIndex; groupName := g_name group;
           empIndex := eIndex; id := (gIndex, eIndex) |}) (employees group))).
      exists (groupIndex m), G. split; [reflexivity | exact HG].
Qed.

Lemma foldl_sum_lengths (gs : list Group) (acc : Z) :
  foldl (fun sum g => sum + Z.of_nat (length (employees g))) acc gs =
  acc + foldl (fun sum g => sum + Z.of_nat (length (employees g))) 0 gs.
Proof.
  revert acc. induction gs as [|g gs IH]; intros acc; simpl; [lia|].
  rewrite (IH (acc + _)), (IH (0 + _)). lia.
Qed.

Lemma length_roster_from (F : nat -> Group -> list Member) (gs : list Group) :
  (forall i G, length (F i G) = length (employees G)) ->
  Z.of_nat (length (concat (imap F gs))) =
  foldl (fun sum g => sum + Z.of_nat (length (employees g))) 0 gs.
Proof.
  revert F. induction gs as [|g gs IH]; intros F HF; [done|].
  cbn [imap concat foldl]. rewrite length_app, HF, foldl_sum_lengths.
  rewrite <- (IH (F ∘ S)); [lia|]. intros i G. apply HF.
Qed.

Lemma getTotalEmployeeCount_roster st :
  getTotalEmployeeCount st = Z.of_nat (length (allEmployees st)).
Proof.
  unfold getTotalEmployeeCount, allEmployees. symmetry.
  apply length_roster_from. intros i G. apply length_imap.
Qed.

Lemma getTotalEmployeeCount_insert st gIndex G G' :
  groups st !! gIndex = Some G ->
  getTotalEmployeeCount (withGroups st (<[gIndex := G']> (groups st))) =
  getTotalEmployeeCount st - Z.of_nat (length (employees G)) + Z.of_nat (length (employees G')).
Proof.
  unfold getTotalEmployeeCount. cbn [groups withGroups].
  generalize (groups st) as gs. intros gs. revert gIndex.
  induction gs as [|g gs IH]; intros [|i] Hg; simplify_eq/=.
  - rewrite (foldl_sum_lengths gs (0 + _)), (foldl_sum_lengths gs (0 + Z.of_nat (length (employees G)))). lia.
  - rewrite (foldl_sum_lengths _ (0 + _)), (foldl_sum_lengths gs (0 + _)), (IH i Hg). lia.
Qed.

(** X18. From a roster of at most 20 employees addEmployee never leads to more
    than 20: below the limit it adds one employee (or throws on a group that
    does not exist, changing nothing), at the limit it changes nothing; the
    employees already there keep their place and id. *)
Theorem addEmployee_respects_limit (st : AppState) (gIndex : nat) :
  getTotalEmployeeCount st <= MAX_EMPLOYEES ->
  match addEmployee st gIndex with
  | Returns st' =>
      getTotalEmployeeCount st' <= MAX_EMPLOYEES /\
      (getTotalEmployeeCount st < MAX_EMPLOYEES ->
         getTotalEmployeeCount st' = getTotalEmployeeCount st + 1) /\
      (getTotalEmployeeCount st = MAX_EMPLOYEES -> st' = st) /\
      (forall m, m ∈ allEmployees st -> m ∈ allEmployees st') /\
      Z.of_nat (length (allEmployees st')) = getTotalEmployeeCount st'
  | Throws st' =>
      st' = st /\ groups st !! gIndex = None /\ getTotalEmployeeCount st < MAX_EMPLOYEES
  | NotRepresented => False
  end.
Proof.
  intros Hle. unfold addEmployee.
  destruct (Z.leb_spec MAX_EMPLOYEES (getTotalEmployeeCount st)) as [Hfull|Hroom].
  { split; [done|]. split; [lia|]. split; [done|]. split; [done|].
    by rewrite getTotalEmployeeCount_roster. }
  destruct (groups st !! gIndex) as [G|] eqn:HG; [|done].
  set (G' := {| g_name := g_name G; employees := _ |}).
  assert (Hcount : getTotalEmployeeCount (withGroups st (<[gIndex := G']> (groups st))) =
                   getTotalEmployeeCount st + 1).
  { rewrite (getTotalEmployeeCount_insert st gIndex G G' HG). unfold G'. cbn [employees].
    rewrite length_app. simpl. lia. }
  split; [lia|]. split; [done|]. split; [lia|]. split.
  - intros m (G0 & E & HG0 & HE & Hm)%elem_of_allEmployees.
    apply elem_of_allEmployees. cbn [groups withGroups].
    destruct (decide (groupIndex m = gIndex)) as [Heq|Hne].
    + exists G', E. rewrite Heq in *. rewrite list_lookup_insert_eq by (by eapply lookup_lt_Some).
      split; [done|]. assert (G0 = G) as -> by congruence. unfold G'. cbn [employees g_name].
      split; [|done]. by apply lookup_app_l_Some.
    + exists G0, E. by rewrite list_lookup_insert_ne.
  - by rewrite getTotalEmployeeCount_roster.
Qed.

Lemma addEmployee_respects_limit_witness :
  match addEmployee scenarioB 0 with
  | Returns st' =>
      getTotalEmployeeCount st' <= MAX_EMPLOYEES /\
      (getTotalEmployeeCount scenarioB < MAX_EMPLOYEES ->
         getTotalEmployeeCount st' = getTotalEmployeeCount scenarioB + 1) /\
      (getTotalEmployeeCount scenarioB = MAX_EMPLOYEES -> st' = scenarioB) /\
      (forall m, m ∈ allEmployees scenarioB -> m ∈ allEmployees st') /\
      Z.of_nat (length (allEmployees st')) = getTotalEmployeeCount st'
  | Throws st' =>
      st' = scenarioB /\ groups scenarioB !! 0%nat = None /\
      getTotalEmployeeCount scenarioB < MAX_EMPLOYEES
  | NotRepresented => False
  end.
Proof.
  apply (addEmployee_respects_limit scenarioB 0). vm_compute. discriminate.
Defined.

Example addEmployee_at_the_limit :
  addEmployee fullRoster 0 = Returns fullRoster /\
  addEmployee scenarioB 5 = Throws scenarioB.
Proof. vm_compute. auto. Qed.

(** Order of strings. *)
Lemma str_le_refl s : JS.str_le s s = true.
Proof.
  unfold JS.str_le, String.leb.
  assert ((s ?= s)%string = Eq) as ->; [|done].
  induction s as [|c s IH]; [done|]. simpl.
  assert ((c ?= c)%char = Eq) as ->; [|done].
  unfold Ascii.compare. apply N.compare_refl.
Qed.

Lemma str_le_of_not_ltb a b : String.ltb a b = false -> JS.str_le b a = true.
Proof.
  unfold String.ltb, JS.str_le, String.leb. rewrite (String.compare_antisym a b).
  by destruct (b ?= a)%string.
Qed.

Lemma getEmployee_setEmployee st g e emp emp0 :
  getEmployee st g e = Some emp0 -> getEmployee (setEmployee st g e emp) g e = Some emp.
Proof.
  unfold getEmployee, setEmployee. cbn [groups withGroups].
  destruct (groups st !! g) as [G|] eqn:HG; [|done]. cbn. intros HE.
  rewrite list_lookup_alter_eq, HG. cbn [fmap option_fmap option_map mbind option_bind employees].
  rewrite list_lookup_insert_eq; [done|]. by eapply lookup_lt_Some.
Qed.

Lemma getEmployee_setEmployee_ne st g e emp g' e' :
  (g, e) <> (g', e') -> getEmployee (setEmployee st g e emp) g' e' = getEmployee st g' e'.
Proof.
  intros Hne. unfold getEmployee, setEmployee. cbn [groups withGroups].
  destruct (decide (g = g')) as [->|Hg].
  - rewrite list_lookup_alter_eq. destruct (groups st !! g') as [G|]; [|done]. cbn.
    rewrite list_lookup_insert_ne; [done | congruence].
  - by rewrite list_lookup_alter_ne.
Qed.

Lemma updateEntry_spec st g e u f :
  match updateEntry st g e u f with
  | Returns st' =>
      exists unavail, entryAt st g e u = Some unavail /\
        entryAt st' g e u = Some (f unavail) /\
        (forall g' e' u', (g', e', u') <> (g, e, u) -> entryAt st' g' e' u' = entryAt st g' e' u')
  | Throws st' => st' = st /\ entryAt st g e u = None
  | NotRepresented => False
  end.
Proof.
  unfold updateEntry, entryAt.
  destruct (getEmployee st g e) as [emp|] eqn:Hemp; [|done]. cbn [mbind option_bind].
  destruct (unavailability emp !! u) as [unavail|] eqn:Hu; [|done].
  exists unavail. split; [done|]. split.
  - rewrite (getEmployee_setEmployee st g e _ emp Hemp). cbn.
    rewrite list_lookup_insert_eq; [done|]. by eapply lookup_lt_Some.
  - intros g' e' u' Hne.
    destruct (decide ((g, e) = (g', e'))) as [[= <- <-]|Hge].
    + rewrite (getEmployee_setEmployee st g e _ emp Hemp), Hemp. cbn.
      rewrite list_lookup_insert_ne; [done | congruence].
    + by rewrite getEmployee_setEmployee_ne.
Qed.

(** X19. updateUnavailStartSection and updateUnavailEndSection store the date
    they are given, keep the type of the entry and every other entry, and
    leave the entry with both dates set and a start that is not after its end
    as a string; on an entry that does not exist they throw and change
    nothing. *)
Theorem section_dates_keep_window_ordered (st : AppState) (gIndex eIndex uIndex : nat)
    (value : string) (setEnd : bool) :
  match (if setEnd then updateUnavailEndSection st gIndex eIndex uIndex value
         else updateUnavailStartSection st gIndex eIndex uIndex value) with
  | Returns st' =>
      exists before after,
        entryAt st gIndex eIndex uIndex = Some before /\
        entryAt st' gIndex eIndex uIndex = Some after /\
        u_type after = u_type before /\
        (if setEnd then u_endDate after else u_startDate after) = Some value /\
        orderedWindow after /\
        (value <> ""%string ->
           JS.truthy (u_startDate after) = true /\ JS.truthy (u_endDate after) = true) /\
        (forall g' e' u', (g', e', u') <> (gIndex, eIndex, uIndex) ->
           entryAt st' g' e' u' = entryAt st g' e' u')
  | Throws st' => st' = st /\ entryAt st gIndex eIndex uIndex = None
  | NotRepresented => False
  end.
Proof.
  destruct setEnd.
  - unfold updateUnavailEndSection.
    match goal with |- context [updateEntry st gIndex eIndex uIndex ?f] =>
      pose proof (updateEntry_spec st gIndex eIndex uIndex f) as Hspec;
      destruct (updateEntry st gIndex eIndex uIndex f) as [st'|st'|] end; [|done|done].
    destruct Hspec as (before & Hb & Ha & Hothers).
    eexists before, _. split; [done|]. split; [exact Ha|]. cbn.
    split; [done|]. split; [done|]. split; [|split; [|done]].
    + unfold orderedWindow. cbn.
      destruct (JS.truthy (u_startDate before)) eqn:Ht; cbn [negb orb].
      * destruct (u_startDate before) as [s|] eqn:Hs; [|done]. cbn.
        destruct (String.ltb value s) eqn:Hlt.
        -- exists value, value. by rewrite str_le_refl.
        -- exists s, value. split; [done|]. split; [done|]. by apply str_le_of_not_ltb.
      * exists value, value. by rewrite str_le_refl.
    + intros Hv. apply truthy_Some in Hv as Hv'. split; [|done].
      destruct (JS.truthy (u_startDate before)) eqn:Ht; cbn [negb orb]; [|done].
      by destruct (String.ltb _ _).
  - unfold updateUnavailStartSection.
    match goal with |- context [updateEntry st gIndex eIndex uIndex ?f] =>
      pose proof (updateEntry_spec st gIndex eIndex uIndex f) as Hspec;
      destruct (updateEntry st gIndex eIndex uIndex f) as [st'|st'|] end; [|done|done].
    destruct Hspec as (before & Hb & Ha & Hothers).
    eexists before, _. split; [done|]. split; [exact Ha|]. cbn.
    split; [done|]. split; [done|]. split; [|split; [|done]].
    + unfold orderedWindow. cbn.
      destruct (JS.truthy (u_endDate before)) eqn:Ht; cbn [negb orb].
      * destruct (u_endDate before) as [e|] eqn:He; [|done]. cbn.
        destruct (String.ltb e value) eqn:Hlt.
        -- exists value, value. by rewrite str_le_refl.
        -- exists value, e. split; [done|]. split; [done|]. by apply str_le_of_not_ltb.
      * exists value, value. by rewrite str_le_refl.
    + intros Hv. apply truthy_Some in Hv as Hv'. split; [done|].
      destruct (JS.truthy (u_endDate before)) eqn:Ht; cbn [negb orb]; [|done].
      by destruct (String.ltb _ _).
Qed.

Lemma list_alter_insert {A} (f : A -> A) (l : list A) i x :
  l !! i = Some x -> alter f i l = <[i := f x]> l.
Proof.
  intros Hi. apply list_eq. intros j.
  destruct (decide (i = j)) as [->|Hne].
  - rewrite list_lookup_alter_eq, Hi, list_lookup_insert_eq; [done|]. by eapply lookup_lt_Some.
  - by rewrite list_lookup_alter_ne, list_lookup_insert_ne.
Qed.

Lemma concat_insert_perm {A B} (f : A -> list B) (l : list A) i x :
  l !! i = Some x ->
  exists R, concat (f <$> l) ≡ₚ f x ++ R /\
    forall y, concat (f <$> <[i := y]> l) ≡ₚ f y ++ R.
Proof.
  intros Hi.
  exists (concat (f <$> take i l) ++ concat (f <$> drop (S i) l)).
  pose proof (take_drop_middle l i x Hi) as Hl.
  split.
  - rewrite <- Hl at 1. rewrite fmap_app, concat_app. simpl.
    rewrite (assoc (++)), (comm (++) (concat _) (f x)), <- (assoc (++)). done.
  - intros y. rewrite insert_take_drop by (by eapply lookup_lt_Some).
    rewrite fmap_app, concat_app. simpl.
    rewrite (assoc (++)), (comm (++) (concat _) (f y)), <- (assoc (++)). done.
Qed.

Lemma m_emp_allEmployees_from (F : nat -> nat) (gs : list Group) :
  m_emp <$> concat (imap (fun gIndex group =>
    imap (fun eIndex emp =>
      {| m_emp := emp; groupIndex := F gIndex; groupName := g_name group;
         empIndex := eIndex; id := (F gIndex, eIndex) |}) (employees group)) gs) =
  concat (employees <$> gs).
Proof.
  revert F. induction gs as [|G gs IH]; intros F; [done|].
  cbn [imap concat fmap list_fmap]. rewrite fmap_app. f_equal.
  - rewrite fmap_imap. cbn. clear. induction (employees G) as [|E Es IHE] using rev_ind; [done|].
    rewrite imap_app. simpl. by rewrite IHE.
  - apply (IH (F ∘ S)).
Qed.

Lemma allEntries_groups st :
  allEntries st = concat ((fun G => concat (unavailability <$> employees G)) <$> groups st).
Proof.
  unfold allEntries.
  replace ((fun emp => unavailability (m_emp emp)) <$> allEmployees st)
    with (unavailability <$> (m_emp <$> allEmployees st)).
  2: { rewrite <- list_fmap_compose. done. }
  unfold allEmployees. rewrite (m_emp_allEmployees_from (fun g => g)).
  induction (groups st) as [|G gs IH]; [done|].
  cbn [fmap list_fmap concat]. rewrite fmap_app, concat_app. by rewrite IH.
Qed.

Lemma allEntries_setEmployee st g e emp0 emp' :
  getEmployee st g e = Some emp0 ->
  exists R, allEntries st ≡ₚ unavailability emp0 ++ R /\
            allEntries (setEmployee st g e emp') ≡ₚ unavailability emp' ++ R.
Proof.
  unfold getEmployee. destruct (groups st !! g) as [G|] eqn:HG; [|done].
  intros HE. cbn in HE.
  rewrite !allEntries_groups. cbn [setEmployee groups withGroups].
  destruct (concat_insert_perm (fun G => concat (unavailability <$> employees G)) (groups st) g G HG)
    as (R & HR & HR').
  destruct (concat_insert_perm unavailability (employees G) e emp0 HE) as (R' & HR2 & HR2').
  exists (R' ++ R). split.
  - rewrite HR, HR2. by rewrite (assoc (++)).
  - rewrite (list_alter_insert _ _ _ G HG).
    rewrite HR'. cbn [employees]. rewrite HR2'. by rewrite (assoc (++)).
Qed.

Lemma rosterNames_from (F : nat -> nat) (gs gs' : list Group) :
  Forall2 (fun G' G => g_name G' = g_name G /\
                       name <$> employees G' = name <$> employees G) gs' gs ->
  (fun m => (id m, groupName m, name (m_emp m))) <$> concat (imap (fun gIndex group =>
    imap (fun eIndex emp =>
      {| m_emp := emp; groupIndex := F gIndex; groupName := g_name group;
         empIndex := eIndex; id := (F gIndex, eIndex) |}) (employees group)) gs') =
  (fun m => (id m, groupName m, name (m_emp m))) <$> concat (imap (fun gIndex group =>
    imap (fun eIndex emp =>
      {| m_emp := emp; groupIndex := F gIndex; groupName := g_name group;
         empIndex := eIndex; id := (F gIndex, eIndex) |}) (employees group)) gs).
Proof.
  intros Hall. revert F. induction Hall as [|G' G gs' gs [Hn He] Hall IH]; intros F; [done|].
  cbn [imap concat]. rewrite !fmap_app. f_equal; [|apply (IH (F ∘ S))].
  rewrite !fmap_imap. cbn. rewrite Hn.
  transitivity (imap (fun n nm => ((F 0%nat, n), g_name G, nm)) (name <$> employees G')).
  { by rewrite imap_fmap. }
  rewrite He. by rewrite imap_fmap.
Qed.

Lemma rosterNames_setEmployee st g e emp0 emp' :
  getEmployee st g e = Some emp0 -> name emp' = name emp0 ->
  rosterNames (setEmployee st g e emp') = rosterNames st.
Proof.
  unfold getEmployee. destruct (groups st !! g) as [G|] eqn:HG; [|done].
  intros HE Hname. cbn in HE.
  unfold rosterNames, allEmployees. apply (rosterNames_from (fun g => g)).
  cbn [setEmployee groups withGroups].
  rewrite (list_alter_insert _ _ _ G HG).
  apply Forall2_same_length_lookup_2; [by rewrite length_insert|].
  intros i G1 G2 H1 H2.
  destruct (decide (i = g)) as [->|Hne].
  - rewrite list_lookup_insert_eq in H1 by (by eapply lookup_lt_Some).
    injection H1 as <-. assert (G2 = G) as -> by congruence. cbn. split; [done|].
    rewrite list_fmap_insert, Hname. apply list_insert_id.
    by rewrite list_lookup_fmap, HE.
  - rewrite list_lookup_insert_ne in H1 by done. by assert (G1 = G2) as -> by congruence.
Qed.

(** X20. When updateUnavailEmployee returns, the entry is the last of the
    target employee's list and the entries of the roster are the same as
    before, as are the ids and names; when the target employee does not exist
    it throws after the entry was removed from its old employee, so that the
    entry is lost. *)
Theorem moving_an_entry_keeps_all_entries (st : AppState)
    (oldGIndex oldEIndex uIndex newGIndex newEIndex : nat) :
  match updateUnavailEmployee st oldGIndex oldEIndex uIndex newGIndex newEIndex with
  | Returns st' =>
      exists entry newEmp,
        entryAt st oldGIndex oldEIndex uIndex = Some entry /\
        allEntries st' ≡ₚ allEntries st /\
        rosterNames st' = rosterNames st /\
        getEmployee st' newGIndex newEIndex = Some newEmp /\
        last (unavailability newEmp) = Some entry
  | Throws st' =>
      (st' = st /\ getEmployee st oldGIndex oldEIndex = None) \/
      (exists entry,
         entryAt st oldGIndex oldEIndex uIndex = Some entry /\
         allEntries st ≡ₚ entry :: allEntries st' /\
         getEmployee st' newGIndex newEIndex = None)
  | NotRepresented =>
      is_Some (getEmployee st oldGIndex oldEIndex) /\ entryAt st oldGIndex oldEIndex uIndex = None
  end.
Proof.
  unfold updateUnavailEmployee, entryAt.
  destruct (getEmployee st oldGIndex oldEIndex) as [oldEmp|] eqn:Hold; [|by left].
  cbn [mbind option_bind].
  destruct (unavailability oldEmp !! uIndex) as [entry|] eqn:Hentry; [|by split].
  set (oldEmp' := withUnavailability oldEmp (delete uIndex (unavailability oldEmp))).
  set (st1 := setEmployee st oldGIndex oldEIndex oldEmp').
  assert (Hst1 : allEntries st ≡ₚ entry :: allEntries st1).
  { destruct (allEntries_setEmployee st oldGIndex oldEIndex oldEmp oldEmp' Hold) as (R & HR & HR').
    fold st1 in HR'. rewrite HR, HR'. unfold oldEmp'. cbn [unavailability withUnavailability].
    by rewrite (delete_Permutation (unavailability oldEmp) uIndex entry Hentry) at 1. }
  destruct (getEmployee st1 newGIndex newEIndex) as [newEmp|] eqn:Hnew.
  - set (newEmp' := withUnavailability newEmp (unavailability newEmp ++ [entry])).
    exists entry, newEmp'. split; [done|]. split; [|split; [|split]].
    + destruct (allEntries_setEmployee st1 newGIndex newEIndex newEmp newEmp' Hnew) as (R & HR & HR').
      rewrite HR', Hst1, HR. unfold newEmp'. cbn [unavailability withUnavailability].
      rewrite <- (assoc (++)). simpl. by rewrite <- Permutation_middle.
    + rewrite (rosterNames_setEmployee st1 newGIndex newEIndex newEmp newEmp' Hnew) by done.
      by apply (rosterNames_setEmployee st oldGIndex oldEIndex oldEmp oldEmp').
    + by apply (getEmployee_setEmployee st1 _ _ _ newEmp).
    + unfold newEmp'. cbn. apply last_snoc.
  - right. exists entry. done.
Qed.

Example moving_an_entry_example :
  updateUnavailEmployee scenarioB 0 0 0 0 1 =
    Returns (exampleState 2 6 [dayShift]
               [free "Avery";
                {| name := "Blake";
                   unavailability := [{| u_type := LEAVE; u_startDate := Some "2025-05-01"%string;
                                         u_endDate := Some "2025-05-02"%string |}] |}]) /\
  updateUnavailEmployee scenarioB 0 0 0 3 0 =
    Throws (exampleState 2 6 [dayShift] [free "Avery"; free "Blake"]) /\
  updateUnavailEmployee scenarioB 0 1 0 0 0 = NotRepresented.
Proof. vm_compute. auto. Qed.

Lemma first_employee_from (F : nat -> nat) (gs : list Group) m :
  concat (imap (fun gIndex group =>
    imap (fun eIndex emp =>
      {| m_emp := emp; groupIndex := F gIndex; groupName := g_name group;
         empIndex := eIndex; id := (F gIndex, eIndex) |}) (employees group)) gs) !! 0%nat = Some m ->
  exists i G, list_find (fun g => employees g <> []) gs = Some (i, G) /\
    employees G !! 0%nat = Some (m_emp m) /\ id m = (F i, 0%nat).
Proof.
  revert F. induction gs as [|G gs IH]; intros F Hm; [done|].
  cbn [imap concat] in Hm. cbn [list_find].
  destruct (employees G) as [|E Es] eqn:HE.
  - simpl in Hm. destruct (IH (F ∘ S) Hm) as (i & G' & Hfind & HE' & Hid).
    rewrite decide_False by (intros H; by apply H).
    rewrite Hfind. cbn. exists (S i), G'. done.
  - simpl in Hm. injection Hm as <-. exists 0%nat, G.
    rewrite decide_True by done. rewrite HE. done.
Qed.

Lemma first_employee st m :
  allEmployees st !! 0%nat = Some m ->
  exists G, list_find (fun g => employees g <> []) (groups st) = Some (fst (id m), G) /\
    employees G !! 0%nat = Some (m_emp m) /\ snd (id m) = 0%nat.
Proof.
  intros Hm. destruct (first_employee_from (fun g => g) (groups st) m Hm) as (i & G & Hfind & HE & Hid).
  exists G. rewrite Hid. done.
Qed.

Lemma numDays_withGroups st gs : numDays (withGroups st gs) = numDays st.
Proof. reflexivity. Qed.

Section FirstOfMonth.
Import JSDate.

Lemma formatDateStr_first_of_month st gs :
  calendarStyle st = monthly ->
  ~ (0 <= year st <= 99) ->
  0 <= month st <= 11 ->
  formatDateStr (getDateForDay (withGroups st gs) 0) =
    (JS.str_of_Z (year st) +:+ "-" +:+ JS.padStart2 (JS.str_of_Z (month st + 1)) +:+ "-01")%string.
Proof.
  intros Hstyle Hyear Hmonth.
  unfold getDateForDay. cbn [calendarStyle withGroups year month]. rewrite Hstyle.
  unfold make. replace ((0 <=? year st) && (year st <=? 99)) with false by lia.
  destruct (MakeDay_fields (year st) (month st) (0 + 1) Hmonth) as (Hy & Hm & Hd).
  { pose proof (daysInMonth_range (year st) (month st)). lia. }
  unfold formatDateStr, getFullYear, getMonth, getDate. rewrite Hy, Hm, Hd. reflexivity.
Qed.

End FirstOfMonth.

(** X21. In month mode (month 0 to 11, year outside 0 to 99) the entry that
    addUnavailabilityEntry adds makes the next run store LEAVE at the first
    day of the first employee of the roster. *)
Theorem default_entry_marks_first_day (Math_sin : Z -> Q) (st : AppState) (m : Member) :
  calendarStyle st = monthly ->
  ~ (0 <= year st <= 99) ->
  0 <= month st <= 11 ->
  allEmployees st !! 0%nat = Some m ->
  exists grid,
    schedule (runScheduler Math_sin (addUnavailabilityEntry st)) = Some grid /\
    getCell grid (id m) 0 = Some "LEAVE"%string.
Proof.
  intros Hstyle Hyear Hmonth Hm.
  destruct (first_employee st m Hm) as (G & Hfind & HE & He0).
  unfold addUnavailabilityEntry. rewrite Hfind, HE.
  set (startDate := (JS.str_of_Z (year st) +:+ "-" +:+ JS.padStart2 (JS.str_of_Z (month st + 1)) +:+ "-01")%string).
  set (entry := {| u_type := LEAVE; u_startDate := Some startDate; u_endDate := Some startDate |}).
  set (emp' := withUnavailability (m_emp m) (unavailability (m_emp m) ++ [entry])).
  set (st' := setEmployee st (fst (id m)) 0 emp').
  assert (HG : groups st !! fst (id m) = Some G) by (by apply list_find_Some in Hfind as (? & _)).
  set (m' := {| m_emp := emp'; groupIndex := fst (id m); groupName := g_name G;
                empIndex := 0; id := (fst (id m), 0%nat) |}).
  assert (Hm' : m' ∈ allEmployees st').
  { apply elem_of_allEmployees. cbn [groupIndex empIndex m'].
    eexists _, emp'. split; [|split].
    - unfold st'. cbn [setEmployee groups withGroups]. rewrite list_lookup_alter_eq, HG. reflexivity.
    - cbn. rewrite list_lookup_insert_eq; [done|]. by eapply lookup_lt_Some.
    - done. }
  assert (Hid : id m' = id m). { cbn. rewrite <- He0. by destruct (id m). }
  assert (Hdays : (0 < numDays st')%nat).
  { unfold st', setEmployee. rewrite numDays_withGroups. unfold numDays.
    rewrite (getDaysInPeriod_monthly st Hstyle ltac:(lia) Hmonth).
    pose proof (daysInMonth_range (year st) (month st)). lia. }
  assert (Hcovers : coversDay st' entry 0 = true).
  { unfold coversDay. cbn [u_startDate u_endDate entry]. cbv zeta.
    assert (JS.truthy (Some startDate) = true) as Htruthy.
    { apply truthy_Some. unfold startDate. intros Heq.
      destruct (JS.str_of_Z (year st)); cbv [String.append] in Heq; discriminate. }
    rewrite Htruthy. cbn [andb default from_option].
    unfold st', setEmployee. rewrite (formatDateStr_first_of_month st _ Hstyle Hyear Hmonth).
    fold startDate. cbv [Datatypes.id]. by rewrite str_le_refl. }
  exists (r_schedule (finalRun Math_sin st')). split.
  { unfold runScheduler. destruct (allEmployees st'); [by apply elem_of_nil in Hm' | done]. }
  apply (finalRun_keeps Math_sin st'). cbn [r_schedule initialRun].
  rewrite <- Hid, (prefill_cell st' m' 0 Hm' Hdays).
  unfold lastCovering. cbn [m_emp m' unavailability emp' withUnavailability].
  rewrite List.filter_app. cbn [List.filter]. rewrite Hcovers, last_snoc. reflexivity.
Qed.

Lemma default_entry_marks_first_day_witness :
  exists grid,
    schedule (runScheduler sinZero (addUnavailabilityEntry mayRoster)) = Some grid /\
    getCell grid (1%nat, 0%nat) 0 = Some "LEAVE"%string.
Proof.
  apply (default_entry_marks_first_day sinZero mayRoster
           {| m_emp := free "Avery"; groupIndex := 1; groupName := "Team";
              empIndex := 0; id := (1%nat, 0%nat) |}).
  - reflexivity.
  - vm_compute. intros [_ H]. by apply H.
  - vm_compute. split; discriminate.
  - reflexivity.
Defined.

(* ====================================================================== *)
(** ** The counts of a row and the CSV export *)
(* ====================================================================== *)

Example exportCSV_scenarioA :
  exportCSV (runScheduler sinZero scenarioA) =
    Some ("STAFF,1,2,3,D,Total" +:+ LF +:+ ",TH,F,S," +:+ LF +:+ "Team" +:+ LF +:+
          "Avery,D,D,D,3,3" +:+ LF)%string.
Proof. vm_compute. reflexivity. Qed.

Section RowCounts.
Variable st : AppState.

Lemma initCounts_lookup c :
  initCounts st !! c = if decide (c ∈ countedCodes st) then Some 0 else None.
Proof.
  unfold initCounts, countedCodes.
  assert (Hw : forall (l : list Shift) (m : gmap string Z),
    foldl (fun counts s => <[code s := 0]> counts) m l !! c =
      if decide (c ∈ code <$> l) then Some 0 else m !! c).
  { induction l as [|s l IH] using rev_ind; intros m.
    - cbn [foldl fmap list_fmap].
      destruct (decide _) as [Hin|]; [by apply elem_of_nil in Hin | done].
    - rewrite foldl_app, fmap_app. simpl.
      destruct (decide (code s = c)) as [<-|Hne].
      + rewrite lookup_insert_eq. rewrite decide_True; [done|].
        apply elem_of_app. right. by apply list_elem_of_singleton.
      + rewrite lookup_insert_ne by done. rewrite IH. apply decide_ext.
        rewrite elem_of_app, list_elem_of_singleton.
        split; [by left|]. intros [?|?]; [done | congruence]. }
  destruct (findBackupShift st) as [b|].
  - destruct (decide (code b = c)) as [<-|Hne].
    + rewrite lookup_insert_eq. rewrite decide_True; [done|].
      apply elem_of_app. right. by apply list_elem_of_singleton.
    + rewrite lookup_insert_ne by done. rewrite Hw, lookup_empty.
      destruct (decide (c ∈ code <$> List.filter isWorking (shifts st))) as [Hin|Hnin].
      * rewrite decide_True; [done|]. apply elem_of_app. by left.
      * rewrite decide_False; [done|]. rewrite elem_of_app, list_elem_of_singleton.
        intros [?|?]; [done | congruence].
  - rewrite Hw, lookup_empty, app_nil_r. by destruct (decide _).
Qed.

Lemma keysKept_init : keysKept st (initCounts st, 0).
Proof.
  intros c. cbn [fst]. rewrite initCounts_lookup. destruct (decide _); [|by rewrite <- not_eq_None_Some].
  split; [done | by eexists].
Qed.

Lemma keysKept_csv acc cell : keysKept st acc -> keysKept st (csvCountCell st acc cell).
Proof.
  intros Hk c. unfold csvCountCell. cbv zeta. cbn [fst].
  match goal with |- context [fst acc !! ?k] => set (key := k) end.
  destruct (fst acc !! key) as [n|] eqn:Hkey; [|apply Hk].
  destruct (decide (key = c)) as [<-|Hne].
  - rewrite lookup_insert_eq. split; [intros _; apply Hk; by rewrite Hkey | by eexists].
  - rewrite lookup_insert_ne by done. apply Hk.
Qed.

Lemma countedCodes_catalogue c : c ∈ countedCodes st -> c ∈ code <$> shifts st.
Proof.
  unfold countedCodes. rewrite elem_of_app. intros [Hin|Hin].
  - apply list_elem_of_fmap in Hin as (s & -> & Hs). apply list_elem_of_fmap_2.
    apply list_elem_of_In, filter_In in Hs as [Hs _]. by apply list_elem_of_In.
  - unfold findBackupShift in Hin. destruct (List.find _ _) as [b|] eqn:Hfind; [|by apply elem_of_nil in Hin].
    apply list_elem_of_singleton in Hin as ->. apply list_elem_of_fmap_2.
    apply find_some in Hfind as [Hb _]. by apply list_elem_of_In.
Qed.

Lemma find_not_in_catalogue c :
  c ∉ code <$> shifts st -> List.find (fun s => String.eqb (code s) c) (shifts st) = None.
Proof.
  intros Hnin. destruct (List.find _ _) as [s|] eqn:Hfind; [|done]. exfalso.
  apply find_some in Hfind as [Hs Hc]. apply String.eqb_eq in Hc as <-.
  apply Hnin, list_elem_of_fmap_2. by apply list_elem_of_In.
Qed.

(** The two countings agree on a cell unless the catalogue has a shift
    coded as the empty cell or as an absence marker. *)
Lemma renderCountCell_csv acc cell :
  Forall (fun s => code s <> ""%string /\ code s <> "LEAVE"%string /\ code s <> "TAD"%string)
         (shifts st) ->
  keysKept st acc ->
  renderCountCell st acc cell = csvCountCell st acc cell.
Proof.
  intros Hcodes Hk.
  assert (Hskip : forall c, c = ""%string \/ c = "LEAVE"%string \/ c = "TAD"%string ->
            fst acc !! c = None /\ List.find (fun s => String.eqb (code s) c) (shifts st) = None).
  { intros c Hc.
    assert (c ∉ code <$> shifts st) as Hnin.
    { intros (s & -> & Hs)%list_elem_of_fmap. rewrite Forall_forall in Hcodes.
      destruct (Hcodes s Hs) as (? & ? & ?). destruct Hc as [?|[?|?]]; congruence. }
    split; [|by apply find_not_in_catalogue].
    apply eq_None_not_Some. intros Hsome. apply Hk in Hsome.
    by apply countedCodes_catalogue in Hsome. }
  unfold renderCountCell, csvCountCell, cellText. cbv zeta.
  destruct (JS.truthy cell) eqn:Ht.
  - destruct cell as [c|]; [|done]. cbn [default from_option]. cbv [Datatypes.id].
    destruct (String.eqb_spec c "LEAVE") as [->|H1].
    { destruct (Hskip "LEAVE"%string) as [-> ->]; [auto|]. by destruct acc. }
    destruct (String.eqb_spec c "TAD") as [->|H2].
    { destruct (Hskip "TAD"%string) as [-> ->]; [auto|]. by destruct acc. }
    done.
  - destruct (Hskip ""%string) as [-> ->]; [auto|]. by destruct acc.
Qed.

Lemma renderCounts_csvCounts row :
  Forall (fun s => code s <> ""%string /\ code s <> "LEAVE"%string /\ code s <> "TAD"%string)
         (shifts st) ->
  renderCounts st row = csvCounts st row.
Proof.
  intros Hcodes. unfold renderCounts, csvCounts.
  assert (Hgen : forall acc, keysKept st acc ->
            foldl (renderCountCell st) acc row = foldl (csvCountCell st) acc row).
  { induction row as [|cell row' IH]; intros acc Hk; [done|]. simpl.
    rewrite renderCountCell_csv by done. apply IH. by apply keysKept_csv. }
  apply Hgen, keysKept_init.
Qed.

Lemma sumWorkingColumns_insert_other counts c n :
  c ∉ code <$> List.filter isWorking (shifts st) ->
  sumWorkingColumns st (<[c := n]> counts) = sumWorkingColumns st counts.
Proof.
  unfold sumWorkingColumns. induction (List.filter isWorking (shifts st)) as [|s l IH]; [done|].
  rewrite fmap_cons, not_elem_of_cons. intros [Hne Hnin]. simpl.
  rewrite IH by done. unfold csvCount. by rewrite lookup_insert_ne.
Qed.

Lemma sumWorkingColumns_insert counts c n :
  NoDup (code <$> List.filter isWorking (shifts st)) ->
  c ∈ code <$> List.filter isWorking (shifts st) ->
  sumWorkingColumns st (<[c := n]> counts) =
  sumWorkingColumns st counts - csvCount counts c + n.
Proof.
  unfold sumWorkingColumns. induction (List.filter isWorking (shifts st)) as [|s l IH]; intros Hnd Hin.
  { by apply elem_of_nil in Hin. }
  rewrite fmap_cons in Hnd, Hin. apply NoDup_cons in Hnd as [Hs Hnd]. simpl.
  destruct (decide (code s = c)) as [<-|Hne].
  - unfold csvCount at 1. rewrite lookup_insert_eq. cbn.
    assert (foldr (fun s0 sum => csvCount (<[code s := n]> counts) (code s0) + sum) 0 l =
            foldr (fun s0 sum => csvCount counts (code s0) + sum) 0 l) as ->; [|lia].
    clear IH Hnd Hin. induction l as [|s' l IH]; [done|].
    rewrite fmap_cons, not_elem_of_cons in Hs. destruct Hs as [Hne Hs]. simpl.
    rewrite IH by done. unfold csvCount. by rewrite lookup_insert_ne.
  - apply elem_of_cons in Hin as [Heq|Hin]; [congruence|].
    rewrite IH by done. unfold csvCount at 1. rewrite lookup_insert_ne by done.
    unfold csvCount. lia.
Qed.

Lemma find_code_eqb s :
  NoDup (code <$> shifts st) -> s ∈ shifts st ->
  List.find (fun s' => String.eqb (code s') (code s)) (shifts st) = Some s.
Proof.
  intros Hnd Hs.
  destruct (List.find _ _) as [s'|] eqn:Hfind.
  - apply find_some in Hfind as [Hs' Hc]. apply String.eqb_eq in Hc.
    f_equal. apply (NoDup_fmap_eq code (shifts st)); [done| |done|done]. by apply list_elem_of_In.
  - exfalso. apply list_elem_of_In in Hs.
    pose proof (find_none _ _ Hfind s Hs) as Hc. simpl in Hc. by rewrite String.eqb_refl in Hc.
Qed.

Lemma csvCountCell_sum acc cell :
  NoDup (code <$> shifts st) ->
  keysKept st acc ->
  snd acc = sumWorkingColumns st (fst acc) ->
  snd (csvCountCell st acc cell) = sumWorkingColumns st (fst (csvCountCell st acc cell)).
Proof.
  intros Hnd Hk Hsum. unfold csvCountCell. cbv zeta. cbn [fst snd].
  match goal with |- context [fst acc !! ?k] => set (key := k) end.
  assert (HndW : NoDup (code <$> List.filter isWorking (shifts st))).
  { eapply sublist_NoDup; [exact Hnd|]. apply fmap_sublist, sublist_List_filter. }
  destruct (decide (key ∈ code <$> List.filter isWorking (shifts st))) as [Hw|Hnw].
  - assert (is_Some (fst acc !! key)) as [n Hn].
    { apply Hk. unfold countedCodes. apply elem_of_app. by left. }
    rewrite Hn. rewrite sumWorkingColumns_insert by done.
    unfold csvCount at 1. rewrite Hn. cbn.
    apply list_elem_of_fmap in Hw as (s & Hkey & Hs).
    apply list_elem_of_In, filter_In in Hs as [Hs Hworking]. apply list_elem_of_In in Hs.
    rewrite Hkey, (find_code_eqb s Hnd Hs), Hworking. lia.
  - assert (match List.find (fun s => String.eqb (code s) key) (shifts st) with
            | Some shift => if isWorking shift then snd acc + 1 else snd acc
            | None => snd acc
            end = snd acc) as ->.
    { destruct (List.find _ _) as [s|] eqn:Hfind; [|done].
      destruct (isWorking s) eqn:Hworking; [|done]. exfalso.
      apply find_some in Hfind as [Hs Hc]. apply String.eqb_eq in Hc.
      apply Hnw. rewrite <- Hc. apply list_elem_of_fmap_2, list_elem_of_In, filter_In. done. }
    destruct (fst acc !! key) as [n|]; [|done].
    by rewrite sumWorkingColumns_insert_other.
Qed.

End RowCounts.

Lemma countChar_append c s1 s2 :
  countChar c (s1 +:+ s2) = (countChar c s1 + countChar c s2)%nat.
Proof.
  induction s1 as [|a s1 IH]; [done|].
  cbv [String.append]. fold String.append. cbn [countChar]. rewrite IH. lia.
Qed.

Lemma countChar_appendEach {A} c (f : A -> string) (l : list A) (n : nat) :
  Forall (fun x => countChar c (f x) = n) l ->
  countChar c (appendEach f l) = (length l * n)%nat.
Proof.
  induction 1 as [|x l Hx Hl IH]; [done|].
  cbn [appendEach foldr length]. fold (appendEach f l).
  rewrite countChar_append, Hx, IH. lia.
Qed.

Ltac use_notNumeric :=
  repeat match goal with
  | H : Ascii.eqb ?a ?c = false |- context [Ascii.eqb ?a ?c] => rewrite H
  end.

Lemma countChar_string_of_uint c u :
  notNumeric c -> countChar c (NilEmpty.string_of_uint u) = 0%nat.
Proof.
  unfold notNumeric. intros Hc.
  repeat (apply Forall_cons in Hc as [? Hc]).
  induction u; cbn [NilEmpty.string_of_uint countChar]; [done|..]; rewrite IHu; by use_notNumeric.
Qed.

Lemma countChar_str_of_Z c n : notNumeric c -> countChar c (JS.str_of_Z n) = 0%nat.
Proof.
  intros Hc. unfold JS.str_of_Z.
  assert (Hu : forall u, countChar c (NilZero.string_of_uint u) = 0%nat).
  { intros u. unfold NilZero.string_of_uint.
    destruct u; try apply (countChar_string_of_uint c _ Hc).
    unfold notNumeric in Hc. repeat (apply Forall_cons in Hc as [? Hc]).
    cbn [countChar]. by use_notNumeric. }
  destruct n as [|p|p]; cbn [Z.to_int NilZero.string_of_int].
  - apply Hu.
  - apply Hu.
  - cbn [countChar]. rewrite Hu.
    unfold notNumeric in Hc. repeat (apply Forall_cons in Hc as [? Hc]). by use_notNumeric.
Qed.

Lemma notNumeric_comma : notNumeric ",".
Proof. repeat constructor. Qed.

Lemma notNumeric_LF : notNumeric "010".
Proof. repeat constructor. Qed.

Lemma countChar_DAY_NAMES c n : (c = "," \/ c = "010")%char -> countChar c (DAY_NAMES n) = 0%nat.
Proof.
  intros [-> | ->]; unfold DAY_NAMES;
    repeat match goal with |- context [match ?x with _ => _ end] => destruct x end; reflexivity.
Qed.

Section CsvShape.
Variable st : AppState.
Hypothesis Hcodes : Forall (fun s => plainText (code s)) (shifts st).

Lemma backup_plain b : findBackupShift st = Some b -> plainText (code b).
Proof.
  unfold findBackupShift. intros Hfind. apply find_some in Hfind as [Hb _].
  rewrite Forall_forall in Hcodes. by apply Hcodes, list_elem_of_In.
Qed.

Lemma working_plain : Forall (fun s => plainText (code s)) (List.filter isWorking (shifts st)).
Proof.
  rewrite Forall_forall in *. intros s Hs. apply Hcodes.
  apply list_elem_of_In, filter_In in Hs as [Hs _]. by apply list_elem_of_In.
Qed.

Lemma csvHeader_shape :
  countChar "," (csvHeader st) = (csvFields st - 1)%nat /\
  countChar "010" (csvHeader st) = 1%nat.
Proof.
  unfold csvHeader, csvFields.
  pose proof working_plain as Hw.
  split.
  - rewrite !countChar_append.
    rewrite (countChar_appendEach _ _ (days st) 1).
    2: { apply Forall_forall. intros d _. cbv zeta. rewrite countChar_append.
         rewrite countChar_str_of_Z by apply notNumeric_comma. reflexivity. }
    rewrite (countChar_appendEach _ _ (List.filter isWorking (shifts st)) 1).
    2: { eapply Forall_impl; [exact Hw|]. intros s [Hs _]. cbv beta.
         rewrite countChar_append, Hs. reflexivity. }
    unfold days. rewrite length_seq.
    destruct (findBackupShift st) as [b|] eqn:Hb.
    + destruct (backup_plain b Hb) as [Hc _]. rewrite countChar_append, Hc. simpl. lia.
    + simpl. lia.
  - rewrite !countChar_append.
    rewrite (countChar_appendEach _ _ (days st) 0).
    2: { apply Forall_forall. intros d _. cbv zeta. rewrite countChar_append.
         rewrite countChar_str_of_Z by apply notNumeric_LF. reflexivity. }
    rewrite (countChar_appendEach _ _ (List.filter isWorking (shifts st)) 0).
    2: { eapply Forall_impl; [exact Hw|]. intros s [_ Hs]. cbv beta.
         rewrite countChar_append, Hs. reflexivity. }
    destruct (findBackupShift st) as [b|] eqn:Hb.
    + destruct (backup_plain b Hb) as [_ Hc]. rewrite countChar_append, Hc. simpl. lia.
    + simpl. lia.
Qed.

Lemma csvEmployeeRow_shape sch gIndex eIndex emp :
  plainText (name emp) ->
  Forall (fun cell => plainText (cellText cell)) (rowOf st sch (gIndex, eIndex)) ->
  countChar "," (csvEmployeeRow st sch gIndex eIndex emp) = (csvFields st - 1)%nat /\
  countChar "010" (csvEmployeeRow st sch gIndex eIndex emp) = 1%nat.
Proof.
  intros [Hn1 Hn2] Hcells. unfold csvEmployeeRow, csvFields. cbv zeta.
  destruct (csvCounts st _) as [counts total].
  split.
  - rewrite !countChar_append, Hn1.
    rewrite (countChar_appendEach _ _ (map _ (days st)) 1).
    2: { eapply Forall_impl; [exact Hcells|]. intros cell [Hc _]. cbv beta.
         rewrite countChar_append, Hc. reflexivity. }
    rewrite (countChar_appendEach _ _ (List.filter isWorking (shifts st)) 1).
    2: { apply Forall_forall. intros s _.
         rewrite countChar_append, countChar_str_of_Z by apply notNumeric_comma. reflexivity. }
    rewrite countChar_str_of_Z by apply notNumeric_comma.
    rewrite length_map. unfold days. rewrite length_seq.
    destruct (findBackupShift st) as [b|] eqn:Hb.
    + rewrite countChar_append, countChar_str_of_Z by apply notNumeric_comma. simpl. lia.
    + simpl. lia.
  - rewrite !countChar_append, Hn2.
    rewrite (countChar_appendEach _ _ (map _ (days st)) 0).
    2: { eapply Forall_impl; [exact Hcells|]. intros cell [_ Hc]. cbv beta.
         rewrite countChar_append, Hc. reflexivity. }
    rewrite (countChar_appendEach _ _ (List.filter isWorking (shifts st)) 0).
    2: { apply Forall_forall. intros s _.
         rewrite countChar_append, countChar_str_of_Z by apply notNumeric_LF. reflexivity. }
    rewrite countChar_str_of_Z by apply notNumeric_LF.
    destruct (findBackupShift st) as [b|] eqn:Hb.
    + rewrite countChar_append, countChar_str_of_Z by apply notNumeric_LF. simpl. lia.
    + simpl. lia.
Qed.

End CsvShape.

#[local] Instance plainText_dec s : Decision (plainText s).
Proof. unfold plainText. apply _. Defined.

(** X22. When a schedule is stored and no shift code, group name, employee
    name or cell holds a comma or a line feed, the CSV text has two header
    lines and one line per group and per employee, and the first header row
    and every employee row have the same number of fields: one per day, one
    per working shift, the name and the total, and one more with a backup
    shift. *)
Theorem csv_has_one_line_per_row (st : AppState) (sch : Schedule) :
  schedule st = Some sch ->
  Forall (fun s => plainText (code s)) (shifts st) ->
  Forall (fun g => plainText (g_name g) /\ Forall (fun emp => plainText (name emp)) (employees g))
         (groups st) ->
  Forall (fun m => Forall (fun cell => plainText (cellText cell)) (rowOf st sch (id m)))
         (allEmployees st) ->
  exists csv,
    exportCSV st = Some csv /\
    countChar "010" csv = (2 + length (groups st) + length (allEmployees st))%nat /\
    countChar "," (csvHeader st) = (csvFields st - 1)%nat /\
    (forall gIndex eIndex emp,
       getEmployee st gIndex eIndex = Some emp ->
       countChar "," (csvEmployeeRow st sch gIndex eIndex emp) = (csvFields st - 1)%nat).
Proof.
  intros Hsch Hcodes Hnames Hcells.
  assert (Hrow : forall g e G emp, groups st !! g = Some G -> employees G !! e = Some emp ->
            plainText (name emp) /\
            Forall (fun cell => plainText (cellText cell)) (rowOf st sch (g, e))).
  { intros g e G emp HG HE. split.
    - rewrite Forall_forall in Hnames. destruct (Hnames G) as [_ Hemps]; [by eapply list_elem_of_lookup_2|].
      rewrite Forall_forall in Hemps. by eapply Hemps, list_elem_of_lookup_2.
    - rewrite Forall_forall in Hcells.
      apply (Hcells {| m_emp := emp; groupIndex := g; groupName := g_name G;
                       empIndex := e; id := (g, e) |}).
      apply elem_of_allEmployees. by exists G, emp. }
  unfold exportCSV. rewrite Hsch. eexists. split; [reflexivity|].
  split; [|split].
  - rewrite !countChar_append.
    destruct (csvHeader_shape st Hcodes) as [_ ->].
    assert (countChar "010" (csvDayNames st) = 1%nat) as ->.
    { unfold csvDayNames. rewrite !countChar_append.
      rewrite (countChar_appendEach _ _ (days st) 0); [simpl; lia|].
      apply Forall_forall. intros d _. rewrite countChar_append, countChar_DAY_NAMES by auto.
      reflexivity. }
    assert (Hroster : Z.of_nat (length (allEmployees st)) = getTotalEmployeeCount st)
      by (by rewrite getTotalEmployeeCount_roster).
    unfold getTotalEmployeeCount in Hroster.
    assert (Hgen : forall (gs : list Group) (k : nat),
      (forall i G, gs !! i = Some G -> groups st !! (k + i)%nat = Some G) ->
      Z.of_nat (countChar "010" (appendEach (fun '(gIndex, group) =>
              g_name group +:+ LF +:+
              appendEach (fun '(eIndex, emp) => csvEmployeeRow st sch gIndex eIndex emp)
                         (imap pair (employees group))) (imap (fun i => pair (k + i)%nat) gs))) =
      Z.of_nat (length gs) + foldl (fun sum g => sum + Z.of_nat (length (employees g))) 0 gs).
    { induction gs as [|g gs IH]; intros k Hall; [done|].
      cbn [imap appendEach foldr foldl length].
      rewrite !countChar_append.
      rewrite foldl_sum_lengths.
      specialize (IH (S k)).
      assert (imap (fun i => pair (S k + i)%nat) gs = imap ((fun i => pair (k + i)%nat) ∘ S) gs) as Hshift.
      { apply imap_ext. intros i x _. simpl. f_equal. lia. }
      rewrite Hshift in IH.
      unfold appendEach at 1 in IH. rewrite !Nat2Z.inj_add, IH.
      2: { intros i G Hi. replace (S k + i)%nat with (k + S i)%nat by lia. by apply Hall. }
      assert (HG : groups st !! (k + 0)%nat = Some g) by (by apply Hall).
      assert (countChar "010" (g_name g) = 0%nat) as ->.
      { rewrite Forall_forall in Hnames. by destruct (Hnames g) as [[_ ?] _]; [by eapply list_elem_of_lookup_2|]. }
      assert (countChar "010" (appendEach (fun '(eIndex, emp) => csvEmployeeRow st sch (k + 0) eIndex emp)
                (imap pair (employees g))) = length (employees g)) as ->.
      { rewrite (countChar_appendEach _ _ _ 1).
        - rewrite length_imap. lia.
        - apply Forall_forall. intros [e emp] Hin.
          apply elem_of_lookup_imap in Hin as (e' & emp' & [= -> ->] & Hlook).
          destruct (Hrow _ _ _ _ HG Hlook). by apply (csvEmployeeRow_shape st). }
      simpl. lia. }
    specialize (Hgen (groups st) 0%nat ltac:(done)).
    assert (imap (fun i => pair (0 + i)%nat) (groups st) = imap pair (groups st)) as Himap
      by (by apply imap_ext).
    rewrite Himap in Hgen. lia.
  - apply (csvHeader_shape st Hcodes).
  - intros g e emp Hemp.
    unfold getEmployee in Hemp. destruct (groups st !! g) as [G|] eqn:HG; [|done]. cbn in Hemp.
    destruct (Hrow _ _ _ _ HG Hemp). by apply (csvEmployeeRow_shape st).
Qed.

Lemma csv_has_one_line_per_row_witness :
  exists csv,
    exportCSV (runScheduler sinZero scenarioA) = Some csv /\
    countChar "010" csv = 4%nat /\
    countChar "," (csvHeader (runScheduler sinZero scenarioA)) = 5%nat /\
    (forall gIndex eIndex emp,
       getEmployee (runScheduler sinZero scenarioA) gIndex eIndex = Some emp ->
       countChar "," (csvEmployeeRow (runScheduler sinZero scenarioA)
                        (r_schedule (finalRun sinZero scenarioA)) gIndex eIndex emp) = 5%nat).
Proof.
  apply (csv_has_one_line_per_row (runScheduler sinZero scenarioA)
           (r_schedule (finalRun sinZero scenarioA))).
  - reflexivity.
  - compute_done.
  - compute_done.
  - compute_done.
Defined.

(** X23. With unique shift codes the Total of an employee row of the CSV
    export is the sum of the counts of its working-shift columns. *)
Theorem csv_total_is_sum_of_columns (st : AppState) (row : list Cell) :
  NoDup (code <$> shifts st) ->
  snd (csvCounts st row) = sumWorkingColumns st (fst (csvCounts st row)).
Proof.
  intros Hnd. unfold csvCounts.
  assert (Hgen : forall acc, keysKept st acc -> snd acc = sumWorkingColumns st (fst acc) ->
            snd (foldl (csvCountCell st) acc row) =
            sumWorkingColumns st (fst (foldl (csvCountCell st) acc row))).
  { induction row as [|cell row' IH]; intros acc Hk Hsum; [done|]. simpl.
    apply IH; [by apply keysKept_csv | by apply csvCountCell_sum]. }
  apply Hgen; [apply keysKept_init|]. cbn [fst snd].
  unfold sumWorkingColumns.
  induction (List.filter isWorking (shifts st)) as [|s l IH]; [done|]. simpl.
  rewrite <- IH. unfold csvCount. rewrite initCounts_lookup. by destruct (decide _).
Qed.

Lemma csv_total_is_sum_of_columns_witness :
  snd (csvCounts nightThenDay [Some "N"; None; Some "D"; Some "LEAVE"; Some "N"]%string) =
  sumWorkingColumns nightThenDay
    (fst (csvCounts nightThenDay [Some "N"; None; Some "D"; Some "LEAVE"; Some "N"]%string)).
Proof.
  apply (csv_total_is_sum_of_columns nightThenDay). compute_done.
Defined.

(** X24. When no shift code is empty, LEAVE or TAD, the per-shift counts and
    the total that the screen shows for a row are those of the CSV export. *)
Theorem screen_counts_are_export_counts (st : AppState) (row : list Cell) :
  Forall (fun s => code s <> ""%string /\ code s <> "LEAVE"%string /\ code s <> "TAD"%string)
         (shifts st) ->
  renderCounts st row = csvCounts st row.
Proof. apply renderCounts_csvCounts. Qed.

Lemma screen_counts_are_export_counts_witness :
  renderCounts nightThenDay [Some "N"; None; Some "D"; Some "LEAVE"; Some "N"]%string =
  csvCounts nightThenDay [Some "N"; None; Some "D"; Some "LEAVE"; Some "N"]%string.
Proof.
  apply (screen_counts_are_export_counts nightThenDay). compute_done.
Defined.

(** With a working shift coded LEAVE the two counts differ: the screen
    never counts the cell, the export does. *)
Example counts_differ_on_reserved_code :
  let st := exampleState 2 6 [{| code := "LEAVE"; type := working; coverage := Some 1 |}]
                         [free "Avery"] in
  snd (renderCounts st [Some "LEAVE"%string]) = 0 /\
  snd (csvCounts st [Some "LEAVE"%string]) = 1.
Proof. vm_compute. auto. Qed.
